(** * 2D diffusion on a CUDA device: a shallow embedding of [diffusion2d.cu]

    The embedding follows [src/solutions/cuda/diffusion/diffusion2d.cu]:
    the [fill] kernel and its launcher [fill_gpu], the two stencil kernels
    [diffusion] and [diffusion_shared], the driver [main] and the writer
    [write_to_file].

    - Machine integers are [Z] with the wrap-around of the C++ type written
      out ([u32] for [unsigned int], [u64] for [size_t] / [unsigned long],
      [s32] for a conversion to [int]).
    - Device memory is a [list] indexed from the start of its allocation; a
      pointer into it is an offset.  An access outside the allocation, a read
      of a staging-buffer cell that no unit has written, a barrier that only
      part of a block reaches and a signed overflow are undefined behaviour:
      the embedding returns [Fault].
    - The cells are [double] in the source.  The kernels are written over an
      interface [Arith] of the operations and literals they use, with two
      instances: binary64 floats (Rocq's primitive floats, which compute
      as the hardware does) and exact rationals.  Every operation rounds on
      its own, as written: a product and a sum are not contracted into one
      fused operation.
    - A kernel gets [blockDim], [blockIdx] and [threadIdx] as arguments, and
      the memory it writes as its last argument, which it returns.
    - A kernel launch runs the body once per unit.  Units of a launch write
      pairwise distinct cells and read only memory that no unit of the launch
      writes, so the launch is the sequential composition of its units, blocks
      in row-major order and, inside a block, units in row-major order; the
      barrier of [diffusion_shared] splits the body into two phases, and every
      unit of a block finishes the first before any unit starts the second.
    - Of the ways in which the device can refuse a launch, the one modelled
      is a staging buffer larger than the device's capacity. *)

From Stdlib Require Import ZArith List Lia Bool QArith Lqa Floats.
From Stdlib Require String Ascii DecimalString.
From stdpp Require Import base list list_numbers.
Import String.StringSyntax.
Local Delimit Scope string_scope with string.
Local Open Scope Z_scope.

(** ** Machine integers *)

Definition u32 (z : Z) : Z := z mod 2 ^ 32.
Definition u64 (z : Z) : Z := z mod 2 ^ 64.
Definition s32 (z : Z) : Z := (z + 2 ^ 31) mod 2 ^ 32 - 2 ^ 31.
Definition INT_MAX : Z := 2 ^ 31 - 1.

(** Arithmetic on [unsigned int]. *)
Notation "a ⊕ b" := (u32 (a + b)) (at level 50, left associativity).
Notation "a ⊖ b" := (u32 (a - b)) (at level 50, left associativity).
Notation "a ⊗ b" := (u32 (a * b)) (at level 40, left associativity).

(** ** Undefined behaviour as a result *)

Inductive fault : Set :=
| OutOfBounds
| UninitializedRead
| BarrierDivergence
| SignedOverflow.

Inductive result (A : Type) : Type :=
| Ok (a : A)
| Fault (f : fault).
Arguments Ok {A} a.
Arguments Fault {A} f.

#[global] Instance result_ret : MRet result := λ A a, Ok a.
#[global] Instance result_bind : MBind result := λ A B k r,
  match r with
  | Ok a => k a
  | Fault f => Fault f
  end.

Fixpoint foldM {I S : Type} (f : I → S → result S) (l : list I) (s : S) : result S :=
  match l with
  | [] => Ok s
  | t :: l' => s' ← f t s; foldM f l' s'
  end.

(** ** Device memory *)

Definition load {A : Type} (m : list A) (p : Z) : result A :=
  if (0 <=? p) && (p <? Z.of_nat (length m)) then
    match m !! Z.to_nat p with
    | Some v => Ok v
    | None => Fault OutOfBounds
    end
  else Fault OutOfBounds.

Definition store {A : Type} (m : list A) (p : Z) (v : A) : result (list A) :=
  if (0 <=? p) && (p <? Z.of_nat (length m)) then Ok (<[Z.to_nat p := v]> m)
  else Fault OutOfBounds.

(** The staging buffer of a block ([extern __shared__ double buffer[]]): a
    cell is [None] until a unit of the block writes it. *)
Definition shared_load {A : Type} (buffer : list (option A)) (p : Z) : result A :=
  c ← load buffer p;
  match c with
  | Some v => Ok v
  | None => Fault UninitializedRead
  end.

(** ** Launch geometry

    [dim3] with its [x] and [y] extents; the [z] extent is 1 in every launch
    of the program and no kernel reads it. *)

Record dim3 : Set := Dim3 { x : Z; y : Z }.

(** The indices below the extents [d], [x] running fastest. *)
Definition indices (d : dim3) : list dim3 :=
  j ← seqZ 0 d.(y); i ← seqZ 0 d.(x); [Dim3 i j].

(** [kernel<<<gridDim, blockDim>>>] for a kernel without a barrier: the body
    gets [blockDim], [blockIdx] and [threadIdx]. *)
Definition launch {S : Type} (gridDim blockDim : dim3)
    (kernel : dim3 → dim3 → dim3 → S → result S) (s : S) : result S :=
  foldM (λ blockIdx, foldM (kernel blockDim blockIdx) (indices blockDim))
        (indices gridDim) s.

(** ** The fill kernel (lines 150-166) *)

Definition fill {A : Type} (v : Z) (value : A) (n : Z)
    (blockDim blockIdx threadIdx : dim3) (m : list A) : result (list A) :=
  let tid := s32 (threadIdx.(x) ⊕ blockDim.(x) ⊗ blockIdx.(x)) in
  if tid <? n then store m (v + tid) value else Ok m.

Definition fill_gpu {A : Type} (m : list A) (v : Z) (value : A) (n : Z) : result (list A) :=
  let block_dim := 192 in
  let grid_dim := u64 (u64 n / block_dim + (if u64 n mod block_dim =? 0 then 0 else 1)) in
  launch (Dim3 (u32 grid_dim) 1) (Dim3 (u32 block_dim) 1) (fill v value n) m.

(** ** Double precision arithmetic *)

Class Arith (T : Type) : Type := {
  fadd : T → T → T;
  fmul : T → T → T;
  lit_0 : T;      (* 0.  *)
  lit_1 : T;      (* 1.  *)
  lit_m4 : T;     (* -4. *)
  lit_0_1 : T     (* 0.1 *)
}.

(** binary64, round to nearest even; [0x1.999999999999ap-4] is the double
    that the literal [0.1] denotes. *)
#[global] Instance float_arith : Arith float := {|
  fadd := PrimFloat.add;
  fmul := PrimFloat.mul;
  lit_0 := 0%float;
  lit_1 := 1%float;
  lit_m4 := (-4)%float;
  lit_0_1 := 0x1.999999999999ap-4%float
|}.


Section kernels.
Context {T : Type} `{Arith T}.

(** ** Coordinates of a unit (lines 23-28 and 41-49) *)

Definition global_i (blockDim blockIdx threadIdx : dim3) : Z :=
  threadIdx.(x) ⊕ blockIdx.(x) ⊗ blockDim.(x).
Definition global_j (blockDim blockIdx threadIdx : dim3) : Z :=
  threadIdx.(y) ⊕ blockIdx.(y) ⊗ blockDim.(y).

(** [i<nx && j<ny]: [i] and [j] are [unsigned], [nx] and [ny] are [int]. *)
Definition in_domain (blockDim blockIdx threadIdx : dim3) (nx ny : Z) : bool :=
  (global_i blockDim blockIdx threadIdx <? u32 nx)
  && (global_j blockDim blockIdx threadIdx <? u32 ny).

(** [(i+1) + (j+1)*width] *)
Definition position (i j width : Z) : Z := (i ⊕ 1) ⊕ (j ⊕ 1) ⊗ u32 width.

(** ** The naive kernel (lines 21-35)

    [width] is [nx+2] in [int]; it is converted to [unsigned] where [pos] is
    computed from it. *)

Definition diffusion (x0 : list T) (nx ny : Z) (dt : T)
    (blockDim blockIdx threadIdx : dim3) (x1 : list T) : result (list T) :=
  let i := global_i blockDim blockIdx threadIdx in
  let j := global_j blockDim blockIdx threadIdx in
  if (i <? u32 nx) && (j <? u32 ny) then
    let width := nx + 2 in
    let pos := position i j width in
    c ← load x0 pos;
    n ← load x0 (pos ⊖ u32 width);
    s ← load x0 (pos ⊕ u32 width);
    w ← load x0 (pos ⊖ 1);
    e ← load x0 (pos ⊕ 1);
    store x1 pos
      (fadd c (fmul dt (fadd (fadd (fadd (fadd (fmul lit_m4 c) n) s) w) e)))
  else Ok x1.

(** ** The tiled kernel (lines 37-71), split at [__syncthreads()] *)

(** Lines 44-63: the unit copies its cell, and the neighbouring halo cell when
    it is on an edge of the block, into the staging buffer. *)
Definition diffusion_shared_stage (x0 : list T) (nx ny : Z)
    (blockDim blockIdx threadIdx : dim3) (buffer : list (option T))
    : result (list (option T)) :=
  let i := global_i blockDim blockIdx threadIdx in
  let j := global_j blockDim blockIdx threadIdx in
  if (i <? u32 nx) && (j <? u32 ny) then
    let width := nx + 2 in
    let shared_width := blockDim.(x) ⊕ 2 in
    let pos := position i j width in
    let shared_pos := position threadIdx.(x) threadIdx.(y) shared_width in
    v ← load x0 pos;
    buffer ← store buffer shared_pos (Some v);
    buffer ←
      (if threadIdx.(x) =? 0 then
         v ← load x0 (pos ⊖ 1); store buffer (shared_pos ⊖ 1) (Some v)
       else Ok buffer);
    buffer ←
      (if threadIdx.(x) =? blockDim.(x) ⊖ 1 then
         v ← load x0 (pos ⊕ 1); store buffer (shared_pos ⊕ 1) (Some v)
       else Ok buffer);
    buffer ←
      (if threadIdx.(y) =? 0 then
         v ← load x0 (pos ⊖ u32 width);
         store buffer (shared_pos ⊖ shared_width) (Some v)
       else Ok buffer);
    (if threadIdx.(y) =? blockDim.(y) ⊖ 1 then
       v ← load x0 (pos ⊕ u32 width);
       store buffer (shared_pos ⊕ shared_width) (Some v)
     else Ok buffer)
  else Ok buffer.

(** Line 65 is inside the guard of line 44: a unit reaches the barrier when
    its coordinates are in the domain. *)
Definition reaches_barrier (nx ny : Z) (blockDim blockIdx threadIdx : dim3) : bool :=
  in_domain blockDim blockIdx threadIdx nx ny.

(** Lines 67-69: the update, every operand read from the staging buffer. *)
Definition diffusion_shared_compute (buffer : list (option T)) (nx ny : Z) (dt : T)
    (blockDim blockIdx threadIdx : dim3) (x1 : list T) : result (list T) :=
  let i := global_i blockDim blockIdx threadIdx in
  let j := global_j blockDim blockIdx threadIdx in
  if (i <? u32 nx) && (j <? u32 ny) then
    let width := nx + 2 in
    let shared_width := blockDim.(x) ⊕ 2 in
    let pos := position i j width in
    let shared_pos := position threadIdx.(x) threadIdx.(y) shared_width in
    c ← shared_load buffer shared_pos;
    n ← shared_load buffer (shared_pos ⊖ shared_width);
    s ← shared_load buffer (shared_pos ⊕ shared_width);
    w ← shared_load buffer (shared_pos ⊖ 1);
    e ← shared_load buffer (shared_pos ⊕ 1);
    store x1 pos
      (fadd c (fmul dt (fadd (fadd (fadd (fadd (fmul lit_m4 c) n) s) w) e)))
  else Ok x1.

(** The staging phase of one block, from a buffer of [shared_size] bytes
    that no unit has written yet. *)
Definition stage_block (x0 : list T) (nx ny : Z) (shared_size : Z)
    (blockDim blockIdx : dim3) : result (list (option T)) :=
  foldM (diffusion_shared_stage x0 nx ny blockDim blockIdx) (indices blockDim)
        (replicate (Z.to_nat (shared_size / 8)) None).

(** [__syncthreads()] is defined when every unit of the block reaches it, or
    none does. *)
Definition barrier_uniform (nx ny : Z) (blockDim blockIdx : dim3) : bool :=
  forallb (reaches_barrier nx ny blockDim blockIdx) (indices blockDim)
  || forallb (λ t, negb (reaches_barrier nx ny blockDim blockIdx t)) (indices blockDim).

(** [diffusion_shared] for the units of one block: staging phase, barrier,
    compute phase. *)
Definition diffusion_shared (x0 : list T) (nx ny : Z) (dt : T) (shared_size : Z)
    (blockDim blockIdx : dim3) (x1 : list T) : result (list T) :=
  buffer ← stage_block x0 nx ny shared_size blockDim blockIdx;
  if barrier_uniform nx ny blockDim blockIdx then
    foldM (diffusion_shared_compute buffer nx ny dt blockDim blockIdx)
          (indices blockDim) x1
  else Fault BarrierDivergence.

(** [diffusion_shared<<<gridDim, blockDim, shared_size>>>] *)
Definition launch_shared (gridDim blockDim : dim3) (shared_size : Z)
    (x0 : list T) (nx ny : Z) (dt : T) (x1 : list T) : result (list T) :=
  foldM (diffusion_shared x0 nx ny dt shared_size blockDim) (indices gridDim) x1.

(** ** The driver (lines 73-148) *)

(** Modelled from the spec: the memory helpers of [util.h] are not in the
    repository's files.  "allocate device-resident buffer of [N] doubles": the
    cells hold whatever the device memory held, given by [junk]. *)
Definition malloc_device (junk : nat → T) (n : Z) : list T :=
  junk <$> seq 0 (Z.to_nat n).

(** Modelled from the spec: "copy a device buffer to a host buffer of equal
    size" ([copy_to_host] of [util.h]). *)
Definition copy_to_host (from : list T) (n : Z) : list T :=
  take (Z.to_nat n) from.

(** Lines 99-107, for a padded grid of [nx] by [ny] cells. *)
Definition initialize (nx ny : Z) (x0 x1 : list T) : result (list T * list T) :=
  let buffer_size := u64 (nx * ny) in
  x0 ← fill_gpu x0 0 lit_0 (s32 buffer_size);
  x1 ← fill_gpu x1 0 lit_0 (s32 buffer_size);
  x0 ← fill_gpu x0 0 lit_1 (s32 nx);
  x1 ← fill_gpu x1 0 lit_1 (s32 nx);
  x0 ← fill_gpu x0 (u64 (nx * u64 (ny - 1))) lit_1 (s32 nx);
  x1 ← fill_gpu x1 (u64 (nx * u64 (ny - 1))) lit_1 (s32 nx);
  Ok (x0, x1).

(** Lines 113-117. *)
Definition block_dim : dim3 := Dim3 16 16.
Definition grid_dim (nx ny : Z) : dim3 :=
  Dim3 (u32 (u64 (nx - 2 + block_dim.(x) - 1) / block_dim.(x)))
       (u32 (u64 (ny - 2 + block_dim.(y) - 1) / block_dim.(y))).

(** Line 122. *)
Definition shared_size : Z :=
  u64 ((block_dim.(x) ⊕ 2) ⊗ (block_dim.(y) ⊕ 2) * 8).

(** The state of the time-stepping loop: the two buffers in their current
    roles, the number of launches issued so far and the number of them the
    device has rejected.  The driver never reads the error state of the
    device. *)
Record loop_state : Type := LoopState {
  cur : list T;
  next : list T;
  issued : nat;
  rejected : nat
}.

(** Lines 121-131, one iteration.  [capacity] is the staging-buffer capacity
    of the device in bytes: a launch that asks for more is rejected, no unit
    of it runs, and the error stays with the device. *)
Definition time_step (capacity : Z) (nx ny : Z) (dt : T) (use_shared : bool)
    (st : loop_state) : result loop_state :=
  if use_shared then
    if shared_size <=? capacity then
      x1 ← launch_shared (grid_dim nx ny) block_dim shared_size
             st.(cur) (s32 (u64 (nx - 2))) (s32 (u64 (ny - 2))) dt st.(next);
      Ok (LoopState x1 st.(cur) (S st.(issued)) st.(rejected))
    else Ok (LoopState st.(next) st.(cur) (S st.(issued)) (S st.(rejected)))
  else
    x1 ← launch (grid_dim nx ny) block_dim
           (diffusion st.(cur) (s32 (u64 (nx - 2))) (s32 (u64 (ny - 2))) dt) st.(next);
    Ok (LoopState x1 st.(cur) (S st.(issued)) st.(rejected)).

(** Lines 120-132: [nsteps] iterations. *)
Fixpoint time_loop (capacity : Z) (nx ny : Z) (dt : T) (use_shared : bool)
    (nsteps : nat) (st : loop_state) : result loop_state :=
  match nsteps with
  | O => Ok st
  | S n => st' ← time_step capacity nx ny dt use_shared st;
           time_loop capacity nx ny dt use_shared n st'
  end.

(** What a run leaves behind: the exit status, the grid handed to
    [write_to_file], the number of launches issued by the loop and the number
    of them the device rejected. *)
Record outcome : Type := Outcome {
  exit_status : Z;
  x_host : list T;
  launches : nat;
  unreported : nat
}.

(** Lines 83-136 for a padded grid of [nx] by [ny] cells.  The loop counter
    [step] is an [int]: counting past [INT_MAX] overflows. *)
Definition run (capacity : Z) (nx ny : Z) (dt : T) (nsteps : Z) (use_shared : bool)
    (junk0 junk1 : nat → T) : result outcome :=
  let buffer_size := u64 (nx * ny) in
  let x0 := malloc_device junk0 buffer_size in
  let x1 := malloc_device junk1 buffer_size in
  '(x0, x1) ← initialize nx ny x0 x1;
  if INT_MAX <? nsteps then Fault SignedOverflow
  else
    st ← time_loop capacity nx ny dt use_shared (Z.to_nat nsteps) (LoopState x0 x1 O O);
    Ok (Outcome 0 (copy_to_host st.(cur) buffer_size) st.(issued) st.(rejected)).

(** [main], its three arguments already parsed by [read_arg]: the grid is
    [128+2] wide and [(1 << pow)+2] high, and [dt] is [0.1]. *)
Definition main (capacity : Z) (pow nsteps : Z) (use_shared : bool)
    (junk0 junk1 : nat → T) : result outcome :=
  if 31 <=? pow then Fault SignedOverflow
  else run capacity (u64 (128 + 2)) (u64 (Z.shiftl 1 pow + 2)) lit_0_1
           nsteps use_shared junk0 junk1.

End kernels.

(** ** The writer (lines 168-184)

    [write_to_file] leaves two files: [output.bin], the cells that [fwrite]
    takes from the host buffer, one [double] after the other, and
    [output.bov], a text header.  Both files are taken to open and every
    write to succeed.  [nx * ny] is a product of [int]s, converted to
    [size_t] for [fwrite]; reading past the end of the buffer is undefined. *)

Record files (T : Type) : Type := Files {
  output_bin : list T;
  output_bov : String.string
}.
Arguments Files {T} _ _.
Arguments output_bin {T} _.
Arguments output_bov {T} _.

(** [std::endl]: a line feed. *)
Definition endl : String.string :=
  String.String (Ascii.ascii_of_nat 10) String.EmptyString.

(** [fid << n] for an [int]: the decimal digits, after a minus sign when [n]
    is negative. *)
Definition print_int (n : Z) : String.string :=
  DecimalString.NilZero.string_of_int (Z.to_int n).

(** Lines 175-183, one entry per line of the header. *)
Definition bov_lines (nx ny : Z) : list String.string :=
  [ "TIME: 0.0"%string;
    "DATA_FILE: output.bin"%string;
    String.append "DATA_SIZE: "
      (String.append (print_int nx)
         (String.append ", " (String.append (print_int ny) ", 1")));
    "DATA_FORMAT: DOUBLE"%string;
    "VARIABLE: phi"%string;
    "DATA_ENDIAN: LITTLE"%string;
    "CENTERING: nodal"%string;
    "BRICK_SIZE: 1.0 1.0 1.0"%string ].

Definition write_to_file {T : Type} (nx ny : Z) (data : list T) : result (files T) :=
  if (nx * ny <? - 2 ^ 31) || (INT_MAX <? nx * ny) then Fault SignedOverflow
  else
    let count := u64 (nx * ny) in
    if count <=? Z.of_nat (length data) then
      Ok (Files (take (Z.to_nat count) data)
                (String.concat "" (map (λ l, String.append l endl) (bov_lines nx ny))))
    else Fault OutOfBounds.

(** Lines 136-147: [main] hands the host buffer to the writer; the grid
    extents, [size_t] in [main], are converted to the [int] parameters. *)
Definition main_writes {T : Type} `{Arith T} (capacity : Z) (pow nsteps : Z)
    (use_shared : bool) (junk0 junk1 : nat → T) : result (files T) :=
  out ← main capacity pow nsteps use_shared junk0 junk1;
  write_to_file (s32 (u64 (128 + 2))) (s32 (u64 (Z.shiftl 1 pow + 2))) out.(x_host).

(** ** Specification vocabulary *)

(** The units of a launch, in the order in which [launch] runs them. *)
Definition units (gridDim blockDim : dim3) : list (dim3 * dim3) :=
  b ← indices gridDim; t ← indices blockDim; [(b, t)].

(** [written act pos l q]: some unit of [l] that is active stores at [q]. *)
Definition written {I : Type} (act : I → bool) (pos : I → Z) (l : list I) (q : Z) : bool :=
  existsb (λ t, act t && (pos t =? q)) l.

(** The copies of the staging phase (lines 51-63): a unit copies its own
    cell, and a neighbouring cell for each edge of the block it lies on. *)
Inductive edge : Set := Own | West | East | North | South.

Definition edges : list edge := [Own; West; East; North; South].

Definition copies (blockDim : dim3) : list (dim3 * edge) :=
  t ← indices blockDim; k ← edges; [(t, k)].

(** Whether unit [c.1] of block [b] performs the copy [c.2]. *)
Definition copy_active (nx ny : Z) (bd b : dim3) (c : dim3 * edge) : bool :=
  in_domain bd b c.1 nx ny
  && match c.2 with
     | Own => true
     | West => c.1.(x) =? 0
     | East => c.1.(x) =? bd.(x) - 1
     | North => c.1.(y) =? 0
     | South => c.1.(y) =? bd.(y) - 1
     end.

(** The staging-buffer cell of unit [t], and the cell a copy writes. *)
Definition shared_position (bd t : dim3) : Z :=
  (t.(x) + 1) + (t.(y) + 1) * (bd.(x) + 2).

Definition copy_position (bd : dim3) (c : dim3 * edge) : Z :=
  shared_position bd c.1
  + match c.2 with
    | Own => 0
    | West => -1
    | East => 1
    | North => - (bd.(x) + 2)
    | South => bd.(x) + 2
    end.

(** Some copy of the staging phase of block [b] writes the cell [s]. *)
Definition staged (nx ny : Z) (bd b : dim3) (s : Z) : bool :=
  written (copy_active nx ny bd b) (copy_position bd) (copies bd) s.

(** The grid cell that the staging-buffer cell [s] of block [b] mirrors. *)
Definition tile_source (nx : Z) (bd b : dim3) (s : Z) : Z :=
  (b.(x) * bd.(x) + s mod (bd.(x) + 2))
  + (b.(y) * bd.(y) + s / (bd.(x) + 2)) * (nx + 2).

(** The update that both stencil kernels are to perform, as a function on
    grids.  [nx] and [ny] are the interior extents, as the kernels get them. *)
Section reference.
Context {T : Type} `{Arith T}.

Definition cell (g : list T) (q : Z) : T := default lit_0 (g !! Z.to_nat q).

(** The five-point formula at the linear index [q] of a grid [width] wide. *)
Definition stencil (dt : T) (g : list T) (width q : Z) : T :=
  fadd (cell g q)
       (fmul dt (fadd (fadd (fadd (fadd (fmul lit_m4 (cell g q))
                                        (cell g (q - width)))
                                  (cell g (q + width)))
                            (cell g (q - 1)))
                      (cell g (q + 1)))).

(** The linear index of the interior coordinate [(i, j)]. *)
Definition linear (nx i j : Z) : Z := (i + 1) + (j + 1) * (nx + 2).

(** [q] is the index of an interior cell: not in padded row [0] or [ny+1],
    nor in padded column [0] or [nx+1]. *)
Definition interior (nx ny q : Z) : bool :=
  let c := q mod (nx + 2) in
  let r := q / (nx + 2) in
  (1 <=? c) && (c <=? nx) && (1 <=? r) && (r <=? ny).

(** [m'] agrees with [m] on every cell that is not an interior cell. *)
Definition same_halo (nx ny : Z) (m m' : list T) : Prop :=
  ∀ q : nat, interior nx ny (Z.of_nat q) = false → m' !! q = m !! q.

(** [g] is a padded grid for the interior extents [nx] and [ny], and its
    indices fit the kernels' integer types. *)
Definition sized (nx ny : Z) (g : list T) : Prop :=
  0 ≤ nx ∧ 0 ≤ ny ∧ (nx + 2) * (ny + 2) ≤ 2 ^ 31
  ∧ Z.of_nat (length g) = (nx + 2) * (ny + 2).

(** The launch geometry covers the domain, and the global coordinates fit
    [unsigned int]. *)
Definition covers (gridDim blockDim : dim3) (nx ny : Z) : Prop :=
  0 < blockDim.(x) ∧ 0 < blockDim.(y)
  ∧ nx ≤ gridDim.(x) * blockDim.(x) ≤ 2 ^ 32
  ∧ ny ≤ gridDim.(y) * blockDim.(y) ≤ 2 ^ 32.

(** The geometry of a launch of the tiled kernel: the domain is covered, the
    tile of a block fits [unsigned int], and [b], [t] are a block of the grid
    and a unit of the block. *)
Definition placed (gd bd b t : dim3) (nx ny : Z) : Prop :=
  covers gd bd nx ny ∧ (bd.(x) + 2) * (bd.(y) + 2) < 2 ^ 32
  ∧ b ∈ indices gd ∧ t ∈ indices bd.

(** The staging buffer of block [b] after its staging phase: a cell that
    some copy has written holds the grid cell it mirrors, every other cell of
    the tile is unwritten. *)
Definition mirrors (x0 : list T) (nx ny : Z) (bd b : dim3)
    (buffer : list (option T)) : Prop :=
  ∀ s, 0 ≤ s →
    buffer !! Z.to_nat s =
      if staged nx ny bd b s
      then Some (Some (cell x0 (tile_source nx bd b s)))
      else if s <? (bd.(x) + 2) * (bd.(y) + 2) then Some None else None.

(** The blocks of the launch tile the domain exactly: no block is partial. *)
Definition fits (gridDim blockDim : dim3) (nx ny : Z) : Prop :=
  gridDim.(x) * blockDim.(x) = nx ∧ gridDim.(y) * blockDim.(y) = ny.

(** One time step: every interior cell of the destination [x1] gets the
    formula evaluated on the source [x0], every other cell stays. *)
Definition step_ref (nx ny : Z) (dt : T) (x0 x1 : list T) : list T :=
  imap (λ k old, if interior nx ny (Z.of_nat k)
                 then stencil dt x0 (nx + 2) (Z.of_nat k) else old) x1.

(** The grid after initialisation (lines 99-107), [nx] by [ny] cells with
    the halo: 1 in the first and the last row, 0 elsewhere. *)
Definition initial_grid (nx ny : Z) : list T :=
  (λ q, if (q <? nx) || (nx * (ny - 1) <=? q) then lit_1 else lit_0)
    <$> seqZ 0 (nx * ny).

(** [n] time steps on the pair of the current and the next buffer. *)
Fixpoint ref_loop (nx ny : Z) (dt : T) (n : nat) (g : list T * list T)
    : list T * list T :=
  match n with
  | O => g
  | S n' => ref_loop nx ny dt n' (step_ref nx ny dt g.1 g.2, g.1)
  end.

End reference.


(** [q] is the index of one of the four corners of the padded grid. *)
Definition corner (nx ny q : Z) : bool :=
  (q =? 0) || (q =? nx + 1) || (q =? (ny + 1) * (nx + 2))
  || (q =? (nx + 2) * (ny + 2) - 1).

(** The padded rows [r] of a binary64 grid with [k < r < ny + 1 - k] hold
    [0.] in every column. *)
Definition zero_rows (nx ny k : Z) (g : list float) : Prop :=
  ∀ r c, k < r < ny + 1 - k → 0 ≤ c < nx + 2 →
    g !! Z.to_nat (c + r * (nx + 2)) = Some 0%float.

(** * Proofs *)

(** [lia] with division and remainder by a constant. *)
#[local] Ltac Zify.zify_post_hook ::= Z.to_euclidean_division_equations.

(** ** Machine integers *)

Lemma u32_small z : 0 ≤ z < 2 ^ 32 → u32 z = z.
Proof. intros. unfold u32. apply Z.mod_small. lia. Qed.

Lemma u64_small z : 0 ≤ z < 2 ^ 64 → u64 z = z.
Proof. intros. unfold u64. apply Z.mod_small. lia. Qed.

Lemma s32_small z : - 2 ^ 31 ≤ z < 2 ^ 31 → s32 z = z.
Proof. intros. unfold s32. rewrite Z.mod_small; lia. Qed.

(** ** The result monad *)

Lemma bind_Ok {A B : Type} (k : A → result B) (a : A) : (Ok a ≫= k) = k a.
Proof. reflexivity. Qed.

Lemma bind_Ok_inv {A B : Type} (k : A → result B) (r : result A) (b : B) :
  (r ≫= k) = Ok b → ∃ a, r = Ok a ∧ k a = Ok b.
Proof. destruct r as [a|f]; simpl; [eauto | discriminate]. Qed.

Lemma foldM_app {I S : Type} (f : I → S → result S) (l1 l2 : list I) (s : S) :
  foldM f (l1 ++ l2) s = (foldM f l1 s ≫= foldM f l2).
Proof.
  revert s. induction l1 as [|t l1 IH]; intros s; simpl; [done|].
  destruct (f t s) as [s'|e]; simpl; [apply IH | done].
Qed.

Lemma foldM_bind {I J S : Type} (f : J → S → result S) (g : I → list J)
    (l : list I) (s : S) :
  foldM f (l ≫= g) s = foldM (λ a, foldM f (g a)) l s.
Proof.
  revert s. induction l as [|a l IH]; intros s; [done|].
  change ((a :: l) ≫= g) with (g a ++ (l ≫= g)).
  rewrite foldM_app. simpl. destruct (foldM f (g a) s); simpl; [apply IH | done].
Qed.

Lemma foldM_ext {I S : Type} (f g : I → S → result S) (l : list I) (s : S) :
  (∀ t s', t ∈ l → f t s' = g t s') → foldM f l s = foldM g l s.
Proof.
  revert s. induction l as [|t l IH]; intros s Hfg; simpl; [done|].
  rewrite Hfg by left. destruct (g t s); simpl; [|done].
  apply IH. intros. apply Hfg. by right.
Qed.

(** ** Memory *)

Lemma load_Ok {A : Type} (m : list A) (p : Z) (v : A) :
  0 ≤ p → m !! Z.to_nat p = Some v → load m p = Ok v.
Proof.
  intros Hp Hv. unfold load. apply lookup_lt_Some in Hv as Hlt.
  rewrite Hv.
  destruct (0 <=? p) eqn:E1; [|lia].
  destruct (p <? Z.of_nat (length m)) eqn:E2; [done|lia].
Qed.

Lemma store_Ok {A : Type} (m : list A) (p : Z) (v : A) :
  0 ≤ p < Z.of_nat (length m) → store m p v = Ok (<[Z.to_nat p := v]> m).
Proof.
  intros Hp. unfold store.
  destruct (0 <=? p) eqn:E1; [|lia].
  destruct (p <? Z.of_nat (length m)) eqn:E2; [done|lia].
Qed.

(** ** Launch geometry *)

Lemma elem_of_indices (d t : dim3) :
  t ∈ indices d ↔ 0 ≤ t.(x) < d.(x) ∧ 0 ≤ t.(y) < d.(y).
Proof.
  unfold indices. rewrite list_elem_of_bind. split.
  - intros (j & Hin & Hj). apply list_elem_of_bind in Hin as (i & Hin & Hi).
    apply list_elem_of_singleton in Hin as ->. simpl.
    apply elem_of_seqZ in Hi, Hj. lia.
  - intros [Hx Hy]. exists t.(y). split; [|apply elem_of_seqZ; lia].
    apply list_elem_of_bind. exists t.(x). split; [|apply elem_of_seqZ; lia].
    destruct t. simpl. apply list_elem_of_singleton. done.
Qed.

Lemma elem_of_units (gd bd b t : dim3) :
  (b, t) ∈ units gd bd ↔ b ∈ indices gd ∧ t ∈ indices bd.
Proof.
  unfold units. rewrite list_elem_of_bind. split.
  - intros (b' & Hin & Hb). apply list_elem_of_bind in Hin as (t' & Hin & Ht).
    apply list_elem_of_singleton in Hin. by simplify_eq.
  - intros [Hb Ht]. exists b. split; [|done].
    apply list_elem_of_bind. exists t. split; [|done].
    by apply list_elem_of_singleton.
Qed.

Lemma launch_units {S : Type} (gd bd : dim3)
    (kernel : dim3 → dim3 → dim3 → S → result S) (s : S) :
  launch gd bd kernel s = foldM (λ u, kernel bd u.1 u.2) (units gd bd) s.
Proof.
  unfold launch, units. rewrite foldM_bind. apply foldM_ext. intros b s' _.
  rewrite foldM_bind. apply foldM_ext. intros t s'' _. simpl.
  by destruct (kernel bd b t s'').
Qed.

(** ** Folds of guarded stores

    A launch whose units each store one value, a function of the address, at
    an address of their own is characterised cell by cell. *)

Section stores.
Context {I : Type}.
Variables (act : I → bool) (pos : I → Z).

Lemma written_cons (t : I) (l : list I) (q : Z) :
  written act pos (t :: l) q = act t && (pos t =? q) || written act pos l q.
Proof. reflexivity. Qed.

Lemma written_true (l : list I) (q : Z) :
  written act pos l q = true ↔ ∃ t, t ∈ l ∧ act t = true ∧ pos t = q.
Proof.
  unfold written. rewrite existsb_exists. split.
  - intros (t & Hin & Ht). apply andb_true_iff in Ht as [Ha Hp].
    exists t. rewrite list_elem_of_In. split_and!; [done..|lia].
  - intros (t & Hin & Ha & Hp). exists t. rewrite <- list_elem_of_In.
    split; [done|]. rewrite Ha. simpl. lia.
Qed.

Lemma written_false (l : list I) (q : Z) :
  written act pos l q = false ↔ ∀ t, t ∈ l → act t = true → pos t ≠ q.
Proof.
  rewrite <- not_true_iff_false, written_true. split.
  - intros Hn t Hin Ha Hp. apply Hn. eauto.
  - intros Hall (t & Hin & Ha & Hp). by eapply Hall.
Qed.

Lemma foldM_stores {A : Type} (F : Z → A)
    (step : I → list A → result (list A)) (n : Z) (l : list I) :
  (∀ t m, t ∈ l → Z.of_nat (length m) = n →
     step t m = if act t then store m (pos t) (F (pos t)) else Ok m) →
  (∀ t, t ∈ l → act t = true → 0 ≤ pos t < n) →
  ∀ m, Z.of_nat (length m) = n →
  ∃ m', foldM step l m = Ok m' ∧ Z.of_nat (length m') = n ∧
    ∀ q, 0 ≤ q →
      m' !! Z.to_nat q = if written act pos l q then Some (F q) else m !! Z.to_nat q.
Proof.
  induction l as [|t l IH]; intros Hstep Hpos m Hlen.
  { exists m. by split_and!. }
  cbn [foldM]. rewrite Hstep; [|apply list_elem_of_here|done].
  assert (Hl : ∀ t' m', t' ∈ l → Z.of_nat (length m') = n →
     step t' m' = if act t' then store m' (pos t') (F (pos t')) else Ok m').
  { intros. apply Hstep; [by apply list_elem_of_further|done]. }
  assert (Hp : ∀ t', t' ∈ l → act t' = true → 0 ≤ pos t' < n).
  { intros. apply Hpos; [by apply list_elem_of_further|done]. }
  destruct (act t) eqn:Ha.
  - specialize (Hpos t (list_elem_of_here _ _) Ha).
    rewrite store_Ok, bind_Ok by lia.
    destruct (IH Hl Hp (<[Z.to_nat (pos t) := F (pos t)]> m)) as (m' & Hm' & Hlen' & Hq).
    { by rewrite length_insert. }
    exists m'. split_and!; [done..|]. intros q Hq0. rewrite (Hq q Hq0).
    rewrite written_cons, Ha, andb_true_l.
    destruct (written act pos l q); [by rewrite orb_true_r|].
    rewrite orb_false_r. destruct (pos t =? q) eqn:E.
    + apply Z.eqb_eq in E as <-. apply list_lookup_insert_eq. lia.
    + apply list_lookup_insert_ne. lia.
  - rewrite bind_Ok. destruct (IH Hl Hp m Hlen) as (m' & Hm' & Hlen' & Hq).
    exists m'. split_and!; [done..|]. intros q Hq0.
    by rewrite (Hq q Hq0), written_cons, Ha.
Qed.
End stores.

(** ** The fill kernel *)

Lemma fill_grid_bounds (n : Z) :
  0 ≤ n →
  let g := n / 192 + (if n mod 192 =? 0 then 0 else 1) in
  n ≤ 192 * g ≤ n + 191.
Proof. intros Hn g. subst g. destruct (Z.eqb_spec (n mod 192) 0); lia. Qed.

Lemma fill_in_range {A : Type} (v : Z) (value : A) (n : Z) (bd b t : dim3) (m : list A) :
  bd.(x) = 192 → 0 ≤ t.(x) < 192 → 0 ≤ b.(x) → t.(x) + 192 * b.(x) ≤ INT_MAX →
  fill v value n bd b t m =
    if t.(x) + 192 * b.(x) <? n then store m (v + (t.(x) + 192 * b.(x))) value else Ok m.
Proof.
  intros Hbd Ht Hb Hmax. unfold fill, INT_MAX in *. rewrite Hbd.
  rewrite (u32_small (192 * _)) by lia.
  rewrite u32_small by lia. rewrite s32_small by lia. done.
Qed.

Lemma fill_gpu_spec {A : Type} (m : list A) (v : Z) (value : A) (n : Z) :
  0 ≤ n ≤ INT_MAX - 190 → 0 ≤ v → v + n ≤ Z.of_nat (length m) →
  ∃ m', fill_gpu m v value n = Ok m' ∧ length m' = length m ∧
    ∀ q, 0 ≤ q →
      m' !! Z.to_nat q =
        if (v <=? q) && (q <? v + n) then Some value else m !! Z.to_nat q.
Proof.
  intros Hn Hv Hlen. unfold fill_gpu, INT_MAX in *.
  pose proof (fill_grid_bounds n ltac:(lia)) as Hg. cbv zeta in Hg.
  rewrite (u64_small n) by lia.
  set (g := n / 192 + (if n mod 192 =? 0 then 0 else 1)) in *.
  rewrite (u64_small g), (u32_small g), (u32_small 192) by lia.
  rewrite launch_units.
  destruct (foldM_stores (λ u, u.2.(x) + 192 * u.1.(x) <? n)
              (λ u, v + (u.2.(x) + 192 * u.1.(x))) (λ _, value)
              (λ u, fill v value n (Dim3 192 1) u.1 u.2)
              (Z.of_nat (length m)) (units (Dim3 g 1) (Dim3 192 1))) with m
    as (m' & Hm' & Hlen' & Hq); [..|done|].
  - intros [b t] m0 Hin _. apply elem_of_units in Hin as [Hb Ht].
    apply elem_of_indices in Hb, Ht. simpl in *.
    apply fill_in_range; unfold INT_MAX; simpl; lia.
  - intros [b t] Hin Hact. apply elem_of_units in Hin as [Hb Ht].
    apply elem_of_indices in Hb, Ht. simpl in *. lia.
  - exists m'. split_and!; [done|lia|]. intros q Hq0. rewrite (Hq q Hq0).
    match goal with |- (if ?w then _ else _) = _ =>
      assert (w = (v <=? q) && (q <? v + n)) as ->; [|done] end.
    clear Hq Hm'. apply eq_true_iff_eq.
    rewrite written_true, andb_true_iff. split.
    + intros ([b t] & Hin & Hact & Hpos). apply elem_of_units in Hin as [Hb Ht].
      apply elem_of_indices in Hb, Ht. simpl in *. lia.
    + intros [H1 H2]. exists (Dim3 ((q - v) / 192) 0, Dim3 ((q - v) mod 192) 0).
      split_and!; simpl; [|lia..].
      apply elem_of_units. rewrite !elem_of_indices. simpl. lia.
Qed.

(** ** Index arithmetic *)

Lemma u32_range z : 0 ≤ u32 z < 2 ^ 32.
Proof. unfold u32. lia. Qed.

Lemma linear_bounds (nx ny i j : Z) :
  0 ≤ i < nx → 0 ≤ j < ny →
  nx + 2 < linear nx i j ∧ linear nx i j + (nx + 2) < (nx + 2) * (ny + 2).
Proof. unfold linear. nia. Qed.

Lemma div_mod_linear (w a c : Z) :
  0 ≤ a < w → (a + c * w) mod w = a ∧ (a + c * w) / w = c.
Proof.
  intros Ha. rewrite Z.mod_add, Z.div_add by lia.
  rewrite Z.mod_small, Z.div_small by lia. lia.
Qed.

Lemma linear_unique (w a c a' c' : Z) :
  0 ≤ a < w → 0 ≤ a' < w → a + c * w = a' + c' * w → a = a' ∧ c = c'.
Proof.
  intros Ha Ha' Heq.
  destruct (div_mod_linear w a c Ha) as [Hm Hd].
  destruct (div_mod_linear w a' c' Ha') as [Hm' Hd'].
  rewrite Heq in Hm, Hd. lia.
Qed.

Lemma interior_linear (nx ny i j : Z) :
  0 ≤ nx → 0 ≤ i < nx → 0 ≤ j < ny → interior nx ny (linear nx i j) = true.
Proof.
  intros Hnx Hi Hj. unfold interior, linear.
  destruct (div_mod_linear (nx + 2) (i + 1) (j + 1)) as [-> ->]; [lia|].
  cbv zeta. repeat (apply andb_true_intro; split); lia.
Qed.

Lemma interior_inv (nx ny q : Z) :
  0 ≤ nx → interior nx ny q = true →
  ∃ i j, 0 ≤ i < nx ∧ 0 ≤ j < ny ∧ q = linear nx i j.
Proof.
  intros Hnx Hq. unfold interior in Hq. cbv zeta in Hq.
  repeat (apply andb_true_iff in Hq as [Hq ?]).
  exists (q mod (nx + 2) - 1), (q / (nx + 2) - 1). unfold linear.
  split_and!; lia.
Qed.

(** A grid of blocks covers the extent [n]: index [i] is unit [i mod d] of
    block [i / d]. *)
Lemma cover (d g n i : Z) :
  0 < d → n ≤ g * d → 0 ≤ i < n →
  0 ≤ i / d < g ∧ 0 ≤ i mod d < d ∧ i mod d + i / d * d = i.
Proof.
  intros Hd Hg Hi. split_and!.
  - apply Z.div_pos; lia.
  - apply Z.div_lt_upper_bound; lia.
  - apply Z.mod_pos_bound; lia.
  - apply Z.mod_pos_bound; lia.
  - pose proof (Z.div_mod i d ltac:(lia)). lia.
Qed.

Lemma global_coordinate (tx bx d g : Z) :
  0 ≤ tx < d → 0 ≤ bx < g → g * d ≤ 2 ^ 32 →
  tx ⊕ bx ⊗ d = tx + bx * d ∧ 0 ≤ tx + bx * d < g * d.
Proof.
  intros Ht Hb Hg. assert (0 ≤ bx * d ∧ tx + bx * d < g * d) by nia.
  rewrite (u32_small (bx * d)) by lia. rewrite u32_small by lia. lia.
Qed.

(** ** The naive kernel *)

Section naive.
Context {T : Type} `{Arith T}.

Lemma load_cell (g : list T) (p : Z) :
  0 ≤ p < Z.of_nat (length g) → load g p = Ok (cell g p).
Proof.
  intros Hp. destruct (lookup_lt_is_Some_2 g (Z.to_nat p)) as [v Hv]; [lia|].
  rewrite (load_Ok g p v) by (lia || done). unfold cell. by rewrite Hv.
Qed.

(** A unit of [diffusion] stores the formula at its own cell, or does
    nothing. *)
Lemma diffusion_shape (x0 : list T) (nx ny : Z) (dt : T) (bd b t : dim3) (m : list T) :
  sized nx ny x0 →
  diffusion x0 nx ny dt bd b t m =
    if (global_i bd b t <? nx) && (global_j bd b t <? ny)
    then store m (linear nx (global_i bd b t) (global_j bd b t))
               (stencil dt x0 (nx + 2)
                  (linear nx (global_i bd b t) (global_j bd b t)))
    else Ok m.
Proof.
  intros (Hnx & Hny & Hsz & Hlen). unfold diffusion.
  assert (nx < 2 ^ 31 ∧ ny < 2 ^ 31) as [? ?] by nia.
  rewrite (u32_small nx), (u32_small ny) by lia.
  pose proof (u32_range (x t + u32 (x b * x bd))) as Hi.
  pose proof (u32_range (y t + u32 (y b * y bd))) as Hj.
  fold (global_i bd b t) in *. fold (global_j bd b t) in *.
  destruct (global_i bd b t <? nx) eqn:Ei; [|done].
  destruct (global_j bd b t <? ny) eqn:Ej; [|done].
  cbn [andb]. cbv zeta.
  pose proof (linear_bounds nx ny (global_i bd b t) (global_j bd b t)
                ltac:(lia) ltac:(lia)) as [Hlo Hhi].
  assert (Hpos : position (global_i bd b t) (global_j bd b t) (nx + 2)
                 = linear nx (global_i bd b t) (global_j bd b t)).
  { unfold position, linear in *.
    assert (0 ≤ (global_j bd b t + 1) * (nx + 2)) by nia.
    rewrite (u32_small (nx + 2)), (u32_small (global_i bd b t + 1)),
      (u32_small (global_j bd b t + 1)) by lia.
    rewrite (u32_small (_ * _)) by lia. rewrite u32_small by lia. done. }
  rewrite Hpos. rewrite (u32_small (nx + 2)) by lia.
  rewrite !u32_small by lia.
  rewrite !load_cell by lia. done.
Qed.

(** The cells that a launch of [diffusion] stores to are the interior
    cells. *)
Lemma written_interior (gd bd : dim3) (nx ny q : Z) :
  0 ≤ nx → covers gd bd nx ny →
  written (λ u, (global_i bd u.1 u.2 <? nx) && (global_j bd u.1 u.2 <? ny))
          (λ u, linear nx (global_i bd u.1 u.2) (global_j bd u.1 u.2))
          (units gd bd) q
  = interior nx ny q.
Proof.
  intros Hnx (Hbx & Hby & Hgx & Hgy). apply eq_true_iff_eq.
  rewrite written_true. split.
  - intros ([b t] & Hin & Hact & Hpos). simpl in *. subst q.
    apply andb_true_iff in Hact as [Hi Hj].
    apply elem_of_units in Hin as [Hb Ht]. apply elem_of_indices in Hb, Ht.
    destruct (global_coordinate t.(x) b.(x) bd.(x) gd.(x)) as [Ei ?]; [lia..|].
    destruct (global_coordinate t.(y) b.(y) bd.(y) gd.(y)) as [Ej ?]; [lia..|].
    unfold global_i, global_j in *. rewrite Ei, Ej in *.
    apply interior_linear; lia.
  - intros Hq. apply interior_inv in Hq as (i & j & Hi & Hj & ->); [|done].
    destruct (cover bd.(x) gd.(x) nx i) as (? & ? & Ei); [lia..|].
    destruct (cover bd.(y) gd.(y) ny j) as (? & ? & Ej); [lia..|].
    exists (Dim3 (i / bd.(x)) (j / bd.(y)), Dim3 (i mod bd.(x)) (j mod bd.(y))).
    destruct (global_coordinate (i mod bd.(x)) (i / bd.(x)) bd.(x) gd.(x))
      as [Gi ?]; [lia..|].
    destruct (global_coordinate (j mod bd.(y)) (j / bd.(y)) bd.(y) gd.(y))
      as [Gj ?]; [lia..|].
    unfold global_i, global_j. simpl. rewrite Gi, Gj, Ei, Ej.
    split_and!; [|apply andb_true_intro; lia|done].
    apply elem_of_units. rewrite !elem_of_indices. simpl. lia.
Qed.

(** A launch of [diffusion] over a covering geometry performs one step of
    the reference update. *)
Lemma diffusion_launch (gd bd : dim3) (x0 x1 : list T) (nx ny : Z) (dt : T) :
  sized nx ny x0 → length x1 = length x0 → covers gd bd nx ny →
  launch gd bd (diffusion x0 nx ny dt) x1 = Ok (step_ref nx ny dt x0 x1).
Proof.
  intros Hs Hlen Hc. pose proof Hs as (Hnx & Hny & Hsz & Hl0).
  rewrite launch_units.
  destruct (foldM_stores
              (λ u, (global_i bd u.1 u.2 <? nx) && (global_j bd u.1 u.2 <? ny))
              (λ u, linear nx (global_i bd u.1 u.2) (global_j bd u.1 u.2))
              (stencil dt x0 (nx + 2))
              (λ u, diffusion x0 nx ny dt bd u.1 u.2)
              (Z.of_nat (length x1)) (units gd bd)) with x1
    as (m' & Hm' & Hlen' & Hq); [..|done|].
  - intros [b t] m _ _. by apply diffusion_shape.
  - intros [b t] _ Hact. simpl in *. apply andb_true_iff in Hact as [Hi Hj].
    pose proof (u32_range (x t + u32 (x b * x bd))) as Ri.
    pose proof (u32_range (y t + u32 (y b * y bd))) as Rj.
    fold (global_i bd b t) in *. fold (global_j bd b t) in *.
    pose proof (linear_bounds nx ny (global_i bd b t) (global_j bd b t)
                  ltac:(lia) ltac:(lia)). lia.
  - rewrite Hm'. f_equal. apply list_eq. intros k.
    specialize (Hq (Z.of_nat k) ltac:(lia)). rewrite Nat2Z.id in Hq.
    rewrite Hq, written_interior by done.
    unfold step_ref. rewrite list_lookup_imap.
    destruct (x1 !! k) as [old|] eqn:Ek; simpl.
    + by destruct (interior nx ny (Z.of_nat k)).
    + destruct (interior nx ny (Z.of_nat k)) eqn:Eint; [|done].
      apply lookup_ge_None in Ek.
      apply interior_inv in Eint as (i & j & Hi & Hj & Hk); [|done].
      pose proof (linear_bounds nx ny i j Hi Hj). lia.
Qed.

End naive.

(** ** The tiled kernel: staging phase *)

Lemma elem_of_copies (bd t : dim3) (k : edge) :
  (t, k) ∈ copies bd ↔ t ∈ indices bd.
Proof.
  unfold copies. rewrite list_elem_of_bind. split.
  - intros (t' & Hin & Ht). apply list_elem_of_bind in Hin as (k' & Hin & Hk).
    apply list_elem_of_singleton in Hin. by simplify_eq.
  - intros Ht. exists t. split; [|done]. apply list_elem_of_bind. exists k.
    split; [by apply list_elem_of_singleton|].
    unfold edges. destruct k; eauto 10 using list_elem_of_here, list_elem_of_further.
Qed.

Lemma tile_source_linear (nx : Z) (bd b : dim3) (a c : Z) :
  0 ≤ a < bd.(x) + 2 →
  tile_source nx bd b (a + c * (bd.(x) + 2))
  = (b.(x) * bd.(x) + a) + (b.(y) * bd.(y) + c) * (nx + 2).
Proof.
  intros Ha. unfold tile_source.
  by destruct (div_mod_linear (bd.(x) + 2) a c Ha) as [-> ->].
Qed.

Section tiled.
Context {T : Type} `{Arith T}.

Lemma placed_coordinates (gd bd b t : dim3) (nx ny : Z) :
  placed gd bd b t nx ny →
  global_i bd b t = t.(x) + b.(x) * bd.(x)
  ∧ global_j bd b t = t.(y) + b.(y) * bd.(y)
  ∧ 0 ≤ t.(x) < bd.(x) ∧ 0 ≤ t.(y) < bd.(y) ∧ 0 ≤ b.(x) ∧ 0 ≤ b.(y).
Proof.
  intros ((Hbx & Hby & Hgx & Hgy) & Htile & Hb & Ht).
  apply elem_of_indices in Hb, Ht.
  destruct (global_coordinate t.(x) b.(x) bd.(x) gd.(x)) as [Ei ?]; [lia..|].
  destruct (global_coordinate t.(y) b.(y) bd.(y) gd.(y)) as [Ej ?]; [lia..|].
  unfold global_i, global_j. lia.
Qed.

Lemma shared_position_eq (bd t : dim3) :
  0 ≤ t.(x) < bd.(x) → 0 ≤ t.(y) < bd.(y) →
  (bd.(x) + 2) * (bd.(y) + 2) < 2 ^ 32 →
  bd.(x) ⊕ 2 = bd.(x) + 2
  ∧ position t.(x) t.(y) (bd.(x) + 2) = shared_position bd t
  ∧ bd.(x) + 2 < shared_position bd t
  ∧ shared_position bd t + (bd.(x) + 2) < (bd.(x) + 2) * (bd.(y) + 2).
Proof.
  intros Hx Hy Htile. unfold position, shared_position.
  assert (bd.(x) + 2 < 2 ^ 32 ∧ bd.(y) + 2 < 2 ^ 32) as [? ?] by nia.
  assert (0 ≤ (t.(y) + 1) * (bd.(x) + 2)
          ∧ (t.(x) + 1) + (t.(y) + 1) * (bd.(x) + 2) + (bd.(x) + 2)
            < (bd.(x) + 2) * (bd.(y) + 2)) as [? ?] by nia.
  rewrite (u32_small (bd.(x) + 2)), (u32_small (t.(x) + 1)),
    (u32_small (t.(y) + 1)) by lia.
  rewrite (u32_small (_ * _)) by lia. rewrite u32_small by lia.
  split_and!; nia.
Qed.

(** A unit of the staging phase performs its five guarded copies, each a
    store of the mirrored grid cell. *)
Lemma stage_shape (x0 : list T) (nx ny : Z) (gd bd b t : dim3)
    (buffer : list (option T)) :
  sized nx ny x0 → placed gd bd b t nx ny →
  diffusion_shared_stage x0 nx ny bd b t buffer =
    foldM (λ k m,
             if copy_active nx ny bd b (t, k)
             then store m (copy_position bd (t, k))
                        (Some (cell x0 (tile_source nx bd b (copy_position bd (t, k)))))
             else Ok m) edges buffer.
Proof.
  intros (Hnx & Hny & Hsz & Hlen) Hp.
  destruct (placed_coordinates _ _ _ _ _ _ Hp) as (Ei & Ej & Hx & Hy & Hbx & Hby).
  destruct Hp as (_ & Htile & _ & _).
  destruct (shared_position_eq bd t Hx Hy Htile) as (Esw & Esp & Hlo & Hhi).
  assert (nx < 2 ^ 31 ∧ ny < 2 ^ 31) as [? ?] by nia.
  unfold diffusion_shared_stage, copy_active, in_domain, edges. cbn [foldM fst snd].
  rewrite (u32_small nx), (u32_small ny) by lia.
  destruct (global_i bd b t <? nx) eqn:Gi; [|reflexivity].
  destruct (global_j bd b t <? ny) eqn:Gj; [|reflexivity].
  cbn [andb]. cbv zeta.
  pose proof (u32_range (x t + u32 (x b * x bd))) as Ri.
  pose proof (u32_range (y t + u32 (y b * y bd))) as Rj.
  fold (global_i bd b t) in Ri. fold (global_j bd b t) in Rj.
  pose proof (linear_bounds nx ny (global_i bd b t) (global_j bd b t)
                ltac:(lia) ltac:(lia)) as [Llo Lhi].
  assert (Hpos : position (global_i bd b t) (global_j bd b t) (nx + 2)
                 = linear nx (global_i bd b t) (global_j bd b t)).
  { unfold position, linear in *.
    assert (0 ≤ (global_j bd b t + 1) * (nx + 2)) by nia.
    rewrite (u32_small (nx + 2)), (u32_small (global_i bd b t + 1)),
      (u32_small (global_j bd b t + 1)) by lia.
    rewrite (u32_small (_ * _)) by lia. rewrite u32_small by lia. done. }
  rewrite Hpos, Esw, Esp. rewrite (u32_small (nx + 2)) by lia.
  rewrite !(u32_small (linear _ _ _ + _)), !(u32_small (linear _ _ _ - _)) by lia.
  rewrite !(u32_small (shared_position _ _ + _)),
    !(u32_small (shared_position _ _ - _)) by lia.
  assert (bd.(x) + 2 < 2 ^ 32 ∧ bd.(y) + 2 < 2 ^ 32) as [? ?] by nia.
  rewrite (u32_small (bd.(x) - 1)), (u32_small (bd.(y) - 1)) by lia.
  rewrite !load_cell by lia.
  unfold copy_position. cbn [fst snd].
  assert (S0 : tile_source nx bd b (shared_position bd t + 0)
               = linear nx (global_i bd b t) (global_j bd b t)).
  { unfold shared_position, linear.
    replace (x t + 1 + (y t + 1) * (x bd + 2) + 0)
      with ((x t + 1) + (y t + 1) * (x bd + 2)) by lia.
    rewrite tile_source_linear by lia. lia. }
  assert (S1 : tile_source nx bd b (shared_position bd t + -1)
               = linear nx (global_i bd b t) (global_j bd b t) - 1).
  { unfold shared_position, linear.
    replace (x t + 1 + (y t + 1) * (x bd + 2) + -1)
      with (x t + (y t + 1) * (x bd + 2)) by lia.
    rewrite tile_source_linear by lia. lia. }
  assert (S2 : tile_source nx bd b (shared_position bd t + 1)
               = linear nx (global_i bd b t) (global_j bd b t) + 1).
  { unfold shared_position, linear.
    replace (x t + 1 + (y t + 1) * (x bd + 2) + 1)
      with ((x t + 2) + (y t + 1) * (x bd + 2)) by lia.
    rewrite tile_source_linear by lia. lia. }
  assert (S3 : tile_source nx bd b (shared_position bd t + - (x bd + 2))
               = linear nx (global_i bd b t) (global_j bd b t) - (nx + 2)).
  { unfold shared_position, linear.
    replace (x t + 1 + (y t + 1) * (x bd + 2) + - (x bd + 2))
      with ((x t + 1) + y t * (x bd + 2)) by lia.
    rewrite tile_source_linear by lia. lia. }
  assert (S4 : tile_source nx bd b (shared_position bd t + (x bd + 2))
               = linear nx (global_i bd b t) (global_j bd b t) + (nx + 2)).
  { unfold shared_position, linear.
    replace (x t + 1 + (y t + 1) * (x bd + 2) + (x bd + 2))
      with ((x t + 1) + (y t + 2) * (x bd + 2)) by lia.
    rewrite tile_source_linear by lia. lia. }
  rewrite S0, S1, S2, S3, S4, bind_Ok.
  rewrite Z.add_0_r.
  replace (shared_position bd t + -1) with (shared_position bd t - 1) by lia.
  replace (shared_position bd t + - (x bd + 2))
    with (shared_position bd t - (x bd + 2)) by lia.
  destruct (x t =? 0); destruct (x t =? x bd - 1);
    destruct (y t =? 0); destruct (y t =? y bd - 1);
    repeat (cbn [mbind result_bind];
            match goal with
            | |- context [store ?m ?p ?v] => destruct (store m p v)
            end);
    reflexivity.
Qed.

Lemma foldM_pairs {I J S : Type} (f : I * J → S → result S)
    (l1 : list I) (l2 : list J) (s : S) :
  foldM f (a ← l1; b ← l2; [(a, b)]) s
  = foldM (λ a, foldM (λ b, f (a, b)) l2) l1 s.
Proof.
  rewrite foldM_bind. apply foldM_ext. intros a s' _.
  rewrite foldM_bind. apply foldM_ext. intros b s'' _. simpl.
  by destruct (f (a, b) s'').
Qed.

Lemma in_domain_eq (gd bd b t : dim3) (nx ny : Z) :
  0 ≤ nx < 2 ^ 31 → 0 ≤ ny < 2 ^ 31 → placed gd bd b t nx ny →
  in_domain bd b t nx ny
  = (t.(x) + b.(x) * bd.(x) <? nx) && (t.(y) + b.(y) * bd.(y) <? ny).
Proof.
  intros Hnx Hny Hp.
  destruct (placed_coordinates _ _ _ _ _ _ Hp) as (Ei & Ej & _).
  unfold in_domain. rewrite Ei, Ej, (u32_small nx), (u32_small ny) by lia. done.
Qed.

(** The staging phase of a block succeeds, and leaves in each cell that some
    copy has written the grid cell it mirrors; every other cell of the buffer
    is still unwritten. *)
Lemma stage_block_spec (x0 : list T) (nx ny ssize : Z) (gd bd b : dim3) :
  sized nx ny x0 → covers gd bd nx ny → (bd.(x) + 2) * (bd.(y) + 2) < 2 ^ 32 →
  b ∈ indices gd → ssize / 8 = (bd.(x) + 2) * (bd.(y) + 2) →
  ∃ buffer, stage_block x0 nx ny ssize bd b = Ok buffer
            ∧ mirrors x0 nx ny bd b buffer.
Proof.
  intros Hs Hc Htile Hb Hsize. unfold stage_block. rewrite Hsize.
  set (n := (bd.(x) + 2) * (bd.(y) + 2)) in *.
  set (step := λ (c : dim3 * edge) (m : list (option T)),
         if copy_active nx ny bd b c
         then store m (copy_position bd c)
                    (Some (cell x0 (tile_source nx bd b (copy_position bd c))))
         else Ok m).
  rewrite (foldM_ext _ (λ t, foldM (λ k, step (t, k)) edges)).
  2:{ intros t s' Ht. by apply (stage_shape x0 nx ny gd). }
  rewrite <- (foldM_pairs step). fold (copies bd).
  destruct (foldM_stores (copy_active nx ny bd b) (copy_position bd)
              (λ s, Some (cell x0 (tile_source nx bd b s))) step n (copies bd))
    with (replicate (Z.to_nat n) (@None T)) as (buffer & Hbuf & Hlen & Hq).
  - done.
  - intros [t k] Hin Hact. apply elem_of_copies in Hin.
    apply elem_of_indices in Hin as [Hx Hy].
    destruct (shared_position_eq bd t Hx Hy Htile) as (_ & _ & Hlo & Hhi).
    unfold copy_position. cbn [fst snd]. fold n in Hhi. destruct k; lia.
  - rewrite length_replicate. destruct Hc as (? & ? & _). subst n. nia.
  - exists buffer. split; [done|]. intros s Hs0. rewrite (Hq s Hs0).
    unfold staged. destruct (written _ _ _ s); [done|]. fold n.
    destruct (s <? n) eqn:E.
    + apply lookup_replicate_2. lia.
    + apply lookup_replicate_None. lia.
Qed.

(** The grid cells that the five cells around the cell of unit [t] mirror. *)
Lemma tile_source_at (nx ny : Z) (gd bd b t : dim3) :
  placed gd bd b t nx ny →
  let p := linear nx (global_i bd b t) (global_j bd b t) in
  let s := shared_position bd t in
  tile_source nx bd b s = p
  ∧ tile_source nx bd b (s - 1) = p - 1
  ∧ tile_source nx bd b (s + 1) = p + 1
  ∧ tile_source nx bd b (s - (bd.(x) + 2)) = p - (nx + 2)
  ∧ tile_source nx bd b (s + (bd.(x) + 2)) = p + (nx + 2).
Proof.
  intros Hp.
  destruct (placed_coordinates _ _ _ _ _ _ Hp) as (Ei & Ej & Hx & Hy & Hbx & Hby).
  cbv zeta. rewrite Ei, Ej. unfold shared_position, linear. split_and!.
  - rewrite tile_source_linear by lia. lia.
  - replace (x t + 1 + (y t + 1) * (x bd + 2) - 1)
      with (x t + (y t + 1) * (x bd + 2)) by lia.
    rewrite tile_source_linear by lia. lia.
  - replace (x t + 1 + (y t + 1) * (x bd + 2) + 1)
      with ((x t + 2) + (y t + 1) * (x bd + 2)) by lia.
    rewrite tile_source_linear by lia. lia.
  - replace (x t + 1 + (y t + 1) * (x bd + 2) - (x bd + 2))
      with ((x t + 1) + y t * (x bd + 2)) by lia.
    rewrite tile_source_linear by lia. lia.
  - replace (x t + 1 + (y t + 1) * (x bd + 2) + (x bd + 2))
      with ((x t + 1) + (y t + 2) * (x bd + 2)) by lia.
    rewrite tile_source_linear by lia. lia.
Qed.

(** *** Which cells the staging phase writes *)

Lemma written_by (nx ny : Z) (bd b : dim3) (c : dim3 * edge) (s : Z) :
  c.1 ∈ indices bd → copy_active nx ny bd b c = true → copy_position bd c = s →
  staged nx ny bd b s = true.
Proof.
  intros Hin Hact Hpos. apply written_true. exists c. destruct c as [t k].
  split_and!; [|done..]. by apply elem_of_copies.
Qed.

(** In a block, the units to the north and west of a unit of the domain are
    in the domain. *)
Lemma in_domain_before (gd bd b t t' : dim3) (nx ny : Z) :
  0 ≤ nx < 2 ^ 31 → 0 ≤ ny < 2 ^ 31 → placed gd bd b t nx ny →
  in_domain bd b t nx ny = true →
  0 ≤ t'.(x) ≤ t.(x) → 0 ≤ t'.(y) ≤ t.(y) →
  placed gd bd b t' nx ny ∧ in_domain bd b t' nx ny = true.
Proof.
  intros Hnx Hny Hp Hd Hx Hy.
  assert (Hp' : placed gd bd b t' nx ny).
  { destruct Hp as (Hc & Htile & Hb & Ht). split_and!; [done..|].
    apply elem_of_indices in Ht. apply elem_of_indices. lia. }
  split; [done|].
  rewrite (in_domain_eq gd) in Hd |- * by done.
  apply andb_true_iff in Hd as [Hi Hj]. apply andb_true_intro. lia.
Qed.

Section written_cells.
Variables (gd bd b t : dim3) (nx ny : Z).
Hypothesis Hnx : 0 ≤ nx < 2 ^ 31.
Hypothesis Hny : 0 ≤ ny < 2 ^ 31.
Hypothesis Hp : placed gd bd b t nx ny.
Hypothesis Hd : in_domain bd b t nx ny = true.

Lemma staged_own : staged nx ny bd b (shared_position bd t) = true.
Proof using Hnx Hny Hp Hd.
  apply (written_by nx ny bd b (t, Own)); [apply Hp| |].
  - unfold copy_active. cbn [fst snd]. by rewrite Hd.
  - unfold copy_position. cbn [fst snd]. lia.
Qed.

Lemma staged_west : staged nx ny bd b (shared_position bd t - 1) = true.
Proof using Hnx Hny Hp Hd.
  destruct (placed_coordinates _ _ _ _ _ _ Hp) as (_ & _ & Hx & Hy & _).
  destruct (Z.eqb_spec t.(x) 0) as [E|E].
  - apply (written_by nx ny bd b (t, West)); [apply Hp| |].
    + unfold copy_active. cbn [fst snd]. rewrite Hd. simpl. lia.
    + unfold copy_position. cbn [fst snd]. lia.
  - destruct (in_domain_before gd bd b t (Dim3 (t.(x) - 1) t.(y)) nx ny)
      as [Hp' Hd']; [done..|simpl; lia|simpl; lia|].
    apply (written_by nx ny bd b (Dim3 (t.(x) - 1) t.(y), Own)); [apply Hp'| |].
    + unfold copy_active. cbn [fst snd]. by rewrite Hd'.
    + unfold copy_position, shared_position. simpl. lia.
Qed.

Lemma staged_north :
  staged nx ny bd b (shared_position bd t - (bd.(x) + 2)) = true.
Proof using Hnx Hny Hp Hd.
  destruct (placed_coordinates _ _ _ _ _ _ Hp) as (_ & _ & Hx & Hy & _).
  destruct (Z.eqb_spec t.(y) 0) as [E|E].
  - apply (written_by nx ny bd b (t, North)); [apply Hp| |].
    + unfold copy_active. cbn [fst snd]. rewrite Hd. simpl. lia.
    + unfold copy_position. cbn [fst snd]. lia.
  - destruct (in_domain_before gd bd b t (Dim3 t.(x) (t.(y) - 1)) nx ny)
      as [Hp' Hd']; [done..|simpl; lia|simpl; lia|].
    apply (written_by nx ny bd b (Dim3 t.(x) (t.(y) - 1), Own)); [apply Hp'| |].
    + unfold copy_active. cbn [fst snd]. by rewrite Hd'.
    + unfold copy_position, shared_position. simpl. lia.
Qed.

Lemma staged_east :
  t.(x) = bd.(x) - 1 ∨ in_domain bd b (Dim3 (t.(x) + 1) t.(y)) nx ny = true →
  staged nx ny bd b (shared_position bd t + 1) = true.
Proof using Hnx Hny Hp Hd.
  destruct (placed_coordinates _ _ _ _ _ _ Hp) as (_ & _ & Hx & Hy & _).
  destruct (Z.eqb_spec t.(x) (bd.(x) - 1)) as [E|E]; intros Hnext.
  - apply (written_by nx ny bd b (t, East)); [apply Hp| |].
    + unfold copy_active. cbn [fst snd]. rewrite Hd. simpl. lia.
    + unfold copy_position. cbn [fst snd]. lia.
  - destruct Hnext as [?|Hd']; [done|].
    apply (written_by nx ny bd b (Dim3 (t.(x) + 1) t.(y), Own)).
    + apply elem_of_indices. simpl. lia.
    + unfold copy_active. cbn [fst snd]. by rewrite Hd'.
    + unfold copy_position, shared_position. simpl. lia.
Qed.

Lemma staged_south :
  t.(y) = bd.(y) - 1 ∨ in_domain bd b (Dim3 t.(x) (t.(y) + 1)) nx ny = true →
  staged nx ny bd b (shared_position bd t + (bd.(x) + 2)) = true.
Proof using Hnx Hny Hp Hd.
  destruct (placed_coordinates _ _ _ _ _ _ Hp) as (_ & _ & Hx & Hy & _).
  destruct (Z.eqb_spec t.(y) (bd.(y) - 1)) as [E|E]; intros Hnext.
  - apply (written_by nx ny bd b (t, South)); [apply Hp| |].
    + unfold copy_active. cbn [fst snd]. rewrite Hd. simpl. lia.
    + unfold copy_position. cbn [fst snd]. lia.
  - destruct Hnext as [?|Hd']; [done|].
    apply (written_by nx ny bd b (Dim3 t.(x) (t.(y) + 1), Own)).
    + apply elem_of_indices. simpl. lia.
    + unfold copy_active. cbn [fst snd]. by rewrite Hd'.
    + unfold copy_position, shared_position. simpl. lia.
Qed.

(** No unit stages the cell south of a unit that is neither on the south
    edge of its block nor has a southern neighbour in the domain. *)
Lemma unstaged_south :
  t.(y) ≠ bd.(y) - 1 → in_domain bd b (Dim3 t.(x) (t.(y) + 1)) nx ny = false →
  staged nx ny bd b (shared_position bd t + (bd.(x) + 2)) = false.
Proof using Hnx Hny Hp Hd.
  intros Hedge Hnext.
  destruct (placed_coordinates _ _ _ _ _ _ Hp) as (_ & _ & Hx & Hy & _).
  apply written_false. intros [t' k] Hin Hact Hpos.
  apply elem_of_copies, elem_of_indices in Hin as [Hx' Hy'].
  unfold copy_active in Hact. cbn [fst snd] in Hact.
  apply andb_true_iff in Hact as [Hd' Hk].
  unfold copy_position, shared_position in Hpos. cbn [fst snd] in Hpos.
  set (w := bd.(x) + 2) in *.
  destruct k.
  - destruct (linear_unique w (x t' + 1) (y t' + 1) (x t + 1) (y t + 2));
      [lia..|].
    destruct t' as [tx' ty']. simpl in *.
    replace tx' with (x t) in Hd' by lia.
    replace ty' with (y t + 1) in Hd' by lia. congruence.
  - destruct (linear_unique w (x t') (y t' + 1) (x t + 1) (y t + 2)); lia.
  - destruct (linear_unique w (x t' + 2) (y t' + 1) (x t + 1) (y t + 2)); lia.
  - destruct (linear_unique w (x t' + 1) (y t') (x t + 1) (y t + 2)); lia.
  - destruct (linear_unique w (x t' + 1) (y t' + 2) (x t + 1) (y t + 2)); lia.
Qed.

End written_cells.

(** ** The tiled kernel: compute phase *)

Lemma position_linear (nx ny i j : Z) :
  0 ≤ nx → (nx + 2) * (ny + 2) ≤ 2 ^ 31 → 0 ≤ i < nx → 0 ≤ j < ny →
  position i j (nx + 2) = linear nx i j.
Proof.
  intros Hnx Hsz Hi Hj. unfold position, linear.
  assert (0 ≤ (j + 1) * (nx + 2) ∧ i + 1 + (j + 1) * (nx + 2) < 2 ^ 32
          ∧ nx + 2 < 2 ^ 32 ∧ j + 1 < 2 ^ 32) as (? & ? & ? & ?) by nia.
  rewrite (u32_small (nx + 2)), (u32_small (i + 1)), (u32_small (j + 1)) by lia.
  rewrite (u32_small (_ * _)) by lia. by rewrite u32_small by lia.
Qed.

Lemma shared_load_written (x0 : list T) (nx ny : Z) (bd b : dim3)
    (buffer : list (option T)) (s : Z) :
  mirrors x0 nx ny bd b buffer → 0 ≤ s → staged nx ny bd b s = true →
  shared_load buffer s = Ok (cell x0 (tile_source nx bd b s)).
Proof.
  intros Hm Hs Hw. specialize (Hm s Hs). rewrite Hw in Hm.
  unfold shared_load. by rewrite (load_Ok _ _ _ Hs Hm).
Qed.

Lemma shared_load_unwritten (x0 : list T) (nx ny : Z) (bd b : dim3)
    (buffer : list (option T)) (s : Z) :
  mirrors x0 nx ny bd b buffer → 0 ≤ s < (bd.(x) + 2) * (bd.(y) + 2) →
  staged nx ny bd b s = false →
  shared_load buffer s = Fault UninitializedRead.
Proof.
  intros Hm Hs Hw. specialize (Hm s ltac:(lia)). rewrite Hw in Hm.
  destruct (s <? _) eqn:E in Hm; [|lia].
  unfold shared_load. by rewrite (load_Ok _ _ None) by (lia || done).
Qed.

(** A unit whose five operands are staged computes what the naive kernel
    computes. *)
Lemma compute_staged (x0 : list T) (nx ny : Z) (dt : T) (gd bd b t : dim3)
    (buffer : list (option T)) (m : list T) :
  sized nx ny x0 → placed gd bd b t nx ny → mirrors x0 nx ny bd b buffer →
  (in_domain bd b t nx ny = true →
     (t.(x) = bd.(x) - 1 ∨ in_domain bd b (Dim3 (t.(x) + 1) t.(y)) nx ny = true)
     ∧ (t.(y) = bd.(y) - 1 ∨ in_domain bd b (Dim3 t.(x) (t.(y) + 1)) nx ny = true)) →
  diffusion_shared_compute buffer nx ny dt bd b t m
  = diffusion x0 nx ny dt bd b t m.
Proof.
  intros Hs Hp Hm Hnext. rewrite diffusion_shape by done.
  destruct Hs as (Hnx & Hny & Hsz & Hlen).
  assert (nx < 2 ^ 31 ∧ ny < 2 ^ 31) as [? ?] by nia.
  unfold diffusion_shared_compute.
  change ((global_i bd b t <? u32 nx) && (global_j bd b t <? u32 ny))
    with (in_domain bd b t nx ny).
  assert (Hdom : in_domain bd b t nx ny
                 = (global_i bd b t <? nx) && (global_j bd b t <? ny)).
  { unfold in_domain. by rewrite (u32_small nx), (u32_small ny) by lia. }
  rewrite <- Hdom. destruct (in_domain bd b t nx ny) eqn:Hd; [|done].
  destruct (Hnext eq_refl) as [He Hso]. cbv zeta.
  symmetry in Hdom. apply andb_true_iff in Hdom as [Hi Hj].
  pose proof (u32_range (x t + u32 (x b * x bd))) as Ri.
  pose proof (u32_range (y t + u32 (y b * y bd))) as Rj.
  fold (global_i bd b t) in Ri. fold (global_j bd b t) in Rj.
  rewrite (position_linear nx ny) by lia.
  destruct (placed_coordinates _ _ _ _ _ _ Hp) as (_ & _ & Hx & Hy & _).
  pose proof Hp as (_ & Htile & _ & _).
  destruct (shared_position_eq bd t Hx Hy Htile) as (Esw & Esp & Hlo & Hhi).
  rewrite Esw, Esp. rewrite !u32_small by lia.
  destruct (tile_source_at nx ny gd bd b t Hp) as (S0 & S1 & S2 & S3 & S4).
  rewrite (shared_load_written x0 nx ny bd b buffer (shared_position bd t) Hm);
    [|lia|by apply (staged_own gd)].
  rewrite bind_Ok.
  rewrite (shared_load_written x0 nx ny bd b buffer
             (shared_position bd t - (bd.(x) + 2)) Hm);
    [|lia|apply (staged_north gd); (done || lia)].
  rewrite bind_Ok.
  rewrite (shared_load_written x0 nx ny bd b buffer
             (shared_position bd t + (bd.(x) + 2)) Hm);
    [|lia|apply (staged_south gd); (done || lia)].
  rewrite bind_Ok.
  rewrite (shared_load_written x0 nx ny bd b buffer (shared_position bd t - 1) Hm);
    [|lia|apply (staged_west gd); (done || lia)].
  rewrite bind_Ok.
  rewrite (shared_load_written x0 nx ny bd b buffer (shared_position bd t + 1) Hm);
    [|lia|apply (staged_east gd); (done || lia)].
  rewrite bind_Ok.
  rewrite S0, S1, S2, S3, S4. reflexivity.
Qed.

(** A unit of the domain that is not on the south edge of its block and has
    no southern neighbour in the domain reads a cell that no unit has
    written. *)
Lemma compute_unstaged (x0 : list T) (nx ny : Z) (dt : T) (gd bd b t : dim3)
    (buffer : list (option T)) (m : list T) :
  sized nx ny x0 → placed gd bd b t nx ny → mirrors x0 nx ny bd b buffer →
  in_domain bd b t nx ny = true →
  t.(y) ≠ bd.(y) - 1 → in_domain bd b (Dim3 t.(x) (t.(y) + 1)) nx ny = false →
  diffusion_shared_compute buffer nx ny dt bd b t m = Fault UninitializedRead.
Proof.
  intros (Hnx & Hny & Hsz & Hlen) Hp Hm Hd Hedge Hnext.
  assert (nx < 2 ^ 31 ∧ ny < 2 ^ 31) as [? ?] by nia.
  unfold diffusion_shared_compute.
  change ((global_i bd b t <? u32 nx) && (global_j bd b t <? u32 ny))
    with (in_domain bd b t nx ny).
  rewrite Hd. cbv zeta.
  destruct (placed_coordinates _ _ _ _ _ _ Hp) as (_ & _ & Hx & Hy & _).
  pose proof Hp as (_ & Htile & _ & _).
  destruct (shared_position_eq bd t Hx Hy Htile) as (Esw & Esp & Hlo & Hhi).
  rewrite Esw, Esp. rewrite !u32_small by lia.
  rewrite (shared_load_written x0 nx ny bd b buffer (shared_position bd t) Hm);
    [|lia|by apply (staged_own gd)].
  rewrite bind_Ok.
  rewrite (shared_load_written x0 nx ny bd b buffer
             (shared_position bd t - (bd.(x) + 2)) Hm);
    [|lia|apply (staged_north gd); (done || lia)].
  rewrite bind_Ok.
  rewrite (shared_load_unwritten x0 nx ny bd b buffer
             (shared_position bd t + (bd.(x) + 2)) Hm);
    [|lia|apply (unstaged_south gd); (done || lia)].
  reflexivity.
Qed.

(** ** The tiled kernel: blocks and launches *)

Lemma fits_in_domain (gd bd b t : dim3) (nx ny : Z) :
  0 ≤ nx < 2 ^ 31 → 0 ≤ ny < 2 ^ 31 →
  placed gd bd b t nx ny → fits gd bd nx ny → in_domain bd b t nx ny = true.
Proof.
  intros Hnx Hny Hp [Fx Fy]. rewrite (in_domain_eq gd) by done.
  destruct Hp as (_ & _ & Hb & Ht). apply elem_of_indices in Hb, Ht.
  apply andb_true_intro. split; apply Z.ltb_lt; nia.
Qed.

(** A block without partial rows or columns does what the same block of the
    naive kernel does. *)
Lemma block_full (x0 x1 : list T) (nx ny : Z) (dt : T) (ssize : Z) (gd bd b : dim3) :
  sized nx ny x0 → covers gd bd nx ny → fits gd bd nx ny →
  (bd.(x) + 2) * (bd.(y) + 2) < 2 ^ 32 → ssize / 8 = (bd.(x) + 2) * (bd.(y) + 2) →
  b ∈ indices gd →
  diffusion_shared x0 nx ny dt ssize bd b x1
  = foldM (diffusion x0 nx ny dt bd b) (indices bd) x1.
Proof.
  intros Hs Hc Hf Htile Hsize Hb. pose proof Hs as (Hnx & Hny & Hsz & Hlen).
  assert (nx < 2 ^ 31 ∧ ny < 2 ^ 31) as [? ?] by nia.
  unfold diffusion_shared.
  destruct (stage_block_spec x0 nx ny ssize gd bd b) as (buffer & -> & Hm);
    [done..|].
  rewrite bind_Ok.
  assert (Hall : ∀ t, t ∈ indices bd → in_domain bd b t nx ny = true).
  { intros t Ht. apply (fits_in_domain gd); [lia|lia| |done]. by split_and!. }
  assert (barrier_uniform nx ny bd b = true) as ->.
  { unfold barrier_uniform. apply orb_true_intro. left.
    apply forallb_forall. intros t Ht. apply list_elem_of_In in Ht.
    by apply Hall. }
  apply foldM_ext. intros t m Ht.
  apply (compute_staged x0 nx ny dt gd); [done|by split_and!|done|].
  intros _. apply elem_of_indices in Ht as [Hx Hy]. split.
  - destruct (Z.eq_dec t.(x) (bd.(x) - 1)); [by left|right].
    apply Hall, elem_of_indices. simpl. lia.
  - destruct (Z.eq_dec t.(y) (bd.(y) - 1)); [by left|right].
    apply Hall, elem_of_indices. simpl. lia.
Qed.

(** On a domain that the blocks tile exactly, a launch of the tiled kernel
    is a launch of the naive kernel. *)
Lemma launch_shared_full (gd bd : dim3) (ssize : Z) (x0 x1 : list T)
    (nx ny : Z) (dt : T) :
  sized nx ny x0 → covers gd bd nx ny → fits gd bd nx ny →
  (bd.(x) + 2) * (bd.(y) + 2) < 2 ^ 32 → ssize / 8 = (bd.(x) + 2) * (bd.(y) + 2) →
  launch_shared gd bd ssize x0 nx ny dt x1
  = launch gd bd (diffusion x0 nx ny dt) x1.
Proof.
  intros Hs Hc Hf Htile Hsize. unfold launch_shared, launch.
  apply foldM_ext. intros b m Hb. by apply (block_full x0 m nx ny dt ssize gd).
Qed.

(** A block of which one unit is in the domain and another is not: the
    staging phase succeeds, the barrier is undefined. *)
Lemma block_diverges (x0 x1 : list T) (nx ny : Z) (dt : T) (ssize : Z)
    (gd bd b t t' : dim3) :
  sized nx ny x0 → covers gd bd nx ny →
  (bd.(x) + 2) * (bd.(y) + 2) < 2 ^ 32 → ssize / 8 = (bd.(x) + 2) * (bd.(y) + 2) →
  b ∈ indices gd → t ∈ indices bd → t' ∈ indices bd →
  in_domain bd b t nx ny = true → in_domain bd b t' nx ny = false →
  diffusion_shared x0 nx ny dt ssize bd b x1 = Fault BarrierDivergence.
Proof.
  intros Hs Hc Htile Hsize Hb Ht Ht' Hd Hd'. unfold diffusion_shared.
  destruct (stage_block_spec x0 nx ny ssize gd bd b) as (buffer & -> & Hm);
    [done..|].
  rewrite bind_Ok.
  assert (barrier_uniform nx ny bd b = false) as ->; [|done].
  unfold barrier_uniform. apply orb_false_intro.
  - apply not_true_iff_false. intros Hall.
    rewrite forallb_forall in Hall. specialize (Hall t').
    unfold reaches_barrier in Hall. rewrite Hd' in Hall.
    apply list_elem_of_In in Ht'. by specialize (Hall Ht').
  - apply not_true_iff_false. intros Hall.
    rewrite forallb_forall in Hall. specialize (Hall t).
    unfold reaches_barrier in Hall. rewrite Hd in Hall.
    apply list_elem_of_In in Ht. by specialize (Hall Ht).
Qed.

Lemma indices_head (d : dim3) :
  0 < d.(x) → 0 < d.(y) → ∃ rest, indices d = Dim3 0 0 :: rest.
Proof.
  intros Hx Hy. unfold indices.
  rewrite (seqZ_cons 0 d.(y)), (seqZ_cons 0 d.(x)) by lia. csimpl. eauto.
Qed.

(** A launch whose first block is partial in [y] is undefined. *)
Lemma launch_shared_diverges (gd bd : dim3) (ssize : Z) (x0 x1 : list T)
    (nx ny : Z) (dt : T) :
  sized nx ny x0 → covers gd bd nx ny →
  (bd.(x) + 2) * (bd.(y) + 2) < 2 ^ 32 → ssize / 8 = (bd.(x) + 2) * (bd.(y) + 2) →
  0 < nx → 0 < ny < bd.(y) →
  launch_shared gd bd ssize x0 nx ny dt x1 = Fault BarrierDivergence.
Proof.
  intros Hs Hc Htile Hsize Hnx Hny. pose proof Hs as (_ & _ & Hsz & _).
  assert (nx < 2 ^ 31 ∧ ny < 2 ^ 31) as [? ?] by nia.
  pose proof Hc as (Hbx & Hby & Hgx & Hgy).
  destruct (indices_head gd) as [rest Hrest]; [nia..|].
  assert (Hb : Dim3 0 0 ∈ indices gd) by (rewrite Hrest; left).
  unfold launch_shared. rewrite Hrest. cbn [foldM].
  rewrite (block_diverges x0 x1 nx ny dt ssize gd bd (Dim3 0 0)
             (Dim3 0 0) (Dim3 0 (bd.(y) - 1))); try done.
  - apply elem_of_indices. simpl. lia.
  - apply elem_of_indices. simpl. lia.
  - rewrite (in_domain_eq gd); simpl; [|lia|lia|].
    + apply andb_true_intro. lia.
    + split_and!; [done..|]. apply elem_of_indices. simpl. lia.
  - rewrite (in_domain_eq gd); simpl; [|lia|lia|].
    + apply andb_false_iff. right. lia.
    + split_and!; [done..|]. apply elem_of_indices. simpl. lia.
Qed.

End tiled.

(** ** The driver: initialisation *)

Section driver.
Context {T : Type} `{Arith T}.

Lemma lookup_initial_grid (nx ny : Z) (k : nat) :
  Z.of_nat k < nx * ny →
  initial_grid nx ny !! k
  = Some (if (Z.of_nat k <? nx) || (nx * (ny - 1) <=? Z.of_nat k)
          then lit_1 else lit_0).
Proof.
  intros Hk. unfold initial_grid.
  by rewrite list_lookup_fmap, lookup_seqZ_lt.
Qed.

Lemma length_initial_grid (nx ny : Z) :
  0 ≤ nx * ny → Z.of_nat (length (initial_grid nx ny)) = nx * ny.
Proof. intros. unfold initial_grid. rewrite length_fmap, length_seqZ. lia. Qed.

(** The three fills of one buffer. *)
Lemma fill_initial (nx ny : Z) (a : list T) :
  0 < nx → 0 < ny → nx * ny ≤ INT_MAX - 190 → Z.of_nat (length a) = nx * ny →
  ∃ m1 m2,
    fill_gpu a 0 lit_0 (nx * ny) = Ok m1
    ∧ fill_gpu m1 0 lit_1 nx = Ok m2
    ∧ fill_gpu m2 (nx * (ny - 1)) lit_1 nx = Ok (initial_grid nx ny).
Proof.
  intros Hnx Hny Hmax Hlen. unfold INT_MAX in *.
  assert (nx ≤ nx * ny ∧ 0 ≤ nx * (ny - 1) ∧ nx * (ny - 1) + nx = nx * ny)
    as (? & ? & ?) by nia.
  destruct (fill_gpu_spec a 0 lit_0 (nx * ny)) as (m1 & E1 & L1 & Q1);
    [unfold INT_MAX; lia..|].
  destruct (fill_gpu_spec m1 0 lit_1 nx) as (m2 & E2 & L2 & Q2);
    [unfold INT_MAX; lia..|].
  destruct (fill_gpu_spec m2 (nx * (ny - 1)) lit_1 nx) as (m3 & E3 & L3 & Q3);
    [unfold INT_MAX; lia..|].
  exists m1, m2. split_and!; [done..|]. rewrite E3. f_equal.
  apply list_eq. intros k.
  specialize (Q1 (Z.of_nat k) ltac:(lia)). specialize (Q2 (Z.of_nat k) ltac:(lia)).
  specialize (Q3 (Z.of_nat k) ltac:(lia)). rewrite Nat2Z.id in Q1, Q2, Q3.
  rewrite Q3, Q2, Q1.
  destruct (decide (Z.of_nat k < nx * ny)) as [Hk|Hk].
  - rewrite lookup_initial_grid by done.
    destruct (Z.ltb_spec (Z.of_nat k) nx), (Z.leb_spec (nx * (ny - 1)) (Z.of_nat k)),
      (Z.leb_spec 0 (Z.of_nat k)), (Z.ltb_spec (Z.of_nat k) (nx * (ny - 1) + nx)),
      (Z.ltb_spec (Z.of_nat k) (0 + nx)), (Z.ltb_spec (Z.of_nat k) (0 + nx * ny));
      simpl; (done || lia).
  - rewrite (lookup_ge_None_2 (initial_grid nx ny))
      by (pose proof (length_initial_grid nx ny); lia).
    rewrite (lookup_ge_None_2 a) by lia.
    destruct (Z.leb_spec (nx * (ny - 1)) (Z.of_nat k)),
      (Z.leb_spec 0 (Z.of_nat k)), (Z.ltb_spec (Z.of_nat k) (nx * (ny - 1) + nx)),
      (Z.ltb_spec (Z.of_nat k) (0 + nx)), (Z.ltb_spec (Z.of_nat k) (0 + nx * ny));
      simpl; (done || lia).
Qed.

Lemma initialize_spec (nx ny : Z) (a0 a1 : list T) :
  0 < nx → 0 < ny → nx * ny ≤ INT_MAX - 190 →
  Z.of_nat (length a0) = nx * ny → Z.of_nat (length a1) = nx * ny →
  initialize nx ny a0 a1 = Ok (initial_grid nx ny, initial_grid nx ny).
Proof.
  intros Hnx Hny Hmax H0 H1.
  destruct (fill_initial nx ny a0) as (m01 & m02 & E01 & E02 & E03); [done..|].
  destruct (fill_initial nx ny a1) as (m11 & m12 & E11 & E12 & E13); [done..|].
  unfold initialize, INT_MAX in *.
  assert (nx ≤ nx * ny ∧ 0 ≤ nx * (ny - 1) ≤ nx * ny) as (? & ?) by nia.
  rewrite (u64_small (nx * ny)), (u64_small (ny - 1)) by lia.
  rewrite (u64_small (nx * (ny - 1))) by lia.
  rewrite !s32_small by lia.
  rewrite E01, bind_Ok, E11, bind_Ok, E02, bind_Ok, E12, bind_Ok.
  rewrite E03, bind_Ok, E13, bind_Ok. done.
Qed.

(** ** The driver: launch geometry *)

Lemma shared_size_eq : shared_size = 2592.
Proof. reflexivity. Qed.

Lemma grid_dim_covers (nx ny : Z) :
  2 ≤ nx ≤ 2 ^ 31 → 2 ≤ ny ≤ 2 ^ 31 →
  covers (grid_dim nx ny) block_dim (nx - 2) (ny - 2).
Proof.
  intros Hnx Hny. unfold covers, grid_dim, block_dim. cbn [x y].
  rewrite (u64_small (nx - 2 + 16 - 1)), (u64_small (ny - 2 + 16 - 1)) by lia.
  rewrite !u32_small by lia. lia.
Qed.

Lemma grid_dim_fits (nx ny : Z) :
  2 ≤ nx ≤ 2 ^ 31 → 2 ≤ ny ≤ 2 ^ 31 →
  (nx - 2) mod 16 = 0 → (ny - 2) mod 16 = 0 →
  fits (grid_dim nx ny) block_dim (nx - 2) (ny - 2).
Proof.
  intros Hnx Hny Mx My. unfold fits, grid_dim, block_dim. cbn [x y].
  rewrite (u64_small (nx - 2 + 16 - 1)), (u64_small (ny - 2 + 16 - 1)) by lia.
  rewrite !u32_small by lia. lia.
Qed.

(** ** The driver: the time-stepping loop *)

(** The buffers of the loop are two padded grids of [nx] by [ny] cells. *)
Lemma kernel_arguments (nx ny : Z) :
  2 ≤ nx ≤ 2 ^ 31 → 2 ≤ ny ≤ 2 ^ 31 →
  s32 (u64 (nx - 2)) = nx - 2 ∧ s32 (u64 (ny - 2)) = ny - 2.
Proof.
  intros Hnx Hny. rewrite (u64_small (nx - 2)), (u64_small (ny - 2)) by lia.
  rewrite !s32_small by lia. done.
Qed.

Lemma sized_bounds (nx ny : Z) (g : list T) :
  2 ≤ nx → 2 ≤ ny → sized (nx - 2) (ny - 2) g → nx ≤ 2 ^ 31 ∧ ny ≤ 2 ^ 31.
Proof. intros Hnx Hny (_ & _ & Hsz & _). nia. Qed.

Lemma length_step_ref (nx ny : Z) (dt : T) (x0 x1 : list T) :
  length (step_ref nx ny dt x0 x1) = length x1.
Proof. unfold step_ref. apply length_imap. Qed.

Lemma time_step_naive (capacity nx ny : Z) (dt : T) (st : loop_state) :
  2 ≤ nx → 2 ≤ ny → sized (nx - 2) (ny - 2) st.(cur) →
  length st.(next) = length st.(cur) →
  time_step capacity nx ny dt false st
  = Ok (LoopState (step_ref (nx - 2) (ny - 2) dt st.(cur) st.(next)) st.(cur)
                  (S st.(issued)) st.(rejected)).
Proof.
  intros Hnx Hny Hs Hlen. destruct (sized_bounds nx ny _ Hnx Hny Hs).
  unfold time_step. destruct (kernel_arguments nx ny) as [-> ->]; [lia..|].
  rewrite diffusion_launch; [done..|]. apply grid_dim_covers; lia.
Qed.

Lemma time_step_tiled (capacity nx ny : Z) (dt : T) (st : loop_state) :
  2 ≤ nx → 2 ≤ ny → sized (nx - 2) (ny - 2) st.(cur) →
  length st.(next) = length st.(cur) →
  (nx - 2) mod 16 = 0 → (ny - 2) mod 16 = 0 → shared_size ≤ capacity →
  time_step capacity nx ny dt true st
  = Ok (LoopState (step_ref (nx - 2) (ny - 2) dt st.(cur) st.(next)) st.(cur)
                  (S st.(issued)) st.(rejected)).
Proof.
  intros Hnx Hny Hs Hlen Mx My Hcap. destruct (sized_bounds nx ny _ Hnx Hny Hs).
  unfold time_step. destruct (kernel_arguments nx ny) as [-> ->]; [lia..|].
  destruct (Z.leb_spec shared_size capacity); [|lia].
  rewrite (launch_shared_full (grid_dim nx ny) block_dim); try done.
  - rewrite diffusion_launch; [done..|]. apply grid_dim_covers; lia.
  - apply grid_dim_covers; lia.
  - apply grid_dim_fits; lia.
Qed.

Lemma time_step_rejected (capacity nx ny : Z) (dt : T) (st : loop_state) :
  capacity < shared_size →
  time_step capacity nx ny dt true st
  = Ok (LoopState st.(next) st.(cur) (S st.(issued)) (S st.(rejected))).
Proof.
  intros Hcap. unfold time_step.
  destruct (Z.leb_spec shared_size capacity); [lia|done].
Qed.

Lemma time_step_diverges (capacity nx ny : Z) (dt : T) (st : loop_state) :
  2 < nx → 2 < ny < 18 → sized (nx - 2) (ny - 2) st.(cur) →
  shared_size ≤ capacity →
  time_step capacity nx ny dt true st = Fault BarrierDivergence.
Proof.
  intros Hnx Hny Hs Hcap.
  destruct (sized_bounds nx ny _ ltac:(lia) ltac:(lia) Hs).
  unfold time_step. destruct (kernel_arguments nx ny) as [-> ->]; [lia..|].
  destruct (Z.leb_spec shared_size capacity); [|lia].
  rewrite (launch_shared_diverges (grid_dim nx ny) block_dim); try done.
  - apply grid_dim_covers; lia.
  - lia.
  - simpl. lia.
Qed.

(** Where every launch performs the reference step, the loop is the
    reference loop. *)
Lemma time_loop_ref (capacity nx ny : Z) (dt : T) (use_shared : bool) (n : nat) :
  2 ≤ nx → 2 ≤ ny →
  (use_shared = true →
     (nx - 2) mod 16 = 0 ∧ (ny - 2) mod 16 = 0 ∧ shared_size ≤ capacity) →
  ∀ st, sized (nx - 2) (ny - 2) st.(cur) → length st.(next) = length st.(cur) →
    time_loop capacity nx ny dt use_shared n st
    = Ok (LoopState (ref_loop (nx - 2) (ny - 2) dt n (st.(cur), st.(next))).1
                    (ref_loop (nx - 2) (ny - 2) dt n (st.(cur), st.(next))).2
                    (n + st.(issued)) st.(rejected)).
Proof.
  intros Hnx Hny Hus. induction n as [|n IH]; intros st Hs Hlen.
  { by destruct st. }
  cbn [time_loop ref_loop].
  assert (time_step capacity nx ny dt use_shared st
          = Ok (LoopState (step_ref (nx - 2) (ny - 2) dt st.(cur) st.(next))
                          st.(cur) (S st.(issued)) st.(rejected))) as ->.
  { destruct use_shared.
    - destruct (Hus eq_refl) as (? & ? & ?). by apply time_step_tiled.
    - by apply time_step_naive. }
  rewrite bind_Ok, IH; cbn [cur next issued rejected fst snd].
  - f_equal. f_equal. lia.
  - destruct Hs as (? & ? & ? & Hl). split_and!; [done..|].
    rewrite length_step_ref. lia.
  - by rewrite length_step_ref.
Qed.

(** Where every launch is rejected, the buffers only change roles. *)
Lemma time_loop_rejected (capacity nx ny : Z) (dt : T) (n : nat) (g : list T)
    (i r : nat) :
  capacity < shared_size →
  time_loop capacity nx ny dt true n (LoopState g g i r)
  = Ok (LoopState g g (n + i) (n + r)).
Proof.
  intros Hcap. revert i r. induction n as [|n IH]; intros i r; [done|].
  cbn [time_loop]. rewrite time_step_rejected by done.
  rewrite bind_Ok. cbn [cur next issued rejected]. rewrite IH.
  f_equal. f_equal; lia.
Qed.

Lemma time_loop_diverges (capacity nx ny : Z) (dt : T) (n : nat) (st : loop_state) :
  2 < nx → 2 < ny < 18 → sized (nx - 2) (ny - 2) st.(cur) →
  shared_size ≤ capacity → (0 < n)%nat →
  time_loop capacity nx ny dt true n st = Fault BarrierDivergence.
Proof.
  intros Hnx Hny Hs Hcap Hn. destruct n as [|n]; [lia|].
  cbn [time_loop]. by rewrite time_step_diverges.
Qed.

(** ** The driver: a whole run *)

Lemma length_malloc_device (junk : nat → T) (n : Z) :
  0 ≤ n → Z.of_nat (length (malloc_device junk n)) = n.
Proof. intros. unfold malloc_device. rewrite length_fmap, length_seq. lia. Qed.

Lemma length_ref_loop (nx ny : Z) (dt : T) (n : nat) (g : list T * list T) :
  length g.2 = length g.1 →
  length (ref_loop nx ny dt n g).1 = length g.1
  ∧ length (ref_loop nx ny dt n g).2 = length g.1.
Proof.
  revert g. induction n as [|n IH]; intros [c d] Hlen;
    cbn [ref_loop fst snd] in *; [done|].
  destruct (IH (step_ref nx ny dt c d, c)) as [E1 E2]; cbn [fst snd] in *.
  - by rewrite length_step_ref.
  - rewrite length_step_ref in E1, E2. lia.
Qed.

Lemma sized_initial_grid (nx ny : Z) :
  2 ≤ nx → 2 ≤ ny → nx * ny ≤ INT_MAX - 190 →
  sized (nx - 2) (ny - 2) (initial_grid nx ny).
Proof.
  intros Hnx Hny Hmax. unfold sized, INT_MAX in *.
  rewrite length_initial_grid by nia. split_and!; lia.
Qed.

(** The part of [run] before the loop. *)
Lemma run_unfold (capacity nx ny : Z) (dt : T) (nsteps : Z) (use_shared : bool)
    (junk0 junk1 : nat → T) :
  2 ≤ nx → 2 ≤ ny → nx * ny ≤ INT_MAX - 190 → 0 ≤ nsteps ≤ INT_MAX →
  run capacity nx ny dt nsteps use_shared junk0 junk1
  = (st ← time_loop capacity nx ny dt use_shared (Z.to_nat nsteps)
            (LoopState (initial_grid nx ny) (initial_grid nx ny) O O);
     Ok (Outcome 0 (copy_to_host st.(cur) (nx * ny)) st.(issued) st.(rejected))).
Proof.
  intros Hnx Hny Hmax Hn. unfold run.
  assert (0 ≤ nx * ny < 2 ^ 64) by (unfold INT_MAX in *; nia).
  rewrite (u64_small (nx * ny)) by lia.
  rewrite initialize_spec, bind_Ok;
    [|lia|lia|done|by apply length_malloc_device; lia..].
  destruct (Z.ltb_spec INT_MAX nsteps); [lia|done].
Qed.

(** A run of the naive strategy, or of the tiled strategy on a grid without
    partial blocks, hands the grid of the reference loop to the writer. *)
Lemma run_ref (capacity nx ny : Z) (dt : T) (nsteps : Z) (use_shared : bool)
    (junk0 junk1 : nat → T) :
  2 ≤ nx → 2 ≤ ny → nx * ny ≤ INT_MAX - 190 → 0 ≤ nsteps ≤ INT_MAX →
  (use_shared = true →
     (nx - 2) mod 16 = 0 ∧ (ny - 2) mod 16 = 0 ∧ shared_size ≤ capacity) →
  run capacity nx ny dt nsteps use_shared junk0 junk1
  = Ok (Outcome 0
          (ref_loop (nx - 2) (ny - 2) dt (Z.to_nat nsteps)
                    (initial_grid nx ny, initial_grid nx ny)).1
          (Z.to_nat nsteps) 0).
Proof.
  intros Hnx Hny Hmax Hn Hus. rewrite run_unfold by done.
  pose proof (sized_initial_grid nx ny Hnx Hny Hmax) as Hs.
  rewrite time_loop_ref; [|done..]. rewrite bind_Ok.
  cbn [cur next issued rejected]. f_equal. f_equal; [|lia].
  unfold copy_to_host. apply take_ge.
  destruct (length_ref_loop (nx - 2) (ny - 2) dt (Z.to_nat nsteps)
              (initial_grid nx ny, initial_grid nx ny)) as [E _]; [done|].
  rewrite E. cbn [fst]. destruct Hs as (_ & _ & _ & Hl). lia.
Qed.

Lemma run_rejected (capacity nx ny : Z) (dt : T) (nsteps : Z)
    (junk0 junk1 : nat → T) :
  2 ≤ nx → 2 ≤ ny → nx * ny ≤ INT_MAX - 190 → 0 ≤ nsteps ≤ INT_MAX →
  capacity < shared_size →
  run capacity nx ny dt nsteps true junk0 junk1
  = Ok (Outcome 0 (initial_grid nx ny) (Z.to_nat nsteps) (Z.to_nat nsteps)).
Proof.
  intros Hnx Hny Hmax Hn Hcap. rewrite run_unfold by done.
  rewrite time_loop_rejected by done. rewrite bind_Ok.
  cbn [cur next issued rejected]. f_equal. f_equal; [|lia..].
  unfold copy_to_host. apply take_ge.
  pose proof (length_initial_grid nx ny). unfold INT_MAX in *. nia.
Qed.

Lemma run_diverges (capacity nx ny : Z) (dt : T) (nsteps : Z)
    (junk0 junk1 : nat → T) :
  2 < nx → 2 < ny < 18 → nx * ny ≤ INT_MAX - 190 → 0 < nsteps ≤ INT_MAX →
  shared_size ≤ capacity →
  run capacity nx ny dt nsteps true junk0 junk1 = Fault BarrierDivergence.
Proof.
  intros Hnx Hny Hmax Hn Hcap. rewrite run_unfold by lia.
  rewrite time_loop_diverges; [done|lia|lia| |done|lia].
  apply sized_initial_grid; lia.
Qed.

(** ** [main] *)

Lemma main_unfold (capacity pow nsteps : Z) (use_shared : bool)
    (junk0 junk1 : nat → T) :
  0 ≤ pow ≤ 23 →
  main capacity pow nsteps use_shared junk0 junk1
  = run capacity 130 (2 ^ pow + 2) lit_0_1 nsteps use_shared junk0 junk1
  ∧ 1 ≤ 2 ^ pow ≤ 2 ^ 23.
Proof.
  intros Hp. unfold main. destruct (Z.leb_spec 31 pow); [lia|].
  rewrite Z.shiftl_1_l.
  assert (1 ≤ 2 ^ pow ≤ 2 ^ 23) as Hpow.
  { split; [|apply Z.pow_le_mono_r; lia].
    pose proof (Z.pow_pos_nonneg 2 pow ltac:(lia) ltac:(lia)). lia. }
  rewrite !u64_small by lia. done.
Qed.

Lemma pow_multiple_16 (pow : Z) : 4 ≤ pow → 2 ^ pow mod 16 = 0.
Proof.
  intros Hp. replace pow with (4 + (pow - 4)) by lia.
  rewrite Z.pow_add_r by lia. change (2 ^ 4) with 16.
  rewrite Z.mul_comm. apply Z_mod_mult.
Qed.

Lemma pow_below_16 (pow : Z) : 0 ≤ pow < 4 → 0 < 2 ^ pow < 16.
Proof.
  intros Hp.
  assert (pow = 0 ∨ pow = 1 ∨ pow = 2 ∨ pow = 3) as [-> | [-> | [-> | ->]]] by lia;
    simpl; lia.
Qed.

End driver.

(** ** Frames: what a launch leaves alone *)

Lemma foldM_rel {I S : Type} (f : I → S → result S) (R : S → S → Prop) :
  (∀ s, R s s) → (∀ a b c, R a b → R b c → R a c) →
  (∀ t s s', f t s = Ok s' → R s s') →
  ∀ l s s', foldM f l s = Ok s' → R s s'.
Proof.
  intros Hrefl Htrans Hstep l. induction l as [|t l IH]; intros s s' Hf.
  - injection Hf as <-. apply Hrefl.
  - cbn [foldM] in Hf. apply bind_Ok_inv in Hf as (s1 & H1 & H2).
    eapply Htrans; [by eapply Hstep|by apply IH].
Qed.

Lemma store_frame {A : Type} (m m' : list A) (p : Z) (v : A) (q : nat) :
  store m p v = Ok m' → Z.of_nat q ≠ p → m' !! q = m !! q.
Proof.
  unfold store. destruct (_ && _) eqn:E; [|done]. intros [= <-] Hq.
  apply andb_true_iff in E as [E _]. apply list_lookup_insert_ne. lia.
Qed.

Section frames.
Context {T : Type} `{Arith T}.

Lemma same_halo_trans (nx ny : Z) (a b c : list T) :
  same_halo nx ny a b → same_halo nx ny b c → same_halo nx ny a c.
Proof. intros Hab Hbc q Hq. by rewrite Hbc, Hab. Qed.

Lemma guard_position (nx ny : Z) (bd b t : dim3) :
  0 ≤ nx → 0 ≤ ny → (nx + 2) * (ny + 2) ≤ 2 ^ 31 →
  (global_i bd b t <? u32 nx) && (global_j bd b t <? u32 ny) = true →
  position (global_i bd b t) (global_j bd b t) (nx + 2)
  = linear nx (global_i bd b t) (global_j bd b t)
  ∧ interior nx ny (linear nx (global_i bd b t) (global_j bd b t)) = true.
Proof.
  intros Hnx Hny Hsz Hg. assert (nx < 2 ^ 31 ∧ ny < 2 ^ 31) as [? ?] by nia.
  rewrite (u32_small nx), (u32_small ny) in Hg by lia.
  apply andb_true_iff in Hg as [Hi Hj].
  pose proof (u32_range (x t + u32 (x b * x bd))) as Ri.
  pose proof (u32_range (y t + u32 (y b * y bd))) as Rj.
  fold (global_i bd b t) in Ri. fold (global_j bd b t) in Rj.
  split; [apply (position_linear nx ny)|apply interior_linear]; lia.
Qed.

Lemma diffusion_frame (x0 x1 x1' : list T) (nx ny : Z) (dt : T) (bd b t : dim3) :
  0 ≤ nx → 0 ≤ ny → (nx + 2) * (ny + 2) ≤ 2 ^ 31 →
  diffusion x0 nx ny dt bd b t x1 = Ok x1' → same_halo nx ny x1 x1'.
Proof.
  intros Hnx Hny Hsz Hk q Hq. unfold diffusion in Hk.
  destruct (_ && _) eqn:Hg in Hk; [|by injection Hk as <-].
  destruct (guard_position nx ny bd b t Hnx Hny Hsz Hg) as [Hpos Hint].
  cbv zeta in Hk. rewrite Hpos in Hk.
  repeat (apply bind_Ok_inv in Hk as (? & _ & Hk)).
  apply (store_frame _ _ _ _ q) in Hk; [done|]. congruence.
Qed.

Lemma compute_frame (buffer : list (option T)) (x1 x1' : list T) (nx ny : Z)
    (dt : T) (bd b t : dim3) :
  0 ≤ nx → 0 ≤ ny → (nx + 2) * (ny + 2) ≤ 2 ^ 31 →
  diffusion_shared_compute buffer nx ny dt bd b t x1 = Ok x1' →
  same_halo nx ny x1 x1'.
Proof.
  intros Hnx Hny Hsz Hk q Hq. unfold diffusion_shared_compute in Hk.
  destruct (_ && _) eqn:Hg in Hk; [|by injection Hk as <-].
  destruct (guard_position nx ny bd b t Hnx Hny Hsz Hg) as [Hpos Hint].
  cbv zeta in Hk. rewrite Hpos in Hk.
  repeat (apply bind_Ok_inv in Hk as (? & _ & Hk)).
  apply (store_frame _ _ _ _ q) in Hk; [done|]. congruence.
Qed.

Lemma launch_frame (gd bd : dim3) (x0 x1 x1' : list T) (nx ny : Z) (dt : T) :
  0 ≤ nx → 0 ≤ ny → (nx + 2) * (ny + 2) ≤ 2 ^ 31 →
  launch gd bd (diffusion x0 nx ny dt) x1 = Ok x1' → same_halo nx ny x1 x1'.
Proof.
  intros Hnx Hny Hsz. rewrite launch_units.
  apply (foldM_rel _ (same_halo nx ny)).
  - by intros s q Hq.
  - apply same_halo_trans.
  - intros [b t] s s'. by apply diffusion_frame.
Qed.

Lemma launch_shared_frame (gd bd : dim3) (ssize : Z) (x0 x1 x1' : list T)
    (nx ny : Z) (dt : T) :
  0 ≤ nx → 0 ≤ ny → (nx + 2) * (ny + 2) ≤ 2 ^ 31 →
  launch_shared gd bd ssize x0 nx ny dt x1 = Ok x1' → same_halo nx ny x1 x1'.
Proof.
  intros Hnx Hny Hsz. unfold launch_shared.
  apply (foldM_rel _ (same_halo nx ny)).
  - by intros s q Hq.
  - apply same_halo_trans.
  - intros b s s' Hb. unfold diffusion_shared in Hb.
    apply bind_Ok_inv in Hb as (buffer & _ & Hb).
    destruct (barrier_uniform nx ny bd b); [|done].
    revert Hb. apply (foldM_rel _ (same_halo nx ny)).
    + by intros m q Hq.
    + apply same_halo_trans.
    + intros t m m'. by apply compute_frame.
Qed.

(** The halo in the words of the grid: padded row [0] or [ny+1], padded
    column [0] or [nx+1]. *)
Lemma halo_not_interior (nx ny q : Z) :
  q / (nx + 2) = 0 ∨ q / (nx + 2) = ny + 1
  ∨ q mod (nx + 2) = 0 ∨ q mod (nx + 2) = nx + 1 →
  interior nx ny q = false.
Proof.
  intros Hq. unfold interior. cbv zeta.
  apply not_true_iff_false. intros Hi.
  repeat (apply andb_true_iff in Hi as [Hi ?]). lia.
Qed.

(** ** The reference loop *)

Lemma step_ref_halo (nx ny : Z) (dt : T) (x0 x1 : list T) (q : nat) :
  interior nx ny (Z.of_nat q) = false → step_ref nx ny dt x0 x1 !! q = x1 !! q.
Proof.
  intros Hq. unfold step_ref. rewrite list_lookup_imap, Hq.
  by destruct (x1 !! q).
Qed.

Lemma ref_loop_halo (nx ny : Z) (dt : T) (n : nat) (g : list T * list T) (q : nat) :
  interior nx ny (Z.of_nat q) = false → g.2 !! q = g.1 !! q →
  (ref_loop nx ny dt n g).1 !! q = g.1 !! q
  ∧ (ref_loop nx ny dt n g).2 !! q = g.1 !! q.
Proof.
  intros Hq. revert g. induction n as [|n IH]; intros [c d] Hg;
    cbn [ref_loop fst snd] in *; [done|].
  destruct (IH (step_ref nx ny dt c d, c)) as [E1 E2]; cbn [fst snd] in *.
  - by rewrite step_ref_halo.
  - rewrite step_ref_halo in E1, E2 by done. by rewrite E1, E2.
Qed.

End frames.

(** ** The outcomes of [main] *)

Section outcomes.
Context {T : Type} `{Arith T}.

Lemma run_zero (capacity nx ny : Z) (dt : T) (use_shared : bool)
    (junk0 junk1 : nat → T) :
  2 ≤ nx → 2 ≤ ny → nx * ny ≤ INT_MAX - 190 →
  run capacity nx ny dt 0 use_shared junk0 junk1
  = Ok (Outcome 0 (initial_grid nx ny) 0 0).
Proof.
  intros Hnx Hny Hmax. rewrite run_unfold by (done || (unfold INT_MAX; lia)).
  change (Z.to_nat 0) with 0%nat. cbn [time_loop].
  rewrite bind_Ok. cbn [cur issued rejected].
  f_equal. f_equal. unfold copy_to_host. apply take_ge.
  pose proof (length_initial_grid nx ny). unfold INT_MAX in *. nia.
Qed.

Lemma main_zero (capacity pow : Z) (use_shared : bool) (junk0 junk1 : nat → T) :
  0 ≤ pow ≤ 23 →
  main capacity pow 0 use_shared junk0 junk1
  = Ok (Outcome 0 (initial_grid 130 (2 ^ pow + 2)) 0 0).
Proof.
  intros Hp.
  destruct (main_unfold capacity pow 0 use_shared junk0 junk1 Hp) as [-> Hpow].
  apply run_zero; unfold INT_MAX; lia.
Qed.

(** The naive strategy, and the tiled strategy from [pow = 4] on with a
    staging buffer that fits, perform the reference loop. *)
Lemma main_defined (capacity pow nsteps : Z) (use_shared : bool)
    (junk0 junk1 : nat → T) :
  0 ≤ pow ≤ 23 → 0 ≤ nsteps ≤ INT_MAX →
  (use_shared = true → 4 ≤ pow ∧ shared_size ≤ capacity) →
  main capacity pow nsteps use_shared junk0 junk1
  = Ok (Outcome 0
          (ref_loop 128 (2 ^ pow) lit_0_1 (Z.to_nat nsteps)
                    (initial_grid 130 (2 ^ pow + 2), initial_grid 130 (2 ^ pow + 2))).1
          (Z.to_nat nsteps) 0).
Proof.
  intros Hp Hn Hus.
  destruct (main_unfold capacity pow nsteps use_shared junk0 junk1 Hp) as [-> Hpow].
  rewrite run_ref; [|lia|lia|unfold INT_MAX; lia|done|].
  - by replace (2 ^ pow + 2 - 2) with (2 ^ pow) by lia.
  - intros Hs. destruct (Hus Hs) as [H4 Hcap].
    replace (2 ^ pow + 2 - 2) with (2 ^ pow) by lia.
    split_and!; [done|by apply pow_multiple_16|done].
Qed.

(** The tiled strategy below [pow = 4]: the first launch is undefined. *)
Lemma main_diverges (capacity pow nsteps : Z) (junk0 junk1 : nat → T) :
  0 ≤ pow < 4 → 0 < nsteps ≤ INT_MAX → shared_size ≤ capacity →
  main capacity pow nsteps true junk0 junk1 = Fault BarrierDivergence.
Proof.
  intros Hp Hn Hcap.
  destruct (main_unfold capacity pow nsteps true junk0 junk1 ltac:(lia)) as [-> Hpow].
  pose proof (pow_below_16 pow Hp).
  apply run_diverges; (done || lia || (unfold INT_MAX; lia)).
Qed.

(** A staging buffer that does not fit: every launch is rejected. *)
Lemma main_rejected (capacity pow nsteps : Z) (junk0 junk1 : nat → T) :
  0 ≤ pow ≤ 23 → 0 ≤ nsteps ≤ INT_MAX → capacity < shared_size →
  main capacity pow nsteps true junk0 junk1
  = Ok (Outcome 0 (initial_grid 130 (2 ^ pow + 2))
          (Z.to_nat nsteps) (Z.to_nat nsteps)).
Proof.
  intros Hp Hn Hcap.
  destruct (main_unfold capacity pow nsteps true junk0 junk1 ltac:(lia)) as [-> Hpow].
  apply run_rejected; (done || lia || (unfold INT_MAX; lia)).
Qed.

(** Whatever [main] returns is a grid of the reference loop. *)
Lemma main_cases (capacity pow nsteps : Z) (use_shared : bool)
    (junk0 junk1 : nat → T) :
  0 ≤ pow ≤ 23 → 0 ≤ nsteps ≤ INT_MAX →
  main capacity pow nsteps use_shared junk0 junk1 = Fault BarrierDivergence
  ∨ ∃ n l r,
      main capacity pow nsteps use_shared junk0 junk1
      = Ok (Outcome 0
              (ref_loop 128 (2 ^ pow) lit_0_1 n
                 (initial_grid 130 (2 ^ pow + 2), initial_grid 130 (2 ^ pow + 2))).1
              l r).
Proof.
  intros Hp Hn. destruct use_shared.
  - destruct (Z.lt_ge_cases capacity shared_size) as [Hcap|Hcap].
    { right. exists O. eexists _, _. by apply main_rejected. }
    destruct (Z.lt_ge_cases pow 4) as [Hlt|Hge].
    + destruct (Z.eq_dec nsteps 0) as [->|Hpos].
      * right. exists O. eexists _, _. by apply main_zero.
      * left. apply main_diverges; lia.
    + right. eexists _, _, _. apply main_defined; [done..|]. intros _. lia.
  - right. eexists _, _, _. apply main_defined; [done..|]. intros [=].
Qed.

End outcomes.

(** ** The update in exact arithmetic *)







(** ** The tiled kernel as the driver launches it *)

Section driver_tiles.
Context {T : Type} `{Arith T}.

Lemma driver_placed (ny : Z) (b t : dim3) :
  0 ≤ ny → 130 * (ny + 2) ≤ 2 ^ 31 →
  b ∈ indices (grid_dim 130 (ny + 2)) → t ∈ indices block_dim →
  placed (grid_dim 130 (ny + 2)) block_dim b t 128 ny.
Proof.
  intros Hny Hsz Hb Ht. split_and!; [|done..].
  pose proof (grid_dim_covers 130 (ny + 2) ltac:(lia) ltac:(lia)) as Hc.
  by replace (ny + 2 - 2) with ny in Hc by lia.
Qed.

(** The first unit of the last row of the domain, when that row is not the
    last row of its block: the cell below its own is never staged, and its
    compute phase reads it. *)
Lemma last_row_unstaged (x0 : list T) (ny : Z) (dt : T) :
  sized 128 ny x0 → 0 < ny → ny mod 16 ≠ 0 →
  let b := Dim3 0 ((ny - 1) / 16) in
  let t := Dim3 0 ((ny - 1) mod 16) in
  b ∈ indices (grid_dim 130 (ny + 2)) ∧ t ∈ indices block_dim
  ∧ in_domain block_dim b t 128 ny = true
  ∧ global_j block_dim b t = ny - 1
  ∧ in_domain block_dim b (Dim3 t.(x) (t.(y) + 1)) 128 ny = false
  ∧ ∃ buffer,
      stage_block x0 128 ny shared_size block_dim b = Ok buffer
      ∧ buffer !! Z.to_nat (shared_position block_dim t + 18) = Some None
      ∧ ∀ x1, diffusion_shared_compute buffer 128 ny dt block_dim b t x1
              = Fault UninitializedRead.
Proof.
  intros Hs Hny Hmod b t. pose proof Hs as (_ & _ & Hsz & _).
  change ((128 + 2) * (ny + 2)) with (130 * (ny + 2)) in Hsz.
  pose proof (grid_dim_covers 130 (ny + 2) ltac:(lia) ltac:(lia)) as Hc.
  replace (ny + 2 - 2) with ny in Hc by lia. change (130 - 2) with 128 in Hc.
  assert (Hb : b ∈ indices (grid_dim 130 (ny + 2))).
  { apply elem_of_indices. destruct Hc as (_ & _ & Hx & Hy).
    unfold block_dim in Hx, Hy. cbn [x y] in Hx, Hy. subst b. cbn [x y]. lia. }
  assert (Ht : t ∈ indices block_dim).
  { apply elem_of_indices. subst t. unfold block_dim. cbn [x y]. lia. }
  assert (Hp : placed (grid_dim 130 (ny + 2)) block_dim b t 128 ny)
    by (apply driver_placed; (done || lia)).
  destruct (placed_coordinates _ _ _ _ _ _ Hp) as (Ei & Ej & _).
  assert (Hd : in_domain block_dim b t 128 ny = true).
  { rewrite (in_domain_eq (grid_dim 130 (ny + 2))); [|lia|lia|done].
    subst b t. unfold block_dim. cbn [x y]. apply andb_true_intro. lia. }
  assert (Hnext : in_domain block_dim b (Dim3 t.(x) (t.(y) + 1)) 128 ny = false).
  { rewrite (in_domain_eq (grid_dim 130 (ny + 2))); [|lia|lia|].
    - subst b t. unfold block_dim. cbn [x y]. apply andb_false_iff. right. lia.
    - apply driver_placed; [lia|lia|done|]. apply elem_of_indices.
      subst t. unfold block_dim. cbn [x y]. lia. }
  assert (Hedge : t.(y) ≠ block_dim.(y) - 1).
  { subst t. unfold block_dim. cbn [x y]. lia. }
  split_and!; [done..| |done|].
  { rewrite Ej. subst b t. unfold block_dim. cbn [x y]. lia. }
  destruct (stage_block_spec x0 128 ny shared_size (grid_dim 130 (ny + 2))
              block_dim b) as (buffer & Hst & Hm); [done..|].
  exists buffer. split_and!; [done| |].
  - rewrite Hm by (subst t; unfold shared_position, block_dim; cbn [x y]; lia).
    change 18 with (block_dim.(x) + 2).
    rewrite (unstaged_south (grid_dim 130 (ny + 2))) by (done || lia).
    subst t. unfold shared_position, block_dim. cbn [x y].
    destruct (Z.ltb_spec (0 + 1 + ((ny - 1) mod 16 + 1) * (16 + 2) + (16 + 2))
                ((16 + 2) * (16 + 2))); [done|lia].
  - intros x1. by apply (compute_unstaged x0 128 ny dt (grid_dim 130 (ny + 2))).
Qed.

(** Where the height is a multiple of 16, every operand that a unit reads in
    the compute phase is staged. *)
Lemma full_rows_staged (x0 : list T) (ny : Z) (dt : T) (b : dim3) :
  sized 128 ny x0 → ny mod 16 = 0 → b ∈ indices (grid_dim 130 (ny + 2)) →
  ∃ buffer,
    stage_block x0 128 ny shared_size block_dim b = Ok buffer
    ∧ ∀ t x1, t ∈ indices block_dim →
        diffusion_shared_compute buffer 128 ny dt block_dim b t x1
        = diffusion x0 128 ny dt block_dim b t x1.
Proof.
  intros Hs Hmod Hb. pose proof Hs as (_ & Hny & Hsz & _).
  change ((128 + 2) * (ny + 2)) with (130 * (ny + 2)) in Hsz.
  pose proof (grid_dim_covers 130 (ny + 2) ltac:(lia) ltac:(lia)) as Hc.
  pose proof (grid_dim_fits 130 (ny + 2) ltac:(lia) ltac:(lia)
                eq_refl ltac:(by replace (ny + 2 - 2) with ny by lia)) as Hf.
  replace (ny + 2 - 2) with ny in Hc, Hf by lia.
  change (130 - 2) with 128 in Hc, Hf.
  destruct (stage_block_spec x0 128 ny shared_size (grid_dim 130 (ny + 2))
              block_dim b) as (buffer & Hst & Hm); [done..|].
  exists buffer. split; [done|]. intros t x1 Ht.
  assert (Hall : ∀ t', t' ∈ indices block_dim →
                   in_domain block_dim b t' 128 ny = true).
  { intros t' Ht'. apply (fits_in_domain (grid_dim 130 (ny + 2))); [lia|lia| |done].
    by split_and!. }
  apply (compute_staged x0 128 ny dt (grid_dim 130 (ny + 2))); [done| |done|].
  { by split_and!. }
  intros _. apply elem_of_indices in Ht as [Hx Hy]. split.
  - destruct (Z.eq_dec t.(x) (block_dim.(x) - 1)) as [|Hne]; [by left|right].
    apply Hall, elem_of_indices. unfold block_dim in *. cbn [x y] in *. lia.
  - destruct (Z.eq_dec t.(y) (block_dim.(y) - 1)) as [|Hne]; [by left|right].
    apply Hall, elem_of_indices. unfold block_dim in *. cbn [x y] in *. lia.
Qed.

Lemma diffusion_no_uninitialized_read (x0 : list T) (nx ny : Z) (dt : T)
    (bd b t : dim3) (x1 : list T) :
  sized nx ny x0 →
  diffusion x0 nx ny dt bd b t x1 ≠ Fault UninitializedRead.
Proof.
  intros Hs. rewrite diffusion_shape by done.
  destruct (_ && _); [|done]. unfold store. by destruct (_ && _).
Qed.

End driver_tiles.

(** * The claims *)

(** ** The fill operation *)

(** C8. Given a buffer start (the offset [v] into the allocation [m]), a
    count [n] and a value, [fill_gpu] returns, and in the memory it returns
    the [n] cells from [v] on hold the value and every other cell of the
    allocation, in particular every cell at index [n] or above counted from
    [v], is unchanged; a unit whose index [tid] is [n] or above does
    nothing.  The count is a non-negative [int] whose last block of 192 units
    still has [int] indices, and the [n] cells lie inside the allocation. *)
Theorem fill_sets_first_n {A : Type} (m : list A) (v : Z) (value : A) (n : Z) :
  0 ≤ n ≤ INT_MAX - 190 → 0 ≤ v → v + n ≤ Z.of_nat (length m) →
  (∃ m', fill_gpu m v value n = Ok m'
         ∧ length m' = length m
         ∧ (∀ k, 0 ≤ k < n → m' !! Z.to_nat (v + k) = Some value)
         ∧ (∀ k, n ≤ k → m' !! Z.to_nat (v + k) = m !! Z.to_nat (v + k))
         ∧ (∀ q, 0 ≤ q < v → m' !! Z.to_nat q = m !! Z.to_nat q))
  ∧ (∀ blockDim blockIdx threadIdx (m0 : list A),
       n ≤ s32 (threadIdx.(x) ⊕ blockDim.(x) ⊗ blockIdx.(x)) →
       fill v value n blockDim blockIdx threadIdx m0 = Ok m0).
Proof.
  intros Hn Hv Hlen. split.
  - destruct (fill_gpu_spec m v value n Hn Hv Hlen) as (m' & Hm' & Hl & Hq).
    exists m'. split_and!; [done..| | |].
    + intros k Hk. rewrite Hq by lia.
      destruct (Z.leb_spec v (v + k)), (Z.ltb_spec (v + k) (v + n)); simpl; (done || lia).
    + intros k Hk. rewrite Hq by lia.
      destruct (Z.leb_spec v (v + k)), (Z.ltb_spec (v + k) (v + n)); simpl; (done || lia).
    + intros q Hq0. rewrite Hq by lia.
      destruct (Z.leb_spec v q), (Z.ltb_spec q (v + n)); simpl; (done || lia).
  - intros bd b t m0 Htid. unfold fill.
    destruct (Z.ltb_spec (s32 (x t ⊕ x bd ⊗ x b)) n); [lia|done].
Qed.

Lemma fill_sets_first_n_witness :
  (∃ m', fill_gpu [7; 7; 7; 7; 7] 1 0 3 = Ok m'
         ∧ length m' = length [7; 7; 7; 7; 7]
         ∧ (∀ k, 0 ≤ k < 3 → m' !! Z.to_nat (1 + k) = Some 0)
         ∧ (∀ k, 3 ≤ k → m' !! Z.to_nat (1 + k) = [7; 7; 7; 7; 7] !! Z.to_nat (1 + k))
         ∧ (∀ q, 0 ≤ q < 1 → m' !! Z.to_nat q = [7; 7; 7; 7; 7] !! Z.to_nat q))
  ∧ (∀ blockDim blockIdx threadIdx (m0 : list Z),
       3 ≤ s32 (threadIdx.(x) ⊕ blockDim.(x) ⊗ blockIdx.(x)) →
       fill 1 0 3 blockDim blockIdx threadIdx m0 = Ok m0).
Proof.
  apply (fill_sets_first_n [7; 7; 7; 7; 7] 1 0 3).
  - unfold INT_MAX. lia.
  - lia.
  - simpl. lia.
Defined.

(** ** The naive kernel *)

Section claims.
Context {T : Type} `{Arith T}.

(** C3. Launched as the driver launches it, the naive kernel returns, and
    for every interior coordinate [(i, j)] with [0 <= i < nx] and
    [0 <= j < ny] the destination holds, at [pos = (i+1) + (j+1)*width] with
    [width = nx+2], the value
    [src[pos] + dt * (-4*src[pos] + src[pos-width] + src[pos+width] + src[pos-1] + src[pos+1])],
    all five operands being cells of the source; every cell that is not an
    interior cell is as it was; and a unit whose coordinates are outside
    [0,nx) x [0,ny) does nothing. *)
Theorem diffusion_updates_interior (x0 x1 : list T) (nx ny : Z) (dt : T) :
  sized nx ny x0 → length x1 = length x0 →
  (∃ x1',
     launch (grid_dim (nx + 2) (ny + 2)) block_dim (diffusion x0 nx ny dt) x1 = Ok x1'
     ∧ (∀ i j, 0 ≤ i < nx → 0 ≤ j < ny →
          let width := nx + 2 in
          let pos := (i + 1) + (j + 1) * width in
          0 ≤ pos - width ∧ pos + width < Z.of_nat (length x0)
          ∧ x1' !! Z.to_nat pos
            = Some (fadd (cell x0 pos)
                      (fmul dt
                         (fadd (fadd (fadd (fadd (fmul lit_m4 (cell x0 pos))
                                                 (cell x0 (pos - width)))
                                           (cell x0 (pos + width)))
                                     (cell x0 (pos - 1)))
                               (cell x0 (pos + 1))))))
     ∧ (∀ q : nat, interior nx ny (Z.of_nat q) = false → x1' !! q = x1 !! q))
  ∧ (∀ blockDim blockIdx threadIdx (m : list T),
       ¬ (global_i blockDim blockIdx threadIdx < nx
          ∧ global_j blockDim blockIdx threadIdx < ny) →
       diffusion x0 nx ny dt blockDim blockIdx threadIdx m = Ok m).
Proof.
  intros Hs Hlen. pose proof Hs as (Hnx & Hny & Hsz & Hl0). split.
  - assert (nx + 2 ≤ 2 ^ 31 ∧ ny + 2 ≤ 2 ^ 31) as [? ?] by nia.
    pose proof (grid_dim_covers (nx + 2) (ny + 2) ltac:(lia) ltac:(lia)) as Hc.
    replace (nx + 2 - 2) with nx in Hc by lia.
    replace (ny + 2 - 2) with ny in Hc by lia.
    exists (step_ref nx ny dt x0 x1). split_and!.
    + by apply diffusion_launch.
    + intros i j Hi Hj. cbv zeta.
      pose proof (linear_bounds nx ny i j Hi Hj) as [Hlo Hhi].
      unfold linear in Hlo, Hhi. split_and!; [lia..|].
      unfold step_ref. rewrite list_lookup_imap.
      destruct (lookup_lt_is_Some_2 x1 (Z.to_nat (i + 1 + (j + 1) * (nx + 2))))
        as [old Hold]; [lia|].
      rewrite Hold. cbn [fmap option_fmap option_map].
      rewrite Z2Nat.id by lia.
      pose proof (interior_linear nx ny i j Hnx Hi Hj) as Hint.
      unfold linear in Hint. by rewrite Hint.
    + intros q Hq. by apply step_ref_halo.
  - intros bd b t m Hout. rewrite diffusion_shape by done.
    destruct (Z.ltb_spec (global_i bd b t) nx), (Z.ltb_spec (global_j bd b t) ny);
      simpl; (done || lia).
Qed.

(** ** The driver *)

(** C7. With [nsteps = 0] the run succeeds without a launch, and the grid
    copied out is the initialised grid: every cell of the first row (indices
    below [130]) and of the last row (indices from [130 * (2^pow + 1)]) is 1,
    every other cell, the interior and the east and west halo cells of the
    rows between, is 0.  [pow] is such that the grid size fits [int]. *)
Theorem zero_step_identity (capacity pow : Z) (use_shared : bool)
    (junk0 junk1 : nat → T) :
  0 ≤ pow ≤ 23 →
  ∃ g, main capacity pow 0 use_shared junk0 junk1 = Ok (Outcome 0 g 0 0)
       ∧ g = initial_grid 130 (2 ^ pow + 2)
       ∧ Z.of_nat (length g) = 130 * (2 ^ pow + 2)
       ∧ ∀ q, 0 ≤ q < 130 * (2 ^ pow + 2) →
           g !! Z.to_nat q
           = Some (if (q <? 130) || (130 * (2 ^ pow + 1) <=? q)
                   then lit_1 else lit_0).
Proof.
  intros Hp. destruct (main_unfold capacity pow 0 use_shared junk0 junk1 Hp)
    as [_ Hpow].
  exists (initial_grid 130 (2 ^ pow + 2)). split_and!.
  - by apply main_zero.
  - done.
  - apply length_initial_grid. lia.
  - intros q Hq. rewrite lookup_initial_grid by lia.
    rewrite Z2Nat.id by lia.
    by replace (130 * (2 ^ pow + 2 - 1)) with (130 * (2 ^ pow + 1)) by lia.
Qed.

End claims.

Lemma diffusion_updates_interior_witness :
  let x0 := replicate 9 1%float in
  let x1 := replicate 9 0%float in
  let nx := 1 in
  let ny := 1 in
  let dt := lit_0_1 in
  (∃ x1',
     launch (grid_dim (nx + 2) (ny + 2)) block_dim (diffusion x0 nx ny dt) x1 = Ok x1'
     ∧ (∀ i j, 0 ≤ i < nx → 0 ≤ j < ny →
          let width := nx + 2 in
          let pos := (i + 1) + (j + 1) * width in
          0 ≤ pos - width ∧ pos + width < Z.of_nat (length x0)
          ∧ x1' !! Z.to_nat pos
            = Some (fadd (cell x0 pos)
                      (fmul dt
                         (fadd (fadd (fadd (fadd (fmul lit_m4 (cell x0 pos))
                                                 (cell x0 (pos - width)))
                                           (cell x0 (pos + width)))
                                     (cell x0 (pos - 1)))
                               (cell x0 (pos + 1))))))
     ∧ (∀ q : nat, interior nx ny (Z.of_nat q) = false → x1' !! q = x1 !! q))
  ∧ (∀ blockDim blockIdx threadIdx (m : list float),
       ¬ (global_i blockDim blockIdx threadIdx < nx
          ∧ global_j blockDim blockIdx threadIdx < ny) →
       diffusion x0 nx ny dt blockDim blockIdx threadIdx m = Ok m).
Proof.
  apply (diffusion_updates_interior (replicate 9 1%float) (replicate 9 0%float)
           1 1 lit_0_1).
  - unfold sized. split_and!; [lia|lia|lia|reflexivity].
  - reflexivity.
Defined.

Lemma zero_step_identity_witness :
  ∃ g, main 49152 0 0 true (λ _, 0%float) (λ _, 0%float) = Ok (Outcome 0 g 0 0)
       ∧ g = initial_grid 130 (2 ^ 0 + 2)
       ∧ Z.of_nat (length g) = 130 * (2 ^ 0 + 2)
       ∧ ∀ q, 0 ≤ q < 130 * (2 ^ 0 + 2) →
           g !! Z.to_nat q
           = Some (if (q <? 130) || (130 * (2 ^ 0 + 1) <=? q)
                   then lit_1 else lit_0).
Proof.
  apply (zero_step_identity 49152 0 true (λ _, 0%float) (λ _, 0%float)). lia.
Defined.


(** ** Invariants of a run *)

(** C2. Neither stencil kernel writes a halo cell: whatever memory a launch
    of [diffusion] or of [diffusion_shared] returns, for any launch geometry,
    agrees with the destination it started from on padded row [0], padded
    row [ny+1], padded column [0] and padded column [nx+1].  Consequently,
    for every [nsteps] and either strategy, every cell of the north row
    (indices below [130]) and of the south row (indices from
    [130 * (2^pow + 1)] on) of the grid that [main] copies out is exactly 1;
    and [main] does return a grid for the naive strategy, and for the tiled
    strategy from [pow = 4] on. *)
Theorem halo_never_written {T : Type} `{Arith T}
    (gridDim blockDim : dim3) (size : Z) (x0 x1 : list T) (nx ny : Z) (dt : T)
    (capacity pow nsteps : Z) (use_shared : bool) (junk0 junk1 : nat → T) :
  0 ≤ nx → 0 ≤ ny → (nx + 2) * (ny + 2) ≤ 2 ^ 31 →
  0 ≤ pow ≤ 23 → 0 ≤ nsteps ≤ INT_MAX →
  let halo q :=
    q / (nx + 2) = 0 ∨ q / (nx + 2) = ny + 1
    ∨ q mod (nx + 2) = 0 ∨ q mod (nx + 2) = nx + 1 in
  (∀ x1', launch gridDim blockDim (diffusion x0 nx ny dt) x1 = Ok x1' →
     ∀ q, 0 ≤ q → halo q → x1' !! Z.to_nat q = x1 !! Z.to_nat q)
  ∧ (∀ x1', launch_shared gridDim blockDim size x0 nx ny dt x1 = Ok x1' →
       ∀ q, 0 ≤ q → halo q → x1' !! Z.to_nat q = x1 !! Z.to_nat q)
  ∧ (∀ out, main capacity pow nsteps use_shared junk0 junk1 = Ok out →
       ∀ q, 0 ≤ q < 130 ∨ 130 * (2 ^ pow + 1) ≤ q < 130 * (2 ^ pow + 2) →
         out.(x_host) !! Z.to_nat q = Some lit_1)
  ∧ ((use_shared = true → 4 ≤ pow ∧ shared_size ≤ capacity) →
       ∃ out, main capacity pow nsteps use_shared junk0 junk1 = Ok out).
Proof.
  intros Hnx Hny Hsz Hp Hn halo. split_and!.
  - intros x1' Hl q Hq0 Hq.
    apply (launch_frame gridDim blockDim x0 x1 x1' nx ny dt); [done..|].
    rewrite Z2Nat.id by lia. by apply halo_not_interior.
  - intros x1' Hl q Hq0 Hq.
    apply (launch_shared_frame gridDim blockDim size x0 x1 x1' nx ny dt); [done..|].
    rewrite Z2Nat.id by lia. by apply halo_not_interior.
  - intros out Hout q Hq.
    destruct (main_unfold capacity pow nsteps use_shared junk0 junk1 Hp) as [_ Hpow].
    destruct (main_cases capacity pow nsteps use_shared junk0 junk1 Hp Hn)
      as [Hf|(n & l & r & Hok)]; [congruence|].
    rewrite Hok in Hout. injection Hout as <-. cbn [x_host].
    destruct (ref_loop_halo 128 (2 ^ pow) lit_0_1 n
                (initial_grid 130 (2 ^ pow + 2), initial_grid 130 (2 ^ pow + 2))
                (Z.to_nat q)) as [-> _]; [|done|].
    + rewrite Z2Nat.id by lia. apply halo_not_interior.
      change (128 + 2) with 130. lia.
    + cbn [fst]. rewrite lookup_initial_grid by lia.
      rewrite Z2Nat.id by lia. f_equal.
      destruct (Z.ltb_spec q 130), (Z.leb_spec (130 * (2 ^ pow + 2 - 1)) q);
        simpl; (done || lia).
  - intros Hus. eexists. by apply main_defined.
Qed.

Lemma halo_never_written_witness :
  let halo q :=
    q / (1 + 2) = 0 ∨ q / (1 + 2) = 1 + 1
    ∨ q mod (1 + 2) = 0 ∨ q mod (1 + 2) = 1 + 1 in
  let x0 := replicate 9 1%float in
  let x1 := replicate 9 0%float in
  (∀ x1', launch (Dim3 1 1) (Dim3 16 16) (diffusion x0 1 1 lit_0_1) x1 = Ok x1' →
     ∀ q, 0 ≤ q → halo q → x1' !! Z.to_nat q = x1 !! Z.to_nat q)
  ∧ (∀ x1', launch_shared (Dim3 1 1) (Dim3 16 16) 2592 x0 1 1 lit_0_1 x1 = Ok x1' →
       ∀ q, 0 ≤ q → halo q → x1' !! Z.to_nat q = x1 !! Z.to_nat q)
  ∧ (∀ out, main 49152 4 2 true (λ _, 0%float) (λ _, 0%float) = Ok out →
       ∀ q, 0 ≤ q < 130 ∨ 130 * (2 ^ 4 + 1) ≤ q < 130 * (2 ^ 4 + 2) →
         out.(x_host) !! Z.to_nat q = Some lit_1)
  ∧ (∃ out, main 49152 4 2 true (λ _, 0%float) (λ _, 0%float) = Ok out).
Proof.
  intros halo x0 x1.
  destruct (halo_never_written (Dim3 1 1) (Dim3 16 16) 2592
              (replicate 9 1%float) (replicate 9 0%float) 1 1 lit_0_1
              49152 4 2 true (λ _, 0%float) (λ _, 0%float))
    as (Hnaive & Htiled & Hrows & Hdefined).
  - lia.
  - lia.
  - lia.
  - lia.
  - unfold INT_MAX. lia.
  - split_and!; [exact Hnaive|exact Htiled|exact Hrows|].
    apply Hdefined. intros _. split; [lia|]. rewrite shared_size_eq. lia.
Defined.



(** ** The staging buffer of the tiled kernel *)

(** C10. In the tiled kernel as the driver launches it (interior width 128,
    blocks of 16 by 16, 2592 bytes of staging buffer), every staging-buffer
    cell that the compute phase of a block reads has been written by the
    staging phase of that block exactly when the interior height [ny] is a
    multiple of 16.  For [ny = 2^p] with [p < 4] the only block row is
    partial: there is a unit on the last row of the domain, not on the south
    edge of its block, whose southern neighbour is outside the guarded domain
    and stages nothing; the cell below its own is still unwritten after the
    staging phase, and its compute phase reads it. *)
Theorem staging_complete_iff_full_blocks {T : Type} `{Arith T}
    (x0 : list T) (ny : Z) (dt : T) :
  sized 128 ny x0 → 0 < ny →
  ((∀ b, b ∈ indices (grid_dim 130 (ny + 2)) →
      ∃ buffer,
        stage_block x0 128 ny shared_size block_dim b = Ok buffer
        ∧ ∀ t x1, t ∈ indices block_dim →
            diffusion_shared_compute buffer 128 ny dt block_dim b t x1
            ≠ Fault UninitializedRead)
   ↔ ny mod 16 = 0)
  ∧ (∀ p, 0 ≤ p < 4 → ny = 2 ^ p →
       ∃ b t buffer,
         b ∈ indices (grid_dim 130 (ny + 2)) ∧ t ∈ indices block_dim
         ∧ in_domain block_dim b t 128 ny = true
         ∧ global_j block_dim b t = ny - 1
         ∧ in_domain block_dim b (Dim3 t.(x) (t.(y) + 1)) 128 ny = false
         ∧ stage_block x0 128 ny shared_size block_dim b = Ok buffer
         ∧ buffer !! Z.to_nat (shared_position block_dim t + 18) = Some None
         ∧ ∀ x1, diffusion_shared_compute buffer 128 ny dt block_dim b t x1
                 = Fault UninitializedRead).
Proof.
  intros Hs Hny. split; [split|].
  - intros Hall. destruct (Z.eq_dec (ny mod 16) 0) as [|Hmod]; [done|].
    destruct (last_row_unstaged x0 ny dt Hs Hny Hmod)
      as (Hb & Ht & _ & _ & _ & buffer & Hst & _ & Hread).
    destruct (Hall _ Hb) as (buffer' & Hst' & Hok).
    rewrite Hst in Hst'. injection Hst' as <-.
    destruct (Hok _ [] Ht). apply Hread.
  - intros Hmod b Hb.
    destruct (full_rows_staged x0 ny dt b Hs Hmod Hb) as (buffer & Hst & Heq).
    exists buffer. split; [done|]. intros t x1 Ht. rewrite Heq by done.
    by apply diffusion_no_uninitialized_read.
  - intros p Hp ->. pose proof (pow_below_16 p Hp) as Hlt.
    destruct (last_row_unstaged x0 (2 ^ p) dt Hs Hny)
      as (Hb & Ht & Hd & Hj & Hbelow & buffer & Hst & Hcell & Hread).
    { rewrite Z.mod_small; lia. }
    eexists _, _, buffer. by split_and!.
Qed.

Lemma staging_complete_iff_full_blocks_witness :
  let x0 := replicate 1300 0%float in
  let ny := 8 in
  let dt := lit_0_1 in
  ((∀ b, b ∈ indices (grid_dim 130 (ny + 2)) →
      ∃ buffer,
        stage_block x0 128 ny shared_size block_dim b = Ok buffer
        ∧ ∀ t x1, t ∈ indices block_dim →
            diffusion_shared_compute buffer 128 ny dt block_dim b t x1
            ≠ Fault UninitializedRead)
   ↔ ny mod 16 = 0)
  ∧ (∀ p, 0 ≤ p < 4 → ny = 2 ^ p →
       ∃ b t buffer,
         b ∈ indices (grid_dim 130 (ny + 2)) ∧ t ∈ indices block_dim
         ∧ in_domain block_dim b t 128 ny = true
         ∧ global_j block_dim b t = ny - 1
         ∧ in_domain block_dim b (Dim3 t.(x) (t.(y) + 1)) 128 ny = false
         ∧ stage_block x0 128 ny shared_size block_dim b = Ok buffer
         ∧ buffer !! Z.to_nat (shared_position block_dim t + 18) = Some None
         ∧ ∀ x1, diffusion_shared_compute buffer 128 ny dt block_dim b t x1
                 = Fault UninitializedRead).
Proof.
  apply (staging_complete_iff_full_blocks (replicate 1300 0%float) 8 lit_0_1).
  - unfold sized. split_and!; [lia|lia|lia|reflexivity].
  - lia.
Defined.

(** ** The barrier of the tiled kernel *)

(** C9, at [pow = 3].  The grid is 128 by 8 interior cells and the only block
    row has 16 rows of units: in block [(0, 0)] unit [(0, 0)] reaches the
    barrier and unit [(0, 8)] does not, so the barrier is not reached by
    every unit of the block. *)
Theorem barrier_skipped_at_pow_3 :
  let ny := 2 ^ 3 in
  let b := Dim3 0 0 in
  b ∈ indices (grid_dim 130 (ny + 2))
  ∧ Dim3 0 0 ∈ indices block_dim ∧ Dim3 0 8 ∈ indices block_dim
  ∧ reaches_barrier 128 ny block_dim b (Dim3 0 0) = true
  ∧ reaches_barrier 128 ny block_dim b (Dim3 0 8) = false
  ∧ barrier_uniform 128 ny block_dim b = false.
Proof.
  intros ny b. split_and!.
  - apply elem_of_indices. vm_compute. done.
  - apply elem_of_indices. vm_compute. done.
  - apply elem_of_indices. vm_compute. done.
  - reflexivity.
  - reflexivity.
  - vm_compute. reflexivity.
Qed.

(** ** The two strategies *)

(** C1, at [pow = 3], one step, a device with 48 KiB of staging buffer.  The
    naive strategy returns a grid; the tiled strategy is undefined: its
    first block is partial, and the barrier is reached by a part of the
    block only. *)
Theorem strategies_differ_at_pow_3 {T : Type} `{Arith T} (junk0 junk1 : nat → T) :
  main 49152 3 1 true junk0 junk1 = Fault BarrierDivergence
  ∧ ∃ g, main 49152 3 1 false junk0 junk1 = Ok (Outcome 0 g 1 0).
Proof.
  split.
  - apply main_diverges; [lia|unfold INT_MAX; lia|rewrite shared_size_eq; lia].
  - eexists. apply (main_defined 49152 3 1 false); [lia|unfold INT_MAX; lia|done].
Qed.

(** ** The staging-buffer capacity *)

(** C4 fails: on a device whose staging-buffer capacity is 1024 bytes, below
    the 2592 bytes of the tile, the tiled run of 100 steps at [pow = 8] ends
    with exit status 0, having issued its 100 launches, every one rejected
    by the device and none reported. *)
Lemma capacity_counterexample :
  1024 < shared_size
  ∧ main 1024 8 100 true (λ _, 0%float) (λ _, 0%float)
    = Ok (Outcome 0 (initial_grid 130 (2 ^ 8 + 2)) 100 100).
Proof.
  split; [by rewrite shared_size_eq|].
  apply (main_rejected 1024 8 100); [lia|unfold INT_MAX; lia|].
  rewrite shared_size_eq. lia.
Qed.

(** C4, amended.  When the tiled strategy is selected and the tile size,
    [(16+2)*(16+2)] doubles or 2592 bytes, exceeds the staging-buffer
    capacity of the device, the driver does not detect it: it issues all
    [nsteps] launches, the device rejects every one of them without running
    a unit, the driver never reads the error, and the run ends with exit
    status 0 and the initialised grid.  No time step is executed, in part or
    in whole. *)
Theorem capacity_never_checked {T : Type} `{Arith T}
    (capacity pow nsteps : Z) (junk0 junk1 : nat → T) :
  0 ≤ pow ≤ 23 → 0 ≤ nsteps ≤ INT_MAX → capacity < shared_size →
  shared_size = (16 + 2) * (16 + 2) * 8
  ∧ main capacity pow nsteps true junk0 junk1
    = Ok {| exit_status := 0;
            x_host := initial_grid 130 (2 ^ pow + 2);
            launches := Z.to_nat nsteps;
            unreported := Z.to_nat nsteps |}.
Proof.
  intros Hp Hn Hcap. split; [reflexivity|]. by apply main_rejected.
Qed.

Lemma capacity_never_checked_witness :
  shared_size = (16 + 2) * (16 + 2) * 8
  ∧ main 1024 8 100 true (λ _, 0%float) (λ _, 0%float)
    = Ok {| exit_status := 0;
            x_host := initial_grid 130 (2 ^ 8 + 2);
            launches := Z.to_nat 100;
            unreported := Z.to_nat 100 |}.
Proof.
  apply (capacity_never_checked 1024 8 100 (λ _, 0%float) (λ _, 0%float)).
  - lia.
  - unfold INT_MAX. lia.
  - reflexivity.
Defined.

(** ** Where the two strategies agree *)

(** X2. On a grid whose interior extents are multiples of 16, one launch of
    the tiled kernel is one launch of the naive kernel, and both perform the
    reference update: the results are equal cell for cell, in any
    arithmetic. *)
Theorem tiled_launch_is_naive_launch {T : Type} `{Arith T}
    (x0 x1 : list T) (nx ny : Z) (dt : T) :
  sized nx ny x0 → length x1 = length x0 → nx mod 16 = 0 → ny mod 16 = 0 →
  launch_shared (grid_dim (nx + 2) (ny + 2)) block_dim shared_size x0 nx ny dt x1
  = Ok (step_ref nx ny dt x0 x1)
  ∧ launch (grid_dim (nx + 2) (ny + 2)) block_dim (diffusion x0 nx ny dt) x1
    = Ok (step_ref nx ny dt x0 x1).
Proof.
  intros Hs Hlen Mx My. pose proof Hs as (Hnx & Hny & Hsz & _).
  assert (nx + 2 ≤ 2 ^ 31 ∧ ny + 2 ≤ 2 ^ 31) as [? ?] by nia.
  pose proof (grid_dim_covers (nx + 2) (ny + 2) ltac:(lia) ltac:(lia)) as Hc.
  pose proof (grid_dim_fits (nx + 2) (ny + 2) ltac:(lia) ltac:(lia)) as Hf.
  replace (nx + 2 - 2) with nx in Hc, Hf by lia.
  replace (ny + 2 - 2) with ny in Hc, Hf by lia.
  assert (launch (grid_dim (nx + 2) (ny + 2)) block_dim (diffusion x0 nx ny dt) x1
          = Ok (step_ref nx ny dt x0 x1)) as Hn by by apply diffusion_launch.
  split; [|done]. rewrite <- Hn. apply launch_shared_full; try done.
  by apply Hf.
Qed.

Lemma tiled_launch_is_naive_launch_witness :
  let x0 := replicate 324 1%float in
  let x1 := replicate 324 0%float in
  launch_shared (grid_dim (16 + 2) (16 + 2)) block_dim shared_size x0 16 16 lit_0_1 x1
  = Ok (step_ref 16 16 lit_0_1 x0 x1)
  ∧ launch (grid_dim (16 + 2) (16 + 2)) block_dim (diffusion x0 16 16 lit_0_1) x1
    = Ok (step_ref 16 16 lit_0_1 x0 x1).
Proof.
  apply (tiled_launch_is_naive_launch (replicate 324 1%float)
           (replicate 324 0%float) 16 16 lit_0_1).
  - unfold sized. split_and!; [lia|lia|lia|reflexivity].
  - reflexivity.
  - reflexivity.
  - reflexivity.
Defined.

(** X1. From [pow = 4] on, on a device whose staging buffer holds the tile,
    the two strategies return the same outcome, whatever the allocations
    held. *)
Theorem strategies_agree_from_pow_4 {T : Type} `{Arith T}
    (capacity pow nsteps : Z) (junk0 junk1 junk0' junk1' : nat → T) :
  4 ≤ pow ≤ 23 → 0 ≤ nsteps ≤ INT_MAX → shared_size ≤ capacity →
  ∃ out, main capacity pow nsteps true junk0 junk1 = Ok out
         ∧ main capacity pow nsteps false junk0' junk1' = Ok out.
Proof.
  intros Hp Hn Hcap. eexists. split.
  - apply main_defined; [lia|done|]. intros _. split; [lia|done].
  - apply main_defined; [lia|done|]. intros [=].
Qed.

Lemma strategies_agree_from_pow_4_witness :
  ∃ out, main 49152 8 100 true (λ _, 0%float) (λ _, 0%float) = Ok out
         ∧ main 49152 8 100 false (λ _, 1%float) (λ _, 1%float) = Ok out.
Proof.
  apply (strategies_agree_from_pow_4 49152 8 100).
  - lia.
  - unfold INT_MAX. lia.
  - rewrite shared_size_eq. lia.
Defined.

(** X3. As the driver launches the tiled kernel, every unit of every block
    reaches the barrier exactly when the interior height is a multiple of
    16. *)
Theorem barrier_reached_iff_full_blocks (ny : Z) :
  0 < ny → 130 * (ny + 2) ≤ 2 ^ 31 →
  (∀ b t, b ∈ indices (grid_dim 130 (ny + 2)) → t ∈ indices block_dim →
     reaches_barrier 128 ny block_dim b t = true)
  ↔ ny mod 16 = 0.
Proof.
  intros Hny Hsz.
  pose proof (grid_dim_covers 130 (ny + 2) ltac:(lia) ltac:(lia)) as Hc.
  replace (ny + 2 - 2) with ny in Hc by lia. change (130 - 2) with 128 in Hc.
  split.
  - intros Hall. destruct (Z.eq_dec (ny mod 16) 0) as [|Hmod]; [done|].
    specialize (Hall (Dim3 0 ((ny - 1) / 16)) (Dim3 0 ((ny - 1) mod 16 + 1))).
    unfold reaches_barrier in Hall.
    rewrite (in_domain_eq (grid_dim 130 (ny + 2))) in Hall; [|lia|lia|].
    + unfold block_dim in Hall. cbn [x y] in Hall.
      assert (Hin : Dim3 0 ((ny - 1) / 16) ∈ indices (grid_dim 130 (ny + 2))).
      { apply elem_of_indices. destruct Hc as (_ & _ & Hx & Hy).
        unfold block_dim in Hx, Hy. cbn [x y] in *. lia. }
      assert (Hin' : Dim3 0 ((ny - 1) mod 16 + 1) ∈ indices (Dim3 16 16)).
      { apply elem_of_indices. cbn [x y]. lia. }
      specialize (Hall Hin Hin'). apply andb_true_iff in Hall as [_ Hj]. lia.
    + split_and!; [done..| |].
      * apply elem_of_indices. destruct Hc as (_ & _ & Hx & Hy).
        unfold block_dim in Hx, Hy. cbn [x y] in *. lia.
      * apply elem_of_indices. unfold block_dim. cbn [x y]. lia.
  - intros Hmod b t Hb Ht. unfold reaches_barrier.
    apply (fits_in_domain (grid_dim 130 (ny + 2))); [lia|lia|by split_and!|].
    pose proof (grid_dim_fits 130 (ny + 2) ltac:(lia) ltac:(lia)
                  eq_refl ltac:(by replace (ny + 2 - 2) with ny by lia)) as Hf.
    by replace (ny + 2 - 2) with ny in Hf by lia.
Qed.

Lemma barrier_reached_iff_full_blocks_witness :
  (∀ b t, b ∈ indices (grid_dim 130 (16 + 2)) → t ∈ indices block_dim →
     reaches_barrier 128 16 block_dim b t = true)
  ↔ 16 mod 16 = 0.
Proof.
  apply (barrier_reached_iff_full_blocks 16); lia.
Defined.

(** ** The maximum principle for any stable time step *)



(** * Further properties of the code *)

(** ** What [main] computes *)

Section main_outcome.
Context {T : Type} `{Arith T}.

(** [main] in closed form: the run is undefined exactly for the tiled
    strategy below [pow = 4] with at least one step on a device that accepts
    the launch; otherwise it ends with exit status 0, [nsteps] launches and
    the grid of the reference loop, which is the initial grid when the device
    rejects every launch. *)
Lemma main_closed_form (capacity pow nsteps : Z) (use_shared : bool)
    (junk0 junk1 : nat → T) :
  0 ≤ pow ≤ 23 → 0 ≤ nsteps ≤ INT_MAX →
  main capacity pow nsteps use_shared junk0 junk1
  = if use_shared && (shared_size <=? capacity) && (pow <? 4) && (0 <? nsteps)
    then Fault BarrierDivergence
    else
      let refused := use_shared && (capacity <? shared_size) in
      Ok (Outcome 0
            (ref_loop 128 (2 ^ pow) lit_0_1
               (if refused then O else Z.to_nat nsteps)
               (initial_grid 130 (2 ^ pow + 2),
                initial_grid 130 (2 ^ pow + 2))).1
            (Z.to_nat nsteps)
            (if refused then Z.to_nat nsteps else O)).
Proof.
  intros Hp Hn. destruct use_shared; cbn [andb].
  - destruct (Z.leb_spec shared_size capacity) as [Hcap|Hcap]; cbn [andb].
    + destruct (Z.ltb_spec capacity shared_size); [lia|].
      destruct (Z.ltb_spec pow 4) as [Hlt|Hge]; cbn [andb].
      * destruct (Z.ltb_spec 0 nsteps) as [Hpos|Hz].
        -- apply main_diverges; lia.
        -- assert (nsteps = 0) as -> by lia. by rewrite main_zero.
      * apply main_defined; [done..|]. intros _. lia.
    + destruct (Z.ltb_spec capacity shared_size); [|lia].
      by apply main_rejected.
  - apply main_defined; [done..|]. intros [=].
Qed.

End main_outcome.

(** X5. [main] never reads what the allocations held: for all parameters in
    range, the outcome, or the fault, is the same whatever the device memory
    contained before the fills. *)
Theorem main_ignores_uninitialized_memory {T : Type} `{Arith T}
    (capacity pow nsteps : Z) (use_shared : bool)
    (junk0 junk1 junk0' junk1' : nat → T) :
  0 ≤ pow ≤ 23 → 0 ≤ nsteps ≤ INT_MAX →
  main capacity pow nsteps use_shared junk0 junk1
  = main capacity pow nsteps use_shared junk0' junk1'.
Proof.
  intros Hp Hn.
  by rewrite (main_closed_form capacity pow nsteps use_shared junk0 junk1),
    (main_closed_form capacity pow nsteps use_shared junk0' junk1').
Qed.

Lemma main_ignores_uninitialized_memory_witness :
  main 49152 3 5 true (λ _, 0%float) (λ _, 1%float)
  = main 49152 3 5 true (λ k, PrimFloat.of_uint63 (Uint63.of_Z (Z.of_nat k))) (λ _, 7%float).
Proof.
  apply (main_ignores_uninitialized_memory 49152 3 5 true).
  - lia.
  - unfold INT_MAX. lia.
Defined.



(** ** The fill operation: bounds and composition *)

Lemma store_out_of_bounds {A : Type} (m : list A) (p : Z) (v : A) :
  ¬ (0 ≤ p < Z.of_nat (length m)) → store m p v = Fault OutOfBounds.
Proof.
  intros Hp. unfold store.
  destruct (Z.leb_spec 0 p), (Z.ltb_spec p (Z.of_nat (length m)));
    simpl; (done || lia).
Qed.

Lemma length_store {A : Type} (m m' : list A) (p : Z) (v : A) :
  store m p v = Ok m' → length m' = length m.
Proof.
  unfold store. destruct (_ && _); [|done]. intros [= <-]. apply length_insert.
Qed.

(** A fold of guarded stores of which one is out of bounds faults. *)
Lemma foldM_stores_fault {I A : Type} (act : I → bool) (pos : I → Z) (F : Z → A)
    (step : I → list A → result (list A)) (n : Z) (l : list I) :
  (∀ t m, t ∈ l → Z.of_nat (length m) = n →
     step t m = if act t then store m (pos t) (F (pos t)) else Ok m) →
  (∃ t, t ∈ l ∧ act t = true ∧ ¬ (0 ≤ pos t < n)) →
  ∀ m, Z.of_nat (length m) = n → foldM step l m = Fault OutOfBounds.
Proof.
  induction l as [|t l IH]; intros Hstep (u & Hin & Hact & Hpos) m Hlen.
  { by apply elem_of_nil in Hin. }
  cbn [foldM]. rewrite Hstep; [|apply list_elem_of_here|done].
  destruct (act t) eqn:Ha.
  - destruct (decide (0 ≤ pos t < n)) as [Hr|Hr].
    + rewrite store_Ok, bind_Ok by lia. apply IH.
      * intros t' m' Ht' Hm'. apply Hstep; [by apply list_elem_of_further|done].
      * apply elem_of_cons in Hin as [->|Hin]; [done|]. eauto.
      * rewrite length_insert. done.
    + rewrite store_out_of_bounds by lia. done.
  - rewrite bind_Ok. apply IH; [ | | done].
    + intros t' m' Ht' Hm'. apply Hstep; [by apply list_elem_of_further|done].
    + apply elem_of_cons in Hin as [->|Hin]; [congruence|]. eauto.
Qed.

(** X7. When [fill_gpu] fails.  For a count that is a non-negative [int]
    (with room for the last block of 192 units), [fill_gpu] writes outside
    the allocation, which is undefined, exactly when the count is positive
    and the [n] cells from the start do not all lie inside the allocation;
    with a count of 0 it launches nothing and returns the memory as it is,
    wherever the start points. *)
Theorem fill_gpu_fails_exactly_when {A : Type} (m : list A) (v : Z) (value : A) (n : Z) :
  0 ≤ n ≤ INT_MAX - 190 →
  (fill_gpu m v value n = Fault OutOfBounds
   ↔ 0 < n ∧ ¬ (0 ≤ v ∧ v + n ≤ Z.of_nat (length m)))
  ∧ (∀ f, fill_gpu m v value n = Fault f → f = OutOfBounds)
  ∧ (n = 0 → fill_gpu m v value n = Ok m).
Proof.
  intros Hn.
  assert (Hzero : fill_gpu m v value 0 = Ok m) by reflexivity.
  assert (Hbad : 0 < n → ¬ (0 ≤ v ∧ v + n ≤ Z.of_nat (length m)) →
                 fill_gpu m v value n = Fault OutOfBounds).
  { intros Hpos Hout. unfold fill_gpu, INT_MAX in *.
    pose proof (fill_grid_bounds n ltac:(lia)) as Hg. cbv zeta in Hg.
    rewrite (u64_small n) by lia.
    set (g := n / 192 + (if n mod 192 =? 0 then 0 else 1)) in *.
    rewrite (u64_small g), (u32_small g), (u32_small 192) by lia.
    rewrite launch_units.
    apply (foldM_stores_fault (λ u, u.2.(x) + 192 * u.1.(x) <? n)
             (λ u, v + (u.2.(x) + 192 * u.1.(x))) (λ _, value)
             (λ u, fill v value n (Dim3 192 1) u.1 u.2)
             (Z.of_nat (length m))); [| |done].
    - intros [b t] m0 Hin _. apply elem_of_units in Hin as [Hb Ht].
      apply elem_of_indices in Hb, Ht. simpl in *.
      apply fill_in_range; unfold INT_MAX; simpl; lia.
    - set (k := if decide (v < 0) then 0 else n - 1).
      exists (Dim3 (k / 192) 0, Dim3 (k mod 192) 0).
      assert (0 ≤ k < n) by (subst k; destruct (decide (v < 0)); lia).
      split_and!.
      + apply elem_of_units. rewrite !elem_of_indices. simpl. lia.
      + simpl. lia.
      + simpl. subst k. destruct (decide (v < 0)); lia. }
  split_and!.
  - split.
    + intros Hf. destruct (Z.eq_dec n 0) as [->|Hpos]; [congruence|].
      split; [lia|]. intros [Hv Hlen].
      destruct (fill_gpu_spec m v value n Hn Hv Hlen) as (m' & Hm' & _).
      congruence.
    + intros [Hpos Hout]. by apply Hbad.
  - intros f Hf. destruct (Z.eq_dec n 0) as [->|Hpos]; [congruence|].
    destruct (decide (0 ≤ v ∧ v + n ≤ Z.of_nat (length m))) as [[Hv Hlen]|Hout].
    + destruct (fill_gpu_spec m v value n Hn Hv Hlen) as (m' & Hm' & _).
      congruence.
    + rewrite Hbad in Hf by (done || lia). congruence.
  - by intros ->.
Qed.

Lemma fill_gpu_fails_exactly_when_witness :
  (fill_gpu [7; 7; 7] 1 0 3 = Fault OutOfBounds
   ↔ 0 < 3 ∧ ¬ (0 ≤ 1 ∧ 1 + 3 ≤ Z.of_nat (length [7; 7; 7])))
  ∧ (∀ f, fill_gpu [7; 7; 7] 1 0 3 = Fault f → f = OutOfBounds)
  ∧ (3 = 0 → fill_gpu [7; 7; 7] 1 0 3 = Ok [7; 7; 7]).
Proof.
  apply (fill_gpu_fails_exactly_when [7; 7; 7] 1 0 3). unfold INT_MAX. lia.
Defined.

(** X8. How fills compose.  A fill of a range that was filled before
    overwrites it: the memory is as if only the second fill had run.  Fills
    of two ranges that do not overlap commute. *)
Theorem fill_gpu_composes {A : Type} (m : list A) (v1 v2 : Z) (a b : A) (n1 n2 : Z) :
  0 ≤ n1 ≤ INT_MAX - 190 → 0 ≤ n2 ≤ INT_MAX - 190 →
  0 ≤ v1 → v1 + n1 ≤ Z.of_nat (length m) →
  0 ≤ v2 → v2 + n2 ≤ Z.of_nat (length m) →
  (m1 ← fill_gpu m v1 a n1; fill_gpu m1 v1 b n1) = fill_gpu m v1 b n1
  ∧ (v1 + n1 ≤ v2 ∨ v2 + n2 ≤ v1 →
       (m1 ← fill_gpu m v1 a n1; fill_gpu m1 v2 b n2)
       = (m2 ← fill_gpu m v2 b n2; fill_gpu m2 v1 a n1)).
Proof.
  intros Hn1 Hn2 Hv1 Hl1 Hv2 Hl2.
  destruct (fill_gpu_spec m v1 a n1) as (ma & Ea & La & Qa); [done..|].
  destruct (fill_gpu_spec m v1 b n1) as (mb & Eb & Lb & Qb); [done..|].
  destruct (fill_gpu_spec m v2 b n2) as (m2 & E2 & L2 & Q2); [done..|].
  destruct (fill_gpu_spec ma v1 b n1) as (mab & Eab & Lab & Qab); [done|done|lia|].
  destruct (fill_gpu_spec ma v2 b n2) as (ma2 & Ea2 & La2 & Qa2); [done|done|lia|].
  destruct (fill_gpu_spec m2 v1 a n1) as (m2a & E2a & L2a & Q2a); [done|done|lia|].
  rewrite Ea, E2, !bind_Ok. split.
  - rewrite Eab, Eb. f_equal. apply list_eq. intros k.
    specialize (Qab (Z.of_nat k) ltac:(lia)). specialize (Qb (Z.of_nat k) ltac:(lia)).
    specialize (Qa (Z.of_nat k) ltac:(lia)). rewrite Nat2Z.id in Qab, Qb, Qa.
    rewrite Qab, Qb, Qa. by destruct (_ && _).
  - intros Hdis. rewrite Ea2, E2a. f_equal. apply list_eq. intros k.
    specialize (Qa2 (Z.of_nat k) ltac:(lia)). specialize (Q2a (Z.of_nat k) ltac:(lia)).
    specialize (Qa (Z.of_nat k) ltac:(lia)). specialize (Q2 (Z.of_nat k) ltac:(lia)).
    rewrite Nat2Z.id in Qa2, Q2a, Qa, Q2. rewrite Qa2, Q2a, Qa, Q2.
    destruct (Z.leb_spec v1 (Z.of_nat k)), (Z.ltb_spec (Z.of_nat k) (v1 + n1)),
      (Z.leb_spec v2 (Z.of_nat k)), (Z.ltb_spec (Z.of_nat k) (v2 + n2));
      simpl; (done || lia).
Qed.

Lemma fill_gpu_composes_witness :
  (m1 ← fill_gpu [7; 7; 7; 7; 7] 0 1 2; fill_gpu m1 0 2 2)
  = fill_gpu [7; 7; 7; 7; 7] 0 2 2
  ∧ (0 + 2 ≤ 3 ∨ 3 + 2 ≤ 0 →
       (m1 ← fill_gpu [7; 7; 7; 7; 7] 0 1 2; fill_gpu m1 3 2 2)
       = (m2 ← fill_gpu [7; 7; 7; 7; 7] 3 2 2; fill_gpu m2 0 1 2)).
Proof.
  apply (fill_gpu_composes [7; 7; 7; 7; 7] 0 3 1 2 2 2).
  - unfold INT_MAX. lia.
  - unfold INT_MAX. lia.
  - lia.
  - simpl. lia.
  - lia.
  - simpl. lia.
Defined.

(** ** The naive kernel: schedules, bounds and what it reads *)

Lemma written_perm {I : Type} (act : I → bool) (pos : I → Z) (l l' : list I) (q : Z) :
  l ≡ₚ l' → written act pos l q = written act pos l' q.
Proof.
  intros Hp. apply eq_true_iff_eq. rewrite !written_true.
  split; intros (t & Hin & Ht); exists t; split; try done.
  - by rewrite <- Hp.
  - by rewrite Hp.
Qed.

(** X9. The naive kernel has no race.  In a launch over a covering geometry
    no two units store to the same cell, and whatever the order in which the
    device runs the units of the launch, the destination ends as after the
    launch in block and unit order. *)
Theorem diffusion_any_schedule {T : Type} `{Arith T} (gd bd : dim3)
    (x0 x1 : list T) (nx ny : Z) (dt : T) (schedule : list (dim3 * dim3)) :
  sized nx ny x0 → length x1 = length x0 → covers gd bd nx ny →
  schedule ≡ₚ units gd bd →
  foldM (λ u, diffusion x0 nx ny dt bd u.1 u.2) schedule x1
  = launch gd bd (diffusion x0 nx ny dt) x1
  ∧ (∀ u u', u ∈ units gd bd → u' ∈ units gd bd →
       in_domain bd u.1 u.2 nx ny = true → in_domain bd u'.1 u'.2 nx ny = true →
       position (global_i bd u.1 u.2) (global_j bd u.1 u.2) (nx + 2)
       = position (global_i bd u'.1 u'.2) (global_j bd u'.1 u'.2) (nx + 2) →
       u = u').
Proof.
  intros Hs Hlen Hc Hperm. pose proof Hs as (Hnx & Hny & Hsz & Hl0).
  assert (nx < 2 ^ 31 ∧ ny < 2 ^ 31) as [? ?] by nia.
  split.
  - rewrite diffusion_launch by done.
    destruct (foldM_stores
                (λ u, (global_i bd u.1 u.2 <? nx) && (global_j bd u.1 u.2 <? ny))
                (λ u, linear nx (global_i bd u.1 u.2) (global_j bd u.1 u.2))
                (stencil dt x0 (nx + 2))
                (λ u, diffusion x0 nx ny dt bd u.1 u.2)
                (Z.of_nat (length x1)) schedule) with x1
      as (m' & Hm' & Hlen' & Hq); [..|done|].
    + intros [b t] m _ _. by apply diffusion_shape.
    + intros [b t] _ Hact. simpl in *. apply andb_true_iff in Hact as [Hi Hj].
      pose proof (u32_range (x t + u32 (x b * x bd))) as Ri.
      pose proof (u32_range (y t + u32 (y b * y bd))) as Rj.
      fold (global_i bd b t) in *. fold (global_j bd b t) in *.
      pose proof (linear_bounds nx ny (global_i bd b t) (global_j bd b t)
                    ltac:(lia) ltac:(lia)). lia.
    + rewrite Hm'. f_equal. apply list_eq. intros k.
      specialize (Hq (Z.of_nat k) ltac:(lia)). rewrite Nat2Z.id in Hq.
      rewrite Hq, (written_perm _ _ _ _ _ Hperm), written_interior by done.
      unfold step_ref. rewrite list_lookup_imap.
      destruct (x1 !! k) as [old|] eqn:Ek; simpl.
      * by destruct (interior nx ny (Z.of_nat k)).
      * destruct (interior nx ny (Z.of_nat k)) eqn:Eint; [|done].
        apply lookup_ge_None in Ek.
        apply interior_inv in Eint as (i & j & Hi & Hj & Hk); [|done].
        pose proof (linear_bounds nx ny i j Hi Hj). lia.
  - destruct Hc as (Hbx & Hby & Hgx & Hgy).
    intros [b t] [b' t'] Hin Hin' Hd Hd' Hpos. simpl in *.
    apply elem_of_units in Hin as [Hb Ht], Hin' as [Hb' Ht'].
    apply elem_of_indices in Hb, Ht, Hb', Ht'.
    unfold in_domain in Hd, Hd'. rewrite (u32_small nx), (u32_small ny) in Hd, Hd' by lia.
    apply andb_true_iff in Hd as [Hi Hj], Hd' as [Hi' Hj'].
    destruct (global_coordinate t.(x) b.(x) bd.(x) gd.(x)) as [Ei ?]; [lia..|].
    destruct (global_coordinate t.(y) b.(y) bd.(y) gd.(y)) as [Ej ?]; [lia..|].
    destruct (global_coordinate t'.(x) b'.(x) bd.(x) gd.(x)) as [Ei' ?]; [lia..|].
    destruct (global_coordinate t'.(y) b'.(y) bd.(y) gd.(y)) as [Ej' ?]; [lia..|].
    unfold global_i, global_j in *. rewrite Ei, Ej, Ei', Ej' in *.
    rewrite !(position_linear nx ny) in Hpos by lia.
    unfold linear in Hpos.
    apply linear_unique in Hpos as [Hx Hy]; [|lia..].
    assert (x t + x b * x bd = x t' + x b' * x bd) as Hx' by lia.
    assert (y t + y b * y bd = y t' + y b' * y bd) as Hy' by lia.
    apply linear_unique in Hx' as [? ?]; [|lia..].
    apply linear_unique in Hy' as [? ?]; [|lia..].
    destruct b, t, b', t'; simpl in *; by subst.
Qed.

Lemma diffusion_any_schedule_witness :
  let x0 := [1; 1; 1; 1; 0; 0; 0; 0; 0; 0; 0; 0; 1; 1; 1; 1]%float in
  let schedule := rev (units (Dim3 1 1) (Dim3 2 2)) in
  foldM (λ u, diffusion x0 2 2 lit_0_1 (Dim3 2 2) u.1 u.2) schedule x0
  = launch (Dim3 1 1) (Dim3 2 2) (diffusion x0 2 2 lit_0_1) x0
  ∧ (∀ u u', u ∈ units (Dim3 1 1) (Dim3 2 2) → u' ∈ units (Dim3 1 1) (Dim3 2 2) →
       in_domain (Dim3 2 2) u.1 u.2 2 2 = true →
       in_domain (Dim3 2 2) u'.1 u'.2 2 2 = true →
       position (global_i (Dim3 2 2) u.1 u.2) (global_j (Dim3 2 2) u.1 u.2) (2 + 2)
       = position (global_i (Dim3 2 2) u'.1 u'.2) (global_j (Dim3 2 2) u'.1 u'.2) (2 + 2) →
       u = u').
Proof.
  apply (diffusion_any_schedule (Dim3 1 1) (Dim3 2 2)
           [1; 1; 1; 1; 0; 0; 0; 0; 0; 0; 0; 0; 1; 1; 1; 1]%float
           [1; 1; 1; 1; 0; 0; 0; 0; 0; 0; 0; 0; 1; 1; 1; 1]%float 2 2 lit_0_1).
  - unfold sized. split_and!; [lia|lia|lia|reflexivity].
  - reflexivity.
  - unfold covers. simpl. lia.
  - symmetry. apply Permutation_rev.
Defined.

Lemma load_fault {A : Type} (m : list A) (p : Z) (f : fault) :
  load m p = Fault f → f = OutOfBounds.
Proof. unfold load. repeat case_match; congruence. Qed.

Lemma store_fault {A : Type} (m : list A) (p : Z) (v : A) (f : fault) :
  store m p v = Fault f → f = OutOfBounds.
Proof. unfold store. repeat case_match; congruence. Qed.

Lemma load_out_of_bounds {A : Type} (m : list A) (p : Z) :
  ¬ (0 ≤ p < Z.of_nat (length m)) → load m p = Fault OutOfBounds.
Proof.
  intros Hp. unfold load.
  destruct (Z.leb_spec 0 p), (Z.ltb_spec p (Z.of_nat (length m)));
    simpl; (done || lia).
Qed.

(** A fold whose steps keep an invariant or fail with [e] does the same. *)
Lemma foldM_cases {I S : Type} (step : I → S → result S) (P : S → Prop) (e : fault)
    (l : list I) :
  (∀ t s, t ∈ l → P s → (∃ s', step t s = Ok s' ∧ P s') ∨ step t s = Fault e) →
  ∀ s, P s → (∃ s', foldM step l s = Ok s' ∧ P s') ∨ foldM step l s = Fault e.
Proof.
  induction l as [|t l IH]; intros Hstep s Hs; [left; eauto|].
  cbn [foldM].
  destruct (Hstep t s (list_elem_of_here _ _) Hs) as [(s' & -> & Hs')| ->]; [|by right].
  rewrite bind_Ok. apply IH; [|done].
  intros. apply Hstep; [by apply list_elem_of_further|done].
Qed.

(** If, moreover, one of the steps fails in every state, the fold fails. *)
Lemma foldM_fault {I S : Type} (step : I → S → result S) (P : S → Prop) (e : fault)
    (l : list I) :
  (∀ t s, t ∈ l → P s → (∃ s', step t s = Ok s' ∧ P s') ∨ step t s = Fault e) →
  (∃ t, t ∈ l ∧ ∀ s, P s → step t s = Fault e) →
  ∀ s, P s → foldM step l s = Fault e.
Proof.
  induction l as [|t l IH]; intros Hstep (u & Hin & Hu) s Hs.
  { by apply elem_of_nil in Hin. }
  cbn [foldM].
  destruct (Hstep t s (list_elem_of_here _ _) Hs) as [(s' & E & Hs')|E]; rewrite E; [|done].
  rewrite bind_Ok. apply elem_of_cons in Hin as [->|Hin].
  { rewrite Hu in E by done. congruence. }
  apply IH; [|eauto|done].
  intros. apply Hstep; [by apply list_elem_of_further|done].
Qed.

Section bounds.
Context {T : Type} `{Arith T}.

(** A unit of [diffusion] keeps the length of the destination, or accesses
    memory out of bounds. *)
Lemma diffusion_unit_cases (x0 : list T) (nx ny : Z) (dt : T) (bd b t : dim3) (m : list T) :
  (∃ m', diffusion x0 nx ny dt bd b t m = Ok m' ∧ length m' = length m)
  ∨ diffusion x0 nx ny dt bd b t m = Fault OutOfBounds.
Proof.
  unfold diffusion. destruct (_ && _); [|left; eauto]. cbv zeta.
  repeat match goal with
  | |- context [load ?m ?p ≫= _] =>
      let E := fresh "E" in
      destruct (load m p) eqn:E;
        [rewrite bind_Ok | apply load_fault in E as ->; by right]
  end.
  match goal with |- context [store ?m ?p ?v] => destruct (store m p v) eqn:Es end.
  - left. eauto using length_store.
  - apply store_fault in Es as ->. by right.
Qed.

(** [diffusion_shape] for a source that may lack the last corner cell. *)
Lemma diffusion_shape_ge (x0 : list T) (nx ny : Z) (dt : T) (bd b t : dim3) (m : list T) :
  0 ≤ nx → 0 ≤ ny → (nx + 2) * (ny + 2) ≤ 2 ^ 31 →
  (nx + 2) * (ny + 2) - 1 ≤ Z.of_nat (length x0) →
  diffusion x0 nx ny dt bd b t m =
    if (global_i bd b t <? nx) && (global_j bd b t <? ny)
    then store m (linear nx (global_i bd b t) (global_j bd b t))
               (stencil dt x0 (nx + 2)
                  (linear nx (global_i bd b t) (global_j bd b t)))
    else Ok m.
Proof.
  intros Hnx Hny Hsz Hlen. unfold diffusion.
  assert (nx < 2 ^ 31 ∧ ny < 2 ^ 31) as [? ?] by nia.
  rewrite (u32_small nx), (u32_small ny) by lia.
  pose proof (u32_range (x t + u32 (x b * x bd))) as Hi.
  pose proof (u32_range (y t + u32 (y b * y bd))) as Hj.
  fold (global_i bd b t) in *. fold (global_j bd b t) in *.
  destruct (global_i bd b t <? nx) eqn:Ei; [|done].
  destruct (global_j bd b t <? ny) eqn:Ej; [|done].
  cbn [andb]. cbv zeta.
  pose proof (linear_bounds nx ny (global_i bd b t) (global_j bd b t)
                ltac:(lia) ltac:(lia)) as [Hlo Hhi].
  rewrite (position_linear nx ny) by lia.
  rewrite (u32_small (nx + 2)) by lia.
  rewrite !u32_small by lia.
  assert (linear nx (global_i bd b t) (global_j bd b t) + (nx + 2)
          < (nx + 2) * (ny + 2) - 1) by (unfold linear; nia).
  rewrite !load_cell by lia. done.
Qed.

End bounds.

(** X10. Memory safety of the naive kernel.  A launch of [diffusion] over a
    covering geometry stays inside the two buffers exactly when the source
    holds the padded grid up to its last cell but one and the destination
    holds it up to the last interior cell; with a shorter buffer the launch
    accesses memory out of bounds, and it has no other undefined
    behaviour. *)
Theorem diffusion_memory_safe_iff {T : Type} `{Arith T} (gd bd : dim3)
    (x0 x1 : list T) (nx ny : Z) (dt : T) :
  0 < nx → 0 < ny → (nx + 2) * (ny + 2) ≤ 2 ^ 31 → covers gd bd nx ny →
  ((∃ m, launch gd bd (diffusion x0 nx ny dt) x1 = Ok m ∧ length m = length x1)
   ↔ (nx + 2) * (ny + 2) - 1 ≤ Z.of_nat (length x0)
     ∧ (nx + 2) * (ny + 1) - 1 ≤ Z.of_nat (length x1))
  ∧ (launch gd bd (diffusion x0 nx ny dt) x1 = Fault OutOfBounds
     ↔ ¬ ((nx + 2) * (ny + 2) - 1 ≤ Z.of_nat (length x0)
          ∧ (nx + 2) * (ny + 1) - 1 ≤ Z.of_nat (length x1)))
  ∧ (∀ f, launch gd bd (diffusion x0 nx ny dt) x1 = Fault f → f = OutOfBounds).
Proof.
  intros Hnx Hny Hsz Hc. rewrite launch_units.
  set (step := λ u : dim3 * dim3, diffusion x0 nx ny dt bd u.1 u.2).
  assert (nx < 2 ^ 31 ∧ ny < 2 ^ 31) as [? ?] by nia.
  assert (Hcases : ∀ u s, u ∈ units gd bd → length s = length x1 →
            (∃ s', step u s = Ok s' ∧ length s' = length x1) ∨ step u s = Fault OutOfBounds).
  { intros u s _ Hs. destruct (diffusion_unit_cases x0 nx ny dt bd u.1 u.2 s)
      as [(s' & E & Hs')|E]; [left|by right]. exists s'. split; [done|congruence]. }
  assert (Hsafe : (nx + 2) * (ny + 2) - 1 ≤ Z.of_nat (length x0) →
                  (nx + 2) * (ny + 1) - 1 ≤ Z.of_nat (length x1) →
                  ∃ m, foldM step (units gd bd) x1 = Ok m ∧ length m = length x1).
  { intros Hsrc Hdst.
    destruct (foldM_stores
                (λ u, (global_i bd u.1 u.2 <? nx) && (global_j bd u.1 u.2 <? ny))
                (λ u, linear nx (global_i bd u.1 u.2) (global_j bd u.1 u.2))
                (stencil dt x0 (nx + 2)) step
                (Z.of_nat (length x1)) (units gd bd)) with x1
      as (m' & Hm' & Hlen' & _); [..|done|].
    - intros [b t] m _ _. apply diffusion_shape_ge; lia.
    - intros [b t] _ Hact. simpl in *. apply andb_true_iff in Hact as [Hi Hj].
      pose proof (u32_range (x t + u32 (x b * x bd))) as Ri.
      pose proof (u32_range (y t + u32 (y b * y bd))) as Rj.
      fold (global_i bd b t) in *. fold (global_j bd b t) in *.
      unfold linear. nia.
    - exists m'. split; [done|lia]. }
  assert (Hunsafe : ¬ ((nx + 2) * (ny + 2) - 1 ≤ Z.of_nat (length x0)
                       ∧ (nx + 2) * (ny + 1) - 1 ≤ Z.of_nat (length x1)) →
                    foldM step (units gd bd) x1 = Fault OutOfBounds).
  { intros Hshort.
    apply (foldM_fault step (λ s, length s = length x1)); [done| |done].
    destruct Hc as (Hbx & Hby & Hgx & Hgy).
    destruct (cover bd.(x) gd.(x) nx (nx - 1)) as (? & ? & Ei); [lia..|].
    destruct (cover bd.(y) gd.(y) ny (ny - 1)) as (? & ? & Ej); [lia..|].
    set (b := Dim3 ((nx - 1) / bd.(x)) ((ny - 1) / bd.(y))).
    set (t := Dim3 ((nx - 1) mod bd.(x)) ((ny - 1) mod bd.(y))).
    destruct (global_coordinate t.(x) b.(x) bd.(x) gd.(x)) as [Gi _]; [simpl; lia..|].
    destruct (global_coordinate t.(y) b.(y) bd.(y) gd.(y)) as [Gj _]; [simpl; lia..|].
    exists (b, t). split.
    { apply elem_of_units. rewrite !elem_of_indices. simpl. lia. }
    intros s Hs. unfold step, diffusion, global_i, global_j. cbn [fst snd].
    rewrite Gi, Gj. simpl (x t). simpl (x b). simpl (y t). simpl (y b).
    rewrite Ei, Ej, (u32_small nx), (u32_small ny) by lia.
    destruct (Z.ltb_spec (nx - 1) nx); [|lia].
    destruct (Z.ltb_spec (ny - 1) ny); [|lia]. cbn [andb]. cbv zeta.
    rewrite (position_linear nx ny) by lia.
    assert (linear nx (nx - 1) (ny - 1) = nx + ny * (nx + 2)) as -> by (unfold linear; lia).
    rewrite (u32_small (nx + 2)) by lia. rewrite !u32_small by nia.
    destruct (decide ((nx + 2) * (ny + 2) - 1 ≤ Z.of_nat (length x0))) as [Hsrc|Hsrc].
    - rewrite !load_cell by nia. rewrite !bind_Ok.
      apply store_out_of_bounds. nia.
    - repeat match goal with
      | |- context [load ?m ?p ≫= _] =>
          let E := fresh "E" in
          destruct (load m p) eqn:E;
            [rewrite bind_Ok | apply load_fault in E as ->; done]
      end.
      exfalso.
      match goal with E : load x0 (nx + ny * (nx + 2) + (nx + 2)) = Ok _ |- _ =>
        rewrite load_out_of_bounds in E by nia; congruence end. }
  split_and!.
  - split.
    + intros (m & Hm & _).
      destruct (decide ((nx + 2) * (ny + 2) - 1 ≤ Z.of_nat (length x0)
                        ∧ (nx + 2) * (ny + 1) - 1 ≤ Z.of_nat (length x1))) as [|Hn]; [done|].
      rewrite Hunsafe in Hm by done. congruence.
    + intros [Hsrc Hdst]. by apply Hsafe.
  - split.
    + intros Hf [Hsrc Hdst]. destruct (Hsafe Hsrc Hdst) as (m & Hm & _). congruence.
    + apply Hunsafe.
  - intros f Hf.
    destruct (foldM_cases step (λ s, length s = length x1) OutOfBounds (units gd bd)
                Hcases x1 eq_refl) as [(s' & E & _)|E]; congruence.
Qed.

Lemma diffusion_memory_safe_iff_witness :
  let x0 := replicate 15 1%float in
  let x1 := replicate 11 0%float in
  ((∃ m, launch (Dim3 1 1) (Dim3 2 2) (diffusion x0 2 2 lit_0_1) x1 = Ok m
         ∧ length m = length x1)
   ↔ (2 + 2) * (2 + 2) - 1 ≤ Z.of_nat (length x0)
     ∧ (2 + 2) * (2 + 1) - 1 ≤ Z.of_nat (length x1))
  ∧ (launch (Dim3 1 1) (Dim3 2 2) (diffusion x0 2 2 lit_0_1) x1 = Fault OutOfBounds
     ↔ ¬ ((2 + 2) * (2 + 2) - 1 ≤ Z.of_nat (length x0)
          ∧ (2 + 2) * (2 + 1) - 1 ≤ Z.of_nat (length x1)))
  ∧ (∀ f, launch (Dim3 1 1) (Dim3 2 2) (diffusion x0 2 2 lit_0_1) x1 = Fault f
          → f = OutOfBounds).
Proof.
  apply (diffusion_memory_safe_iff (Dim3 1 1) (Dim3 2 2)
           (replicate 15 1%float) (replicate 11 0%float) 2 2 lit_0_1).
  - lia.
  - lia.
  - lia.
  - unfold covers. simpl. lia.
Defined.

(** ** The tiled kernel on any geometry *)

Section tiled_general.
Context {T : Type} `{Arith T}.

(** A block of the tiled kernel whose units agree at the barrier does what
    the same block of the naive kernel does. *)
Lemma block_cases (x0 x1 : list T) (nx ny : Z) (dt : T) (ssize : Z) (gd bd b : dim3) :
  sized nx ny x0 → covers gd bd nx ny →
  (bd.(x) + 2) * (bd.(y) + 2) < 2 ^ 32 → ssize / 8 = (bd.(x) + 2) * (bd.(y) + 2) →
  b ∈ indices gd →
  diffusion_shared x0 nx ny dt ssize bd b x1
  = if barrier_uniform nx ny bd b
    then foldM (diffusion x0 nx ny dt bd b) (indices bd) x1
    else Fault BarrierDivergence.
Proof.
  intros Hs Hc Htile Hsize Hb. unfold diffusion_shared.
  destruct (stage_block_spec x0 nx ny ssize gd bd b) as (buffer & -> & Hm);
    [done..|].
  rewrite bind_Ok. destruct (barrier_uniform nx ny bd b) eqn:Hu; [|done].
  unfold barrier_uniform, reaches_barrier in Hu.
  apply orb_true_iff in Hu as [Hall|Hnone].
  - rewrite forallb_forall in Hall.
    apply foldM_ext. intros t m Ht.
    apply (compute_staged x0 nx ny dt gd); [done|by split_and!|done|].
    intros _. apply elem_of_indices in Ht as [Hx Hy]. split.
    + destruct (Z.eq_dec t.(x) (bd.(x) - 1)); [by left|right].
      apply Hall, list_elem_of_In, elem_of_indices. simpl. lia.
    + destruct (Z.eq_dec t.(y) (bd.(y) - 1)); [by left|right].
      apply Hall, list_elem_of_In, elem_of_indices. simpl. lia.
  - rewrite forallb_forall in Hnone.
    apply foldM_ext. intros t m Ht.
    apply (compute_staged x0 nx ny dt gd); [done|by split_and!|done|].
    intros Hd. apply list_elem_of_In, Hnone in Ht. by rewrite Hd in Ht.
Qed.

Lemma block_naive_ok (x0 : list T) (nx ny : Z) (dt : T) (bd b : dim3) (s : list T) :
  sized nx ny x0 → length s = length x0 →
  ∃ s', foldM (diffusion x0 nx ny dt bd b) (indices bd) s = Ok s'
        ∧ length s' = length s.
Proof.
  intros Hs Hlen. pose proof Hs as (Hnx & Hny & Hsz & Hl0).
  destruct (foldM_stores
              (λ t, (global_i bd b t <? nx) && (global_j bd b t <? ny))
              (λ t, linear nx (global_i bd b t) (global_j bd b t))
              (stencil dt x0 (nx + 2))
              (diffusion x0 nx ny dt bd b)
              (Z.of_nat (length s)) (indices bd)) with s
    as (m' & Hm' & Hlen' & _); [..|done|].
  - intros t m _ _. by apply diffusion_shape.
  - intros t _ Hact. simpl in *. apply andb_true_iff in Hact as [Hi Hj].
    pose proof (u32_range (x t + u32 (x b * x bd))) as Ri.
    pose proof (u32_range (y t + u32 (y b * y bd))) as Rj.
    fold (global_i bd b t) in *. fold (global_j bd b t) in *.
    pose proof (linear_bounds nx ny (global_i bd b t) (global_j bd b t)
                  ltac:(lia) ltac:(lia)). lia.
  - exists m'. split; [done|lia].
Qed.

Lemma barrier_uniform_mixed (nx ny : Z) (bd b t t' : dim3) :
  t ∈ indices bd → t' ∈ indices bd →
  in_domain bd b t nx ny = true → in_domain bd b t' nx ny = false →
  barrier_uniform nx ny bd b = false.
Proof.
  intros Ht Ht' Hd Hd'. unfold barrier_uniform. apply orb_false_intro.
  - apply not_true_iff_false. intros Hall.
    rewrite forallb_forall in Hall. specialize (Hall t').
    unfold reaches_barrier in Hall. rewrite Hd' in Hall.
    apply list_elem_of_In in Ht'. by specialize (Hall Ht').
  - apply not_true_iff_false. intros Hall.
    rewrite forallb_forall in Hall. specialize (Hall t).
    unfold reaches_barrier in Hall. rewrite Hd in Hall.
    apply list_elem_of_In in Ht. by specialize (Hall Ht).
Qed.

(** When both extents are multiples of the block's, every block lies inside
    the domain or outside of it. *)
Lemma barrier_uniform_multiple (nx ny : Z) (gd bd b : dim3) :
  0 ≤ nx < 2 ^ 31 → 0 ≤ ny < 2 ^ 31 → covers gd bd nx ny →
  (bd.(x) + 2) * (bd.(y) + 2) < 2 ^ 32 → b ∈ indices gd →
  nx mod bd.(x) = 0 → ny mod bd.(y) = 0 →
  barrier_uniform nx ny bd b = true.
Proof.
  intros Hnx Hny Hc Htile Hb Mx My. pose proof Hc as (Hbx & Hby & Hgx & Hgy).
  assert (Ex : nx = bd.(x) * (nx / bd.(x))) by (apply Z.div_exact; lia).
  assert (Ey : ny = bd.(y) * (ny / bd.(y))) by (apply Z.div_exact; lia).
  set (kx := nx / bd.(x)) in *. set (ky := ny / bd.(y)) in *.
  pose proof Hb as Hb'. apply elem_of_indices in Hb' as [Hb1 Hb2].
  unfold barrier_uniform, reaches_barrier. apply orb_true_iff.
  destruct (decide (b.(x) < kx ∧ b.(y) < ky)) as [[Hx Hy]|Hout].
  - left. apply forallb_forall. intros t Ht. apply list_elem_of_In in Ht.
    rewrite (in_domain_eq gd) by (done || by split_and!).
    apply elem_of_indices in Ht as [Ht1 Ht2].
    apply andb_true_intro. split; apply Z.ltb_lt; nia.
  - right. apply forallb_forall. intros t Ht. apply list_elem_of_In in Ht.
    rewrite (in_domain_eq gd) by (done || by split_and!).
    apply elem_of_indices in Ht as [Ht1 Ht2].
    apply negb_true_iff, andb_false_iff.
    destruct (decide (b.(x) < kx)); [right|left]; apply Z.ltb_ge; nia.
Qed.

End tiled_general.

(** X11. The tiled kernel on any launch geometry.  With blocks of any shape
    that cover a non-empty domain and a staging buffer of one tile, a launch
    of [diffusion_shared] performs the reference update when both interior
    extents are multiples of the block's extents, and is undefined, a barrier
    inside a divergent branch, in every other case. *)
Theorem launch_shared_correct_iff {T : Type} `{Arith T} (gd bd : dim3) (ssize : Z)
    (x0 x1 : list T) (nx ny : Z) (dt : T) :
  sized nx ny x0 → length x1 = length x0 → covers gd bd nx ny →
  (bd.(x) + 2) * (bd.(y) + 2) < 2 ^ 32 → ssize / 8 = (bd.(x) + 2) * (bd.(y) + 2) →
  0 < nx → 0 < ny →
  launch_shared gd bd ssize x0 nx ny dt x1
  = if (nx mod bd.(x) =? 0) && (ny mod bd.(y) =? 0)
    then Ok (step_ref nx ny dt x0 x1)
    else Fault BarrierDivergence.
Proof.
  intros Hs Hlen Hc Htile Hsize Hnx Hny. pose proof Hs as (_ & _ & Hsz & Hl0).
  assert (nx < 2 ^ 31 ∧ ny < 2 ^ 31) as [? ?] by nia.
  pose proof Hc as (Hbx & Hby & Hgx & Hgy).
  assert (Hblock : ∀ b s, b ∈ indices gd →
            diffusion_shared x0 nx ny dt ssize bd b s
            = if barrier_uniform nx ny bd b
              then foldM (diffusion x0 nx ny dt bd b) (indices bd) s
              else Fault BarrierDivergence).
  { intros b s Hb. by apply (block_cases x0 s nx ny dt ssize gd). }
  destruct (Z.eqb_spec (nx mod bd.(x)) 0) as [Mx|Mx];
    [destruct (Z.eqb_spec (ny mod bd.(y)) 0) as [My|My]|]; cbn [andb].
  - rewrite <- (diffusion_launch gd bd) by done. unfold launch_shared, launch.
    apply foldM_ext. intros b s Hb. rewrite Hblock by done.
    by rewrite (barrier_uniform_multiple nx ny gd) by (done || lia).
  - unfold launch_shared.
    apply (foldM_fault _ (λ s, length s = length x0)); [| |done].
    + intros b s Hb Hl. rewrite Hblock by done.
      destruct (barrier_uniform nx ny bd b); [left|by right].
      destruct (block_naive_ok x0 nx ny dt bd b s Hs Hl) as (s' & E & Hl').
      exists s'. split; [done|congruence].
    + assert (Hb : Dim3 0 (ny / bd.(y)) ∈ indices gd).
      { apply elem_of_indices. simpl. split; [nia|].
        split; [apply Z.div_pos; lia|]. apply Z.div_lt_upper_bound; [lia|].
        destruct (Z.eq_dec ny (gd.(y) * bd.(y))) as [E|E]; [|lia].
        rewrite E, Z.mod_mul in My by lia. done. }
      exists (Dim3 0 (ny / bd.(y))). split; [done|]. intros s _.
      rewrite Hblock by done.
      rewrite (barrier_uniform_mixed nx ny bd _ (Dim3 0 0) (Dim3 0 (bd.(y) - 1)));
        [done| | | |].
      * apply elem_of_indices. simpl. lia.
      * apply elem_of_indices. simpl. lia.
      * rewrite (in_domain_eq gd); simpl; [|lia|lia|].
        -- apply andb_true_intro. split; apply Z.ltb_lt; lia.
        -- split_and!; [done..|]. apply elem_of_indices. simpl. lia.
      * rewrite (in_domain_eq gd); simpl; [|lia|lia|].
        -- apply andb_false_iff. right. apply Z.ltb_ge. lia.
        -- split_and!; [done..|]. apply elem_of_indices. simpl. lia.
  - unfold launch_shared.
    apply (foldM_fault _ (λ s, length s = length x0)); [| |done].
    + intros b s Hb Hl. rewrite Hblock by done.
      destruct (barrier_uniform nx ny bd b); [left|by right].
      destruct (block_naive_ok x0 nx ny dt bd b s Hs Hl) as (s' & E & Hl').
      exists s'. split; [done|congruence].
    + assert (Hb : Dim3 (nx / bd.(x)) 0 ∈ indices gd).
      { apply elem_of_indices. simpl. split; [|nia].
        split; [apply Z.div_pos; lia|]. apply Z.div_lt_upper_bound; [lia|].
        destruct (Z.eq_dec nx (gd.(x) * bd.(x))) as [E|E]; [|lia].
        rewrite E, Z.mod_mul in Mx by lia. done. }
      exists (Dim3 (nx / bd.(x)) 0). split; [done|]. intros s _.
      rewrite Hblock by done.
      rewrite (barrier_uniform_mixed nx ny bd _ (Dim3 0 0) (Dim3 (bd.(x) - 1) 0));
        [done| | | |].
      * apply elem_of_indices. simpl. lia.
      * apply elem_of_indices. simpl. lia.
      * rewrite (in_domain_eq gd); simpl; [|lia|lia|].
        -- apply andb_true_intro. split; apply Z.ltb_lt; lia.
        -- split_and!; [done..|]. apply elem_of_indices. simpl. lia.
      * rewrite (in_domain_eq gd); simpl; [|lia|lia|].
        -- apply andb_false_iff. left. apply Z.ltb_ge. lia.
        -- split_and!; [done..|]. apply elem_of_indices. simpl. lia.
Qed.

Lemma launch_shared_correct_iff_witness :
  let x0 := replicate 20 1%float in
  launch_shared (Dim3 2 1) (Dim3 2 2) 128 x0 3 2 lit_0_1 x0
  = if (3 mod 2 =? 0) && (2 mod 2 =? 0)
    then Ok (step_ref 3 2 lit_0_1 x0 x0)
    else Fault BarrierDivergence.
Proof.
  apply (launch_shared_correct_iff (Dim3 2 1) (Dim3 2 2) 128
           (replicate 20 1%float) (replicate 20 1%float) 3 2 lit_0_1).
  - unfold sized. split_and!; [lia|lia|lia|reflexivity].
  - reflexivity.
  - unfold covers. simpl. lia.
  - simpl. lia.
  - reflexivity.
  - lia.
  - lia.
Defined.

(** ** How far the boundary values travel *)

Lemma zero_rows_mono (nx ny k k' : Z) (g : list float) :
  k ≤ k' → zero_rows nx ny k g → zero_rows nx ny k' g.
Proof. intros Hk Hg r c Hr Hc. apply Hg; lia. Qed.

Lemma cell_zero_rows (nx ny k : Z) (g : list float) (r c : Z) :
  zero_rows nx ny k g → 0 ≤ nx → k < r < ny + 1 - k → 0 ≤ k → 0 ≤ c < nx + 2 →
  cell g (c + r * (nx + 2)) = 0%float.
Proof. intros Hg Hnx Hr Hk Hc. unfold cell. by rewrite (Hg r c). Qed.

(** One step moves the boundary values by at most one row. *)
Lemma step_ref_zero_rows (nx ny k : Z) (x0 x1 : list float) :
  0 ≤ nx → 0 ≤ k →
  zero_rows nx ny k x0 → zero_rows nx ny (k + 1) x1 →
  zero_rows nx ny (k + 1) (step_ref nx ny lit_0_1 x0 x1).
Proof.
  intros Hnx Hk H0 H1 r c Hr Hc. unfold step_ref.
  rewrite list_lookup_imap, (H1 r c) by done. cbn [fmap option_fmap option_map].
  rewrite Z2Nat.id by nia.
  destruct (interior nx ny (c + r * (nx + 2))) eqn:Hint; [|done].
  unfold interior in Hint. cbv zeta in Hint.
  destruct (div_mod_linear (nx + 2) c r Hc) as [Em Ed]. rewrite Em, Ed in Hint.
  repeat (apply andb_true_iff in Hint as [Hint ?]).
  unfold stencil.
  replace (c + r * (nx + 2) - (nx + 2)) with (c + (r - 1) * (nx + 2)) by lia.
  replace (c + r * (nx + 2) + (nx + 2)) with (c + (r + 1) * (nx + 2)) by lia.
  replace (c + r * (nx + 2) - 1) with ((c - 1) + r * (nx + 2)) by lia.
  replace (c + r * (nx + 2) + 1) with ((c + 1) + r * (nx + 2)) by lia.
  rewrite !(cell_zero_rows nx ny k x0) by (done || lia).
  reflexivity.
Qed.

Lemma ref_loop_zero_rows (nx ny : Z) (n : nat) (k : Z) (g : list float * list float) :
  0 ≤ nx → 0 ≤ k →
  zero_rows nx ny k g.1 → zero_rows nx ny k g.2 →
  zero_rows nx ny (k + Z.of_nat n) (ref_loop nx ny lit_0_1 n g).1
  ∧ zero_rows nx ny (k + Z.of_nat n) (ref_loop nx ny lit_0_1 n g).2.
Proof.
  intros Hnx. revert k g. induction n as [|n IH]; intros k [c d] Hk Hc Hd;
    cbn [ref_loop fst snd] in *.
  { rewrite Z.add_0_r. done. }
  replace (k + Z.of_nat (S n)) with ((k + 1) + Z.of_nat n) by lia.
  apply IH; cbn [fst snd]; [lia| |].
  - apply step_ref_zero_rows; [done..|]. by apply (zero_rows_mono nx ny k); [lia|].
  - by apply (zero_rows_mono nx ny k); [lia|].
Qed.

Lemma initial_grid_zero_rows (nx ny : Z) :
  0 ≤ nx → 0 ≤ ny → zero_rows nx ny 0 (initial_grid (nx + 2) (ny + 2)).
Proof.
  intros Hnx Hny r c Hr Hc.
  rewrite lookup_initial_grid by nia. rewrite Z2Nat.id by nia. f_equal.
  destruct (Z.ltb_spec (c + r * (nx + 2)) (nx + 2)); [nia|].
  destruct (Z.leb_spec ((nx + 2) * (ny + 2 - 1)) (c + r * (nx + 2))); [nia|].
  done.
Qed.

(** X12. The boundary values travel one row per step.  In binary64, with the
    driver's [dt = 0.1], the grid that a run of [nsteps] steps hands to the
    writer holds exactly [0.] in every padded row [r] with
    [nsteps < r < 2^pow + 1 - nsteps], in every column; and the naive
    strategy always ends with such a grid. *)
Theorem boundary_travels_one_row_per_step (capacity pow nsteps : Z)
    (junk0 junk1 : nat → float) :
  0 ≤ pow ≤ 23 → 0 ≤ nsteps ≤ INT_MAX →
  (∃ out, main capacity pow nsteps false junk0 junk1 = Ok out)
  ∧ (∀ use_shared out,
       main capacity pow nsteps use_shared junk0 junk1 = Ok out →
       ∀ r c, nsteps < r < 2 ^ pow + 1 - nsteps → 0 ≤ c < 130 →
         out.(x_host) !! Z.to_nat (c + r * 130) = Some 0%float).
Proof.
  intros Hp Hn. split.
  - rewrite main_closed_form by done. cbn [andb]. eauto.
  - intros use_shared out Hout r c Hr Hc.
    rewrite main_closed_form in Hout by done.
    destruct (_ && _ && _ && _); [done|]. cbv zeta in Hout.
    injection Hout as <-. cbn [x_host].
    assert (0 ≤ 2 ^ pow) by (apply Z.pow_nonneg; lia).
    pose proof (initial_grid_zero_rows 128 (2 ^ pow) ltac:(lia) ltac:(lia)) as H0.
    change (128 + 2) with 130 in H0.
    set (k := if use_shared && (capacity <? shared_size) then O else Z.to_nat nsteps).
    destruct (ref_loop_zero_rows 128 (2 ^ pow) k 0
                (initial_grid 130 (2 ^ pow + 2), initial_grid 130 (2 ^ pow + 2)))
      as [Hz _]; [lia|lia|done|done|].
    apply (zero_rows_mono 128 (2 ^ pow) _ nsteps) in Hz.
    + apply (Hz r c); lia.
    + subst k. destruct (_ && _); lia.
Qed.

Lemma boundary_travels_one_row_per_step_witness :
  (∃ out, main 49152 3 2 false (λ _, 7%float) (λ _, 7%float) = Ok out)
  ∧ (∀ use_shared out,
       main 49152 3 2 use_shared (λ _, 7%float) (λ _, 7%float) = Ok out →
       ∀ r c, 2 < r < 2 ^ 3 + 1 - 2 → 0 ≤ c < 130 →
         out.(x_host) !! Z.to_nat (c + r * 130) = Some 0%float).
Proof.
  apply (boundary_travels_one_row_per_step 49152 3 2 (λ _, 7%float) (λ _, 7%float)).
  - lia.
  - unfold INT_MAX. lia.
Defined.

(** ** The staging phase of the tiled kernel *)

Lemma written_mem {I : Type} (act : I → bool) (pos : I → Z) (l l' : list I) (q : Z) :
  (∀ t, t ∈ l ↔ t ∈ l') → written act pos l q = written act pos l' q.
Proof.
  intros Hmem. apply eq_true_iff_eq. rewrite !written_true.
  split; intros (t & Hin & Ht); exists t; split; try done; by apply Hmem.
Qed.

Section staging.
Context {T : Type} `{Arith T}.

(** [stage_block_spec] for the units of the block in any order. *)
Lemma stage_schedule_spec (x0 : list T) (nx ny ssize : Z) (gd bd b : dim3)
    (schedule : list dim3) :
  sized nx ny x0 → covers gd bd nx ny → (bd.(x) + 2) * (bd.(y) + 2) < 2 ^ 32 →
  b ∈ indices gd → ssize / 8 = (bd.(x) + 2) * (bd.(y) + 2) →
  (∀ t, t ∈ schedule ↔ t ∈ indices bd) →
  ∃ buffer,
    foldM (diffusion_shared_stage x0 nx ny bd b) schedule
          (replicate (Z.to_nat (ssize / 8)) None) = Ok buffer
    ∧ mirrors x0 nx ny bd b buffer.
Proof.
  intros Hs Hc Htile Hb Hsize Hmem. rewrite Hsize.
  set (n := (bd.(x) + 2) * (bd.(y) + 2)) in *.
  set (step := λ (c : dim3 * edge) (m : list (option T)),
         if copy_active nx ny bd b c
         then store m (copy_position bd c)
                    (Some (cell x0 (tile_source nx bd b (copy_position bd c))))
         else Ok m).
  rewrite (foldM_ext _ (λ t, foldM (λ k, step (t, k)) edges)).
  2:{ intros t s' Ht. apply (stage_shape x0 nx ny gd); [done|].
      split_and!; [done..|]. by apply Hmem. }
  rewrite <- (foldM_pairs step).
  set (l := t ← schedule; k ← edges; [(t, k)]).
  assert (Hl : ∀ c, c ∈ l ↔ c ∈ copies bd).
  { intros [t k]. rewrite elem_of_copies, <- Hmem. unfold l.
    rewrite list_elem_of_bind. split.
    - intros (t' & Hin & Ht'). apply list_elem_of_bind in Hin as (k' & Hin & _).
      apply list_elem_of_singleton in Hin. by simplify_eq.
    - intros Ht. exists t. split; [|done]. apply list_elem_of_bind. exists k.
      split; [by apply list_elem_of_singleton|].
      unfold edges. destruct k; eauto 10 using list_elem_of_here, list_elem_of_further. }
  destruct (foldM_stores (copy_active nx ny bd b) (copy_position bd)
              (λ s, Some (cell x0 (tile_source nx bd b s))) step n l)
    with (replicate (Z.to_nat n) (@None T)) as (buffer & Hbuf & Hlen & Hq).
  - done.
  - intros [t k] Hin Hact. apply Hl, elem_of_copies in Hin.
    apply elem_of_indices in Hin as [Hx Hy].
    destruct (shared_position_eq bd t Hx Hy Htile) as (_ & _ & Hlo & Hhi).
    unfold copy_position. cbn [fst snd]. fold n in Hhi. destruct k; lia.
  - rewrite length_replicate. destruct Hc as (? & ? & _). subst n. nia.
  - exists buffer. split; [done|]. intros s Hs0. rewrite (Hq s Hs0).
    rewrite (written_mem _ _ l (copies bd)) by done.
    unfold staged. destruct (written _ _ _ s); [done|]. fold n.
    destruct (s <? n) eqn:E.
    + apply lookup_replicate_2. lia.
    + apply lookup_replicate_None. lia.
Qed.

Lemma mirrors_unique (x0 : list T) (nx ny : Z) (bd b : dim3)
    (buffer buffer' : list (option T)) :
  mirrors x0 nx ny bd b buffer → mirrors x0 nx ny bd b buffer' → buffer = buffer'.
Proof.
  intros Hm Hm'. apply list_eq. intros k.
  specialize (Hm (Z.of_nat k) ltac:(lia)). specialize (Hm' (Z.of_nat k) ltac:(lia)).
  rewrite Nat2Z.id in Hm, Hm'. congruence.
Qed.

(** No copy writes a corner of the tile. *)
Lemma corner_unstaged (nx ny : Z) (bd b : dim3) (s : Z) :
  0 < bd.(x) → 0 < bd.(y) →
  s ∈ [0; bd.(x) + 1; (bd.(y) + 1) * (bd.(x) + 2); (bd.(x) + 2) * (bd.(y) + 2) - 1] →
  staged nx ny bd b s = false.
Proof.
  intros Hbx Hby Hs. apply written_false. intros [t k] Hin Hact Hpos.
  apply elem_of_copies, elem_of_indices in Hin as [Hx Hy].
  unfold copy_active in Hact. cbn [fst snd] in Hact.
  apply andb_true_iff in Hact as [_ Hk].
  unfold copy_position, shared_position in Hpos. cbn [fst snd] in Hpos.
  set (w := bd.(x) + 2) in *.
  assert (Hcases : s = 0 ∨ s = w - 1 ∨ s = (bd.(y) + 1) * w
                   ∨ s = w * (bd.(y) + 2) - 1).
  { subst w. repeat (apply elem_of_cons in Hs as [->|Hs]); [lia..|].
    by apply elem_of_nil in Hs. }
  clear Hs.
  destruct k; destruct Hcases as [-> | [-> | [-> | ->]]]; nia.
Qed.

(** In a block inside the domain every cell of the tile but the corners is
    written. *)
Lemma full_block_staged (nx ny : Z) (bd b : dim3) (r c : Z) :
  0 < bd.(x) → 0 < bd.(y) →
  (∀ t, t ∈ indices bd → in_domain bd b t nx ny = true) →
  0 ≤ r < bd.(y) + 2 → 0 ≤ c < bd.(x) + 2 →
  ¬ ((r = 0 ∨ r = bd.(y) + 1) ∧ (c = 0 ∨ c = bd.(x) + 1)) →
  staged nx ny bd b (c + r * (bd.(x) + 2)) = true.
Proof.
  intros Hbx Hby Hall Hr Hc Hcorner.
  assert (Hw : ∀ t k, t ∈ indices bd →
            match k with
            | Own => true
            | West => t.(x) =? 0
            | East => t.(x) =? bd.(x) - 1
            | North => t.(y) =? 0
            | South => t.(y) =? bd.(y) - 1
            end = true →
            copy_position bd (t, k) = c + r * (bd.(x) + 2) →
            staged nx ny bd b (c + r * (bd.(x) + 2)) = true).
  { intros t k Ht Hk Hpos. apply (written_by nx ny bd b (t, k)); [done| |done].
    unfold copy_active. cbn [fst snd]. by rewrite Hall, Hk. }
  destruct (decide (c = 0)) as [->|Hc0].
  { apply (Hw (Dim3 0 (r - 1)) West); [apply elem_of_indices; simpl; lia|done|].
    unfold copy_position, shared_position. simpl. lia. }
  destruct (decide (c = bd.(x) + 1)) as [->|Hc1].
  { apply (Hw (Dim3 (bd.(x) - 1) (r - 1)) East);
      [apply elem_of_indices; simpl; lia|simpl; lia|].
    unfold copy_position, shared_position. simpl. lia. }
  destruct (decide (r = 0)) as [->|Hr0].
  { apply (Hw (Dim3 (c - 1) 0) North); [apply elem_of_indices; simpl; lia|done|].
    unfold copy_position, shared_position. simpl. lia. }
  destruct (decide (r = bd.(y) + 1)) as [->|Hr1].
  { apply (Hw (Dim3 (c - 1) (bd.(y) - 1)) South);
      [apply elem_of_indices; simpl; lia|simpl; lia|].
    unfold copy_position, shared_position. simpl. lia. }
  apply (Hw (Dim3 (c - 1) (r - 1)) Own); [apply elem_of_indices; simpl; lia|done|].
  unfold copy_position, shared_position. simpl. lia.
Qed.

End staging.

(** X13. The staging phase of the tiled kernel (lines 44-63), for a block
    of any shape at any place of a covering launch.  It never fails, also in
    a partial block, and ends with the same buffer in whatever order the
    units of the block run.  A cell that it has written holds the grid cell
    it mirrors; the four corners of the tile are never written; and in a
    block that lies inside the domain every other cell of the tile is
    written. *)
Theorem staging_phase {T : Type} `{Arith T} (x0 : list T) (nx ny ssize : Z)
    (gd bd b : dim3) (schedule : list dim3) :
  sized nx ny x0 → covers gd bd nx ny → (bd.(x) + 2) * (bd.(y) + 2) < 2 ^ 32 →
  ssize / 8 = (bd.(x) + 2) * (bd.(y) + 2) → b ∈ indices gd →
  schedule ≡ₚ indices bd →
  ∃ buffer,
    stage_block x0 nx ny ssize bd b = Ok buffer
    ∧ foldM (diffusion_shared_stage x0 nx ny bd b) schedule
            (replicate (Z.to_nat (ssize / 8)) None) = Ok buffer
    ∧ (∀ s v, 0 ≤ s → buffer !! Z.to_nat s = Some (Some v) →
              v = cell x0 (tile_source nx bd b s))
    ∧ (∀ s, s ∈ [0; bd.(x) + 1; (bd.(y) + 1) * (bd.(x) + 2);
                 (bd.(x) + 2) * (bd.(y) + 2) - 1] →
            buffer !! Z.to_nat s = Some None)
    ∧ ((∀ t, t ∈ indices bd → in_domain bd b t nx ny = true) →
       ∀ r c, 0 ≤ r < bd.(y) + 2 → 0 ≤ c < bd.(x) + 2 →
         ¬ ((r = 0 ∨ r = bd.(y) + 1) ∧ (c = 0 ∨ c = bd.(x) + 1)) →
         buffer !! Z.to_nat (c + r * (bd.(x) + 2))
         = Some (Some (cell x0 (tile_source nx bd b (c + r * (bd.(x) + 2)))))).
Proof.
  intros Hs Hc Htile Hsize Hb Hperm. pose proof Hc as (Hbx & Hby & _).
  destruct (stage_block_spec x0 nx ny ssize gd bd b) as (buffer & Hbuf & Hm);
    [done..|].
  destruct (stage_schedule_spec x0 nx ny ssize gd bd b schedule)
    as (buffer' & Hbuf' & Hm'); [done..| |].
  { intros t. by rewrite Hperm. }
  rewrite <- (mirrors_unique _ _ _ _ _ _ _ Hm Hm') in Hbuf'.
  exists buffer. split_and!; [done|done|..].
  - intros s v Hs0 Hv. rewrite (Hm s Hs0) in Hv.
    destruct (staged nx ny bd b s); [congruence|].
    destruct (s <? _); congruence.
  - intros s Hin. assert (0 ≤ s < (bd.(x) + 2) * (bd.(y) + 2)) as Hs0.
    { repeat (apply elem_of_cons in Hin as [->|Hin]); [nia..|].
      by apply elem_of_nil in Hin. }
    rewrite (Hm s) by lia. rewrite corner_unstaged by done.
    destruct (Z.ltb_spec s ((bd.(x) + 2) * (bd.(y) + 2))); [done|lia].
  - intros Hall r c Hr Hcol Hcorner. rewrite (Hm _) by nia.
    by rewrite full_block_staged.
Qed.

Lemma staging_phase_witness :
  let x0 := replicate 20 1%float in
  ∃ buffer,
    stage_block x0 3 2 128 (Dim3 2 2) (Dim3 1 0) = Ok buffer
    ∧ foldM (diffusion_shared_stage x0 3 2 (Dim3 2 2) (Dim3 1 0))
            (rev (indices (Dim3 2 2)))
            (replicate (Z.to_nat (128 / 8)) None) = Ok buffer
    ∧ (∀ s v, 0 ≤ s → buffer !! Z.to_nat s = Some (Some v) →
              v = cell x0 (tile_source 3 (Dim3 2 2) (Dim3 1 0) s))
    ∧ (∀ s, s ∈ [0; x (Dim3 2 2) + 1; (y (Dim3 2 2) + 1) * (x (Dim3 2 2) + 2);
                 (x (Dim3 2 2) + 2) * (y (Dim3 2 2) + 2) - 1] →
            buffer !! Z.to_nat s = Some None)
    ∧ ((∀ t, t ∈ indices (Dim3 2 2) →
             in_domain (Dim3 2 2) (Dim3 1 0) t 3 2 = true) →
       ∀ r c, 0 ≤ r < y (Dim3 2 2) + 2 → 0 ≤ c < x (Dim3 2 2) + 2 →
         ¬ ((r = 0 ∨ r = y (Dim3 2 2) + 1) ∧ (c = 0 ∨ c = x (Dim3 2 2) + 1)) →
         buffer !! Z.to_nat (c + r * (x (Dim3 2 2) + 2))
         = Some (Some (cell x0 (tile_source 3 (Dim3 2 2) (Dim3 1 0)
                                  (c + r * (x (Dim3 2 2) + 2)))))).
Proof.
  apply (staging_phase (replicate 20 1%float) 3 2 128 (Dim3 2 1) (Dim3 2 2)
           (Dim3 1 0) (rev (indices (Dim3 2 2)))).
  - unfold sized. split_and!; [lia|lia|lia|reflexivity].
  - unfold covers. simpl. lia.
  - simpl. lia.
  - reflexivity.
  - apply elem_of_indices. simpl. lia.
  - symmetry. apply Permutation_rev.
Defined.

(** ** What a launch depends on *)

Lemma step_ref_reads {T : Type} `{Arith T} (nx ny : Z) (dt : T) (x0 x0' x1 x1' : list T) :
  0 ≤ nx → length x1' = length x1 →
  (∀ q : nat, corner nx ny (Z.of_nat q) = false → x0' !! q = x0 !! q) →
  same_halo nx ny x1 x1' →
  step_ref nx ny dt x0 x1 = step_ref nx ny dt x0' x1'.
Proof.
  intros Hnx Hlen H0 H1. apply list_eq. intros k. unfold step_ref.
  rewrite !list_lookup_imap.
  destruct (interior nx ny (Z.of_nat k)) eqn:Hint.
  - assert (Hcell : ∀ q, 0 ≤ q → corner nx ny q = false → cell x0' q = cell x0 q).
    { intros q Hq Hc. unfold cell. rewrite <- (Z2Nat.id q) in Hc by done.
      by rewrite (H0 _ Hc). }
    assert (stencil dt x0' (nx + 2) (Z.of_nat k) = stencil dt x0 (nx + 2) (Z.of_nat k))
      as ->.
    { apply interior_inv in Hint as (i & j & Hi & Hj & ->); [|done].
      unfold stencil, linear.
      assert (Hnc : ∀ a c, 0 ≤ a < nx + 2 → 0 ≤ c < ny + 2 →
                 ¬ ((a = 0 ∨ a = nx + 1) ∧ (c = 0 ∨ c = ny + 1)) →
                 corner nx ny (a + c * (nx + 2)) = false).
      { intros a c Ha Hc Hn. unfold corner.
        repeat apply orb_false_intro; apply Z.eqb_neq; intros E.
        - assert (a = 0 ∧ c = 0) by nia. lia.
        - destruct (linear_unique (nx + 2) a c (nx + 1) 0); lia.
        - destruct (linear_unique (nx + 2) a c 0 (ny + 1)); lia.
        - destruct (linear_unique (nx + 2) a c (nx + 1) (ny + 1)); lia. }
      replace (i + 1 + (j + 1) * (nx + 2) - (nx + 2)) with ((i + 1) + j * (nx + 2)) by lia.
      replace (i + 1 + (j + 1) * (nx + 2) + (nx + 2)) with ((i + 1) + (j + 2) * (nx + 2)) by lia.
      replace (i + 1 + (j + 1) * (nx + 2) - 1) with (i + (j + 1) * (nx + 2)) by lia.
      replace (i + 1 + (j + 1) * (nx + 2) + 1) with ((i + 2) + (j + 1) * (nx + 2)) by lia.
      rewrite !Hcell; [done|..]; first [nia | apply Hnc; lia]. }
    assert (is_Some (x1 !! k) ↔ is_Some (x1' !! k)) as Hsome.
    { rewrite !lookup_lt_is_Some. lia. }
    destruct (x1 !! k), (x1' !! k); try done.
    + destruct Hsome as [Hs _]. by destruct (Hs ltac:(eauto)).
    + destruct Hsome as [_ Hs]. by destruct (Hs ltac:(eauto)).
  - by rewrite (H1 k Hint).
Qed.

(** X14. What a launch reads.  The result of a launch of either kernel over
    a covering geometry depends on the source only through the cells that
    are not corners of the padded grid, and on the destination only through
    its halo: the kernels never read a corner, and never read the
    destination. *)
Theorem launch_reads {T : Type} `{Arith T} (gd bd : dim3) (ssize : Z)
    (x0 x0' x1 x1' : list T) (nx ny : Z) (dt : T) :
  sized nx ny x0 → sized nx ny x0' →
  length x1 = length x0 → length x1' = length x0 → covers gd bd nx ny →
  (∀ q : nat, corner nx ny (Z.of_nat q) = false → x0' !! q = x0 !! q) →
  same_halo nx ny x1 x1' →
  launch gd bd (diffusion x0 nx ny dt) x1 = launch gd bd (diffusion x0' nx ny dt) x1'
  ∧ ((bd.(x) + 2) * (bd.(y) + 2) < 2 ^ 32 → ssize / 8 = (bd.(x) + 2) * (bd.(y) + 2) →
     0 < nx → 0 < ny →
     launch_shared gd bd ssize x0 nx ny dt x1
     = launch_shared gd bd ssize x0' nx ny dt x1').
Proof.
  intros Hs Hs' Hl Hl' Hc H0 H1. pose proof Hs as (Hnx & _).
  assert (step_ref nx ny dt x0 x1 = step_ref nx ny dt x0' x1') as Hstep.
  { apply step_ref_reads; [done|congruence|done..]. }
  split.
  - rewrite !diffusion_launch; [by rewrite Hstep|try done..].
    destruct Hs as (_ & _ & _ & E), Hs' as (_ & _ & _ & E'). lia.
  - intros Htile Hsize Hnx0 Hny0.
    rewrite !launch_shared_correct_iff; [by rewrite Hstep|try done..].
    destruct Hs as (_ & _ & _ & E), Hs' as (_ & _ & _ & E'). lia.
Qed.

Lemma launch_reads_witness :
  let x0 := replicate 16 1%float in
  let x0' := 5%float :: replicate 15 1%float in
  let x1 := replicate 16 0%float in
  let x1' := replicate 5 0%float ++ [9%float] ++ replicate 10 0%float in
  launch (Dim3 1 1) (Dim3 2 2) (diffusion x0 2 2 lit_0_1) x1
  = launch (Dim3 1 1) (Dim3 2 2) (diffusion x0' 2 2 lit_0_1) x1'
  ∧ ((x (Dim3 2 2) + 2) * (y (Dim3 2 2) + 2) < 2 ^ 32 →
     128 / 8 = (x (Dim3 2 2) + 2) * (y (Dim3 2 2) + 2) →
     0 < 2 → 0 < 2 →
     launch_shared (Dim3 1 1) (Dim3 2 2) 128 x0 2 2 lit_0_1 x1
     = launch_shared (Dim3 1 1) (Dim3 2 2) 128 x0' 2 2 lit_0_1 x1').
Proof.
  apply (launch_reads (Dim3 1 1) (Dim3 2 2) 128
           (replicate 16 1%float) (5%float :: replicate 15 1%float)
           (replicate 16 0%float)
           (replicate 5 0%float ++ [9%float] ++ replicate 10 0%float) 2 2 lit_0_1).
  - unfold sized. split_and!; [lia|lia|lia|reflexivity].
  - unfold sized. split_and!; [lia|lia|lia|reflexivity].
  - reflexivity.
  - reflexivity.
  - unfold covers. simpl. lia.
  - intros [|q] Hq; [discriminate Hq|reflexivity].
  - intros q Hq.
    do 16 (destruct q as [|q]; [first [discriminate Hq | reflexivity]|]).
    reflexivity.
Defined.

(** ** The writer *)

Lemma length_main_grid {T : Type} `{Arith T} (pow : Z) (n : nat) :
  0 ≤ pow ≤ 23 →
  Z.of_nat (length (ref_loop 128 (2 ^ pow) lit_0_1 n
                      (initial_grid 130 (2 ^ pow + 2),
                       initial_grid 130 (2 ^ pow + 2))).1)
  = 130 * (2 ^ pow + 2).
Proof.
  intros Hp. assert (0 ≤ 2 ^ pow) by (apply Z.pow_nonneg; lia).
  destruct (length_ref_loop 128 (2 ^ pow) lit_0_1 n
              (initial_grid 130 (2 ^ pow + 2), initial_grid 130 (2 ^ pow + 2)))
    as [-> _]; [done|].
  cbn [fst]. apply length_initial_grid. lia.
Qed.

(** X15. When the writer fails.  For [int] extents and a buffer that a
    [size_t] can measure, [write_to_file] overflows exactly when the product
    of the extents is no [int], and reads past the end of the buffer exactly
    when the product is an [int] that is negative or exceeds the length of
    the buffer.  In every other case it leaves the first [nx * ny] cells of
    the buffer in [output.bin], none when an extent is 0, and the header. *)
Theorem write_to_file_fails_exactly_when {T : Type} (nx ny : Z) (data : list T) :
  - 2 ^ 31 ≤ nx ≤ INT_MAX → - 2 ^ 31 ≤ ny ≤ INT_MAX →
  Z.of_nat (length data) < 2 ^ 61 →
  (write_to_file nx ny data = Fault SignedOverflow
   ↔ ¬ (- 2 ^ 31 ≤ nx * ny ≤ INT_MAX))
  ∧ (write_to_file nx ny data = Fault OutOfBounds
     ↔ - 2 ^ 31 ≤ nx * ny ≤ INT_MAX
       ∧ (nx * ny < 0 ∨ Z.of_nat (length data) < nx * ny))
  ∧ (0 ≤ nx * ny ≤ INT_MAX → nx * ny ≤ Z.of_nat (length data) →
     ∃ f, write_to_file nx ny data = Ok f
          ∧ f.(output_bin) = take (Z.to_nat (nx * ny)) data
          ∧ Z.of_nat (length f.(output_bin)) = nx * ny
          ∧ (nx * ny = 0 → f.(output_bin) = [])).
Proof.
  intros Hnx Hny Hlen. unfold write_to_file, INT_MAX in *.
  destruct (Z.ltb_spec (nx * ny) (- 2 ^ 31)) as [Hlo|Hlo]; cbn [orb].
  { split_and!; [split; [lia|done]|split; [done|lia]|lia]. }
  destruct (Z.ltb_spec (2 ^ 31 - 1) (nx * ny)) as [Hhi|Hhi].
  { split_and!; [split; [lia|done]|split; [done|lia]|lia]. }
  cbv zeta.
  destruct (Z.lt_ge_cases (nx * ny) 0) as [Hneg|Hpos].
  - assert (u64 (nx * ny) = 2 ^ 64 + nx * ny) as ->.
    { unfold u64. rewrite <- (Z.mod_add _ 1) by lia.
      rewrite Z.mod_small; lia. }
    destruct (Z.leb_spec (2 ^ 64 + nx * ny) (Z.of_nat (length data))); [lia|].
    split_and!; [split; [done|lia]|split; [lia|done]|lia].
  - rewrite (u64_small (nx * ny)) by lia.
    destruct (Z.leb_spec (nx * ny) (Z.of_nat (length data))) as [Hle|Hgt].
    + split_and!; [split; [done|lia]|split; [done|lia]|].
      intros _ _. eexists. split; [done|]. cbn [output_bin].
      split_and!; [done|rewrite length_take; lia|].
      intros ->. done.
    + split_and!; [split; [done|lia]|split; [lia|done]|lia].
Qed.

Lemma write_to_file_fails_exactly_when_witness :
  let data := [1; 2; 3; 4; 5; 6; 7]%float in
  (write_to_file 2 3 data = Fault SignedOverflow
   ↔ ¬ (- 2 ^ 31 ≤ 2 * 3 ≤ INT_MAX))
  ∧ (write_to_file 2 3 data = Fault OutOfBounds
     ↔ - 2 ^ 31 ≤ 2 * 3 ≤ INT_MAX
       ∧ (2 * 3 < 0 ∨ Z.of_nat (length data) < 2 * 3))
  ∧ (0 ≤ 2 * 3 ≤ INT_MAX → 2 * 3 ≤ Z.of_nat (length data) →
     ∃ f, write_to_file 2 3 data = Ok f
          ∧ f.(output_bin) = take (Z.to_nat (2 * 3)) data
          ∧ Z.of_nat (length f.(output_bin)) = 2 * 3
          ∧ (2 * 3 = 0 → f.(output_bin) = [])).
Proof.
  apply (write_to_file_fails_exactly_when 2 3 [1; 2; 3; 4; 5; 6; 7]%float).
  - unfold INT_MAX. lia.
  - unfold INT_MAX. lia.
  - simpl. lia.
Defined.

(** X16. [main] and the writer.  For parameters in range, the writer adds
    no failure to a run: when [main] reaches it, it reads exactly the
    [130 * (2^pow + 2)] cells of the host buffer, all of them, into
    [output.bin], and the header declares these extents. *)
Theorem main_writes_whole_grid {T : Type} `{Arith T} (capacity pow nsteps : Z)
    (use_shared : bool) (junk0 junk1 : nat → T) :
  0 ≤ pow ≤ 23 → 0 ≤ nsteps ≤ INT_MAX →
  match main capacity pow nsteps use_shared junk0 junk1 with
  | Ok out =>
      main_writes capacity pow nsteps use_shared junk0 junk1
      = Ok (Files out.(x_host)
              (String.concat ""
                 (map (λ l, String.append l endl) (bov_lines 130 (2 ^ pow + 2)))))
      ∧ Z.of_nat (length out.(x_host)) = 130 * (2 ^ pow + 2)
  | Fault f => main_writes capacity pow nsteps use_shared junk0 junk1 = Fault f
  end.
Proof.
  intros Hp Hn. unfold main_writes.
  rewrite main_closed_form by done.
  destruct (_ && _ && _ && _); [done|]. cbv zeta. rewrite bind_Ok. cbn [x_host].
  set (g := (ref_loop _ _ _ _ _).1).
  assert (Hg : Z.of_nat (length g) = 130 * (2 ^ pow + 2)) by by apply length_main_grid.
  split; [|done].
  assert (1 ≤ 2 ^ pow ≤ 2 ^ 23) as Hpow.
  { split; [|apply Z.pow_le_mono_r; lia].
    pose proof (Z.pow_pos_nonneg 2 pow ltac:(lia) ltac:(lia)). lia. }
  rewrite Z.shiftl_1_l. change (128 + 2) with 130.
  rewrite !u64_small by lia. rewrite !s32_small by lia.
  unfold write_to_file, INT_MAX.
  destruct (Z.ltb_spec (130 * (2 ^ pow + 2)) (- 2 ^ 31)); [lia|].
  destruct (Z.ltb_spec (2 ^ 31 - 1) (130 * (2 ^ pow + 2))); [lia|].
  cbn [orb]. cbv zeta. rewrite u64_small by lia.
  destruct (Z.leb_spec (130 * (2 ^ pow + 2)) (Z.of_nat (length g))); [|lia].
  rewrite take_ge by lia. done.
Qed.

Lemma main_writes_whole_grid_witness :
  match main 49152 3 1 false (λ _, 7%float) (λ _, 7%float) with
  | Ok out =>
      main_writes 49152 3 1 false (λ _, 7%float) (λ _, 7%float)
      = Ok (Files out.(x_host)
              (String.concat ""
                 (map (λ l, String.append l endl) (bov_lines 130 (2 ^ 3 + 2)))))
      ∧ Z.of_nat (length out.(x_host)) = 130 * (2 ^ 3 + 2)
  | Fault f => main_writes 49152 3 1 false (λ _, 7%float) (λ _, 7%float) = Fault f
  end.
Proof.
  apply (main_writes_whole_grid 49152 3 1 false (λ _, 7%float) (λ _, 7%float)).
  - lia.
  - unfold INT_MAX. lia.
Defined.

(** ** The staging buffer of the tiled kernel *)

(** X17. A staging buffer that is too small.  When the first block lies
    inside the domain and the launch gives the block fewer than
    [(blockDim.x + 2) * (blockDim.y + 2) - 1] cells of staging buffer, the
    staging phase of [diffusion_shared] stores past the end of the buffer:
    the kernel never checks the size it is given. *)
Theorem launch_shared_small_buffer {T : Type} `{Arith T} (gd bd : dim3) (ssize : Z)
    (x0 x1 : list T) (nx ny : Z) (dt : T) :
  sized nx ny x0 → covers gd bd nx ny → (bd.(x) + 2) * (bd.(y) + 2) < 2 ^ 32 →
  bd.(x) ≤ nx → bd.(y) ≤ ny →
  0 ≤ ssize → ssize / 8 < (bd.(x) + 2) * (bd.(y) + 2) - 1 →
  launch_shared gd bd ssize x0 nx ny dt x1 = Fault OutOfBounds.
Proof.
  intros Hs Hc Htile Hfx Hfy Hs0 Hsmall. pose proof Hs as (Hnx & Hny & Hsz & _).
  assert (nx < 2 ^ 31 ∧ ny < 2 ^ 31) as [? ?] by nia.
  pose proof Hc as (Hbx & Hby & Hgx & Hgy).
  destruct (indices_head gd) as [rest Hrest]; [nia..|].
  assert (Hb : Dim3 0 0 ∈ indices gd) by (rewrite Hrest; left).
  unfold launch_shared. rewrite Hrest. cbn [foldM].
  assert (stage_block x0 nx ny ssize bd (Dim3 0 0) = Fault OutOfBounds) as Hstage.
  { unfold stage_block.
    set (step := λ (c : dim3 * edge) (m : list (option T)),
           if copy_active nx ny bd (Dim3 0 0) c
           then store m (copy_position bd c)
                      (Some (cell x0 (tile_source nx bd (Dim3 0 0) (copy_position bd c))))
           else Ok m).
    rewrite (foldM_ext _ (λ t, foldM (λ k, step (t, k)) edges)).
    2:{ intros t s' Ht. by apply (stage_shape x0 nx ny gd). }
    rewrite <- (foldM_pairs step). fold (copies bd).
    apply (foldM_stores_fault (copy_active nx ny bd (Dim3 0 0)) (copy_position bd)
             (λ s, Some (cell x0 (tile_source nx bd (Dim3 0 0) s))) step
             (ssize / 8)).
    - done.
    - exists (Dim3 (bd.(x) - 1) (bd.(y) - 1), South).
      assert (Ht : Dim3 (bd.(x) - 1) (bd.(y) - 1) ∈ indices bd).
      { apply elem_of_indices. simpl. lia. }
      split_and!.
      + by apply elem_of_copies.
      + unfold copy_active. cbn [fst snd].
        rewrite (in_domain_eq gd) by (done || by split_and!). simpl.
        rewrite Z.eqb_refl, andb_true_r. apply andb_true_intro. lia.
      + unfold copy_position, shared_position. simpl. nia.
    - rewrite length_replicate. apply Z2Nat.id. apply Z.div_pos; lia. }
  unfold diffusion_shared. by rewrite Hstage.
Qed.

Lemma launch_shared_small_buffer_witness :
  let x0 := replicate 16 1%float in
  launch_shared (Dim3 1 1) (Dim3 2 2) 112 x0 2 2 lit_0_1 x0 = Fault OutOfBounds.
Proof.
  apply (launch_shared_small_buffer (Dim3 1 1) (Dim3 2 2) 112
           (replicate 16 1%float) (replicate 16 1%float) 2 2 lit_0_1).
  - unfold sized. split_and!; [lia|lia|lia|reflexivity].
  - unfold covers. simpl. lia.
  - simpl. lia.
  - simpl. lia.
  - simpl. lia.
  - lia.
  - simpl. lia.
Defined.
